(** * Process-Scheduler: the scheduling engine of [Project1/main.go]

    A shallow embedding of the four schedulers ([FCFSSchedule],
    [SJFSchedule], [SJFPrioritySchedule], [RRSchedule]) with the queue
    methods and comparators they use, and the properties that the
    specification states of them.

    Conventions of the embedding.
    - An [int64] is an integer of [Z]; the arithmetic of the source wraps
      around ([add64], [sub64]).
    - A [float64] is an IEEE 754 binary64 number ([spec_float] with
      precision 53 and [emax] 1024).
    - A slice of [Process] is a header (array, offset, length, capacity)
      into a heap of backing arrays, so that [append], re-slicing and
      [sort.Slice] act in place exactly where Go does.  The tables of rows
      and the timeline are never shared and are plain lists.
    - The [io.Writer] is left out: a scheduler returns the calls it makes
      to the output helpers, with their arguments.
    - A function that can panic returns a [result].  The loops
      [for len(pq.processes) > 0] and [for len(queue) > 0 ||
      len(processes) > 0] take fuel.

    The file has three parts: the program; the same loops on lists, with
    the invariants used below; the proofs, which first show that the program
    computes what the loops on lists compute and then settle each property
    of the specification. *)

From Stdlib Require Import ZArith Lia Permutation.
From Stdlib Require Import Floats.SpecFloat.
From stdpp Require Import base tactics option list strings.

Local Open Scope Z_scope.

(** ** Machine integers and floats *)

Definition wrap64 (z : Z) : Z := (z + 2 ^ 63) mod 2 ^ 64 - 2 ^ 63.
Definition add64 (a b : Z) : Z := wrap64 (a + b).
Definition sub64 (a b : Z) : Z := wrap64 (a - b).
Definition int64_range (z : Z) : Prop := - 2 ^ 63 <= z < 2 ^ 63.

Definition float64 : Type := spec_float.
Definition f64_of_int (z : Z) : float64 := binary_normalize 53 1024 z 0 false.
Definition f64_add : float64 -> float64 -> float64 := SFadd 53 1024.
Definition f64_div : float64 -> float64 -> float64 := SFdiv 53 1024.
Definition f64_zero : float64 := S754_zero false.
Definition f64_is_nan (x : float64) : bool :=
  match x with S754_nan => true | _ => false end.

(** ** Results of functions that can panic or loop *)

Inductive panic : Type :=
  | IndexOutOfRange
  | SliceBoundsOutOfRange.

Inductive result (A : Type) : Type :=
  | Ok (a : A)
  | Panic (e : panic)
  | OutOfFuel.
Arguments Ok {A} a.
Arguments Panic {A} e.
Arguments OutOfFuel {A}.

Definition result_bind {A B} (f : A -> result B) (m : result A) : result B :=
  match m with
  | Ok a => f a
  | Panic e => Panic e
  | OutOfFuel => OutOfFuel
  end.

#[global] Instance result_mbind : MBind result := @result_bind.
#[global] Instance result_mret : MRet result := @Ok.

(** ** Data of the program *)

Record Process : Type := mkProcess {
  ProcessID : Z;
  ArrivalTime : Z;
  BurstDuration : Z;
  Priority : Z;
  RemainingTime : Z;
  CompleteTime : Z;
  TurnAroundTime : Z;
  WaitTime : Z
}.

Record TimeSlice : Type := mkTimeSlice {
  PID : Z;
  Start : Z;
  Stop : Z
}.

(** The zero value of [Process]: what a freshly made array holds. *)
Definition zeroProcess : Process := mkProcess 0 0 0 0 0 0 0 0.

Definition set_RemainingTime (p : Process) (v : Z) : Process :=
  mkProcess (ProcessID p) (ArrivalTime p) (BurstDuration p) (Priority p)
            v (CompleteTime p) (TurnAroundTime p) (WaitTime p).
Definition set_CompleteTime (p : Process) (v : Z) : Process :=
  mkProcess (ProcessID p) (ArrivalTime p) (BurstDuration p) (Priority p)
            (RemainingTime p) v (TurnAroundTime p) (WaitTime p).
Definition set_TurnAroundTime (p : Process) (v : Z) : Process :=
  mkProcess (ProcessID p) (ArrivalTime p) (BurstDuration p) (Priority p)
            (RemainingTime p) (CompleteTime p) v (WaitTime p).
Definition set_WaitTime (p : Process) (v : Z) : Process :=
  mkProcess (ProcessID p) (ArrivalTime p) (BurstDuration p) (Priority p)
            (RemainingTime p) (CompleteTime p) (TurnAroundTime p) v.

(** One row of the schedule table.  The source builds it as seven strings,
    each the [fmt.Sprint] of an [int64]; the row keeps the integers, in the
    order of the columns ID, Priority, Burst, Arrival, Wait, Turnaround,
    Exit. *)
Record Row : Type := mkRow {
  r_id : Z;
  r_priority : Z;
  r_burst : Z;
  r_arrival : Z;
  r_wait : Z;
  r_turnaround : Z;
  r_completion : Z
}.

(** [schedule = make([][]string, n)]: [n] nil rows. *)
Abbreviation table := (list (option Row)).
Definition make_table (n : nat) : table := replicate n None.

(** [schedule[i] = row], with Go's bounds check. *)
Definition store_row (t : table) (i : Z) (r : Row) : result table :=
  if bool_decide (0 <= i < Z.of_nat (length t))
  then Ok (<[Z.to_nat i := Some r]> t)
  else Panic IndexOutOfRange.

(** What a scheduler hands to the output helpers, in call order. *)
Inductive output : Type :=
  | outputTitle (title : string)
  | outputGantt (gantt : list TimeSlice)
  | outputSchedule (rows : table) (wait turnaround throughput : float64).

(** ** Slices of processes *)

Record slice : Type := mkSlice {
  s_arr : nat;   (* the backing array *)
  s_off : nat;   (* index in it of element 0 *)
  s_len : nat;
  s_cap : nat
}.

Abbreviation heap := (list (list Process)).

(** The nil slice; [make([]Process, 0)] behaves the same. *)
Definition nil_slice : slice := mkSlice 0 0 0 0.

Definition backing (h : heap) (s : slice) : list Process :=
  default [] (h !! s_arr s).

(** The elements a slice shows. *)
Definition elems (h : heap) (s : slice) : list Process :=
  take (s_len s) (drop (s_off s) (backing h s)).

(** Overwrite the cells of an array from position [k] on with [vs]. *)
Definition blit (k : nat) (vs : list Process) (a : list Process) : list Process :=
  take k a ++ vs ++ drop (k + length vs) a.

(** [s[i]] *)
Definition index (h : heap) (s : slice) (i : Z) : result Process :=
  if bool_decide (0 <= i < Z.of_nat (s_len s))
  then Ok (default zeroProcess (backing h s !! (s_off s + Z.to_nat i)%nat))
  else Panic IndexOutOfRange.

(** [s[:j]] *)
Definition slice_to (s : slice) (j : Z) : result slice :=
  if bool_decide (0 <= j <= Z.of_nat (s_cap s))
  then Ok (mkSlice (s_arr s) (s_off s) (Z.to_nat j) (s_cap s))
  else Panic SliceBoundsOutOfRange.

(** [s[i:]] *)
Definition slice_from (s : slice) (i : Z) : result slice :=
  if bool_decide (0 <= i <= Z.of_nat (s_len s))
  then Ok (mkSlice (s_arr s) (s_off s + Z.to_nat i)
                   (s_len s - Z.to_nat i) (s_cap s - Z.to_nat i))
  else Panic SliceBoundsOutOfRange.

(** Capacity of the array [append] allocates when the old one is full: the
    runtime doubles small arrays. *)
Definition growcap (old needed : nat) : nat := Nat.max needed (2 * old).

(** [append(s, vs...)]: in place when the capacity allows, else into a new
    array. *)
Definition append_list (h : heap) (s : slice) (vs : list Process) : heap * slice :=
  let n := (s_len s + length vs)%nat in
  if decide (n <= s_cap s)%nat
  then (<[s_arr s := blit (s_off s + s_len s) vs (backing h s)]> h,
        mkSlice (s_arr s) (s_off s) n (s_cap s))
  else let c := growcap (s_cap s) n in
       (h ++ [elems h s ++ vs ++ replicate (c - n) zeroProcess],
        mkSlice (length h) 0 n c).

(** [append(s, p)] *)
Definition append (h : heap) (s : slice) (p : Process) : heap * slice :=
  append_list h s [p].

(** [append(s, t...)]: the elements of [t] are read, then written. *)
Definition append_slice (h : heap) (s t : slice) : heap * slice :=
  append_list h s (elems h t).

(** [func (pq *ProcessQueue) AddProcess(p Process)], and the same method of
    [ProcessQueueArrivalOrder]; the queue is its [processes] field. *)
Definition AddProcess (h : heap) (pq : slice) (p : Process) : heap * slice :=
  append h pq p.

(** [func (pq *ProcessQueue) RemoveProcess(index int)] *)
Definition RemoveProcess (h : heap) (pq : slice) (index : Z) : result (heap * slice) :=
  l ← slice_to pq index;
  r ← slice_from pq (index + 1);
  Ok (append_slice h l r).

(** ** Ordering policies

    The three closures handed to [sort.Slice], as functions of the two
    elements they read. *)

Definition lessArrival (a b : Process) : bool :=
  (ArrivalTime a <? ArrivalTime b)
  || ((ArrivalTime a =? ArrivalTime b) && (BurstDuration a <? BurstDuration b)).

Definition lessDeploy (a b : Process) : bool :=
  (RemainingTime a <? RemainingTime b)
  || ((RemainingTime a =? RemainingTime b) && (ArrivalTime a <? ArrivalTime b)).

Definition lessPriority (a b : Process) : bool :=
  (Priority a <? Priority b)
  || ((Priority a =? Priority b) && (BurstDuration a <? BurstDuration b))
  || ((Priority a =? Priority b) && (BurstDuration a =? BurstDuration b)
      && (ArrivalTime a <? ArrivalTime b)).

(** [sort.Slice] permutes the slice in place.  On a short slice (six
    elements or fewer in every release of Go) it is an insertion sort:
    element [i] is swapped towards the front while it is [less] than its
    predecessor.  [sink] does this for one element; the part already sorted
    is kept reversed, nearest predecessor first.  On longer slices Go
    promises only some arrangement sorted by [less]; the embedding keeps the
    insertion sort there, and the general theorems use of it only that it
    permutes the slice. *)
Fixpoint sink (less : Process -> Process -> bool) (x : Process)
    (before : list Process) : list Process :=
  match before with
  | [] => [x]
  | y :: r => if less x y then y :: sink less x r else x :: y :: r
  end.

Definition insertion_sort (less : Process -> Process -> bool)
    (l : list Process) : list Process :=
  rev (fold_left (fun before x => sink less x before) l []).

Definition sort_Slice (less : Process -> Process -> bool) (h : heap) (s : slice) : heap :=
  <[s_arr s := blit (s_off s) (insertion_sort less (elems h s)) (backing h s)]> h.

Definition sortArrivalQueue : heap -> slice -> heap := sort_Slice lessArrival.
Definition sortDeployQueue : heap -> slice -> heap := sort_Slice lessDeploy.
Definition sortPriorityQueue : heap -> slice -> heap := sort_Slice lessPriority.

Definition minimum (x y : Z) : Z := if x <? y then x else y.

(** ** Loops *)

(** [for i := range s { body }] over the indices [ix], threading the
    variables the body assigns. *)
Fixpoint for_range {S : Type} (body : S -> nat -> result S) (ix : list nat)
    (s : S) : result S :=
  match ix with
  | [] => Ok s
  | i :: ix' => s' ← body s i; for_range body ix' s'
  end.

(** [for cond { body }] *)
Fixpoint for_while {S : Type} (cond : S -> bool) (body : S -> result S)
    (fuel : nat) (s : S) : result S :=
  match fuel with
  | O => OutOfFuel
  | S fuel' =>
      if cond s then s' ← body s; for_while cond body fuel' s' else Ok s
  end.

(** ** First-come, first-serve *)

Record fcfs_vars : Type := mkFcfs {
  f_serviceTime : Z;
  f_totalWait : float64;
  f_totalTurnaround : float64;
  f_lastCompletion : float64;
  f_waitingTime : Z;
  f_schedule : table;
  f_gantt : list TimeSlice
}.

Definition FCFS_body (h : heap) (processes : slice) (v : fcfs_vars) (i : nat) :
    result fcfs_vars :=
  p ← index h processes (Z.of_nat i);
  let waitingTime :=
    if 0 <? ArrivalTime p then sub64 (f_serviceTime v) (ArrivalTime p)
    else f_waitingTime v in
  let totalWait := f64_add (f_totalWait v) (f64_of_int waitingTime) in
  let start := add64 waitingTime (ArrivalTime p) in
  let turnaround := add64 (BurstDuration p) waitingTime in
  let totalTurnaround := f64_add (f_totalTurnaround v) (f64_of_int turnaround) in
  let completion := add64 (add64 (BurstDuration p) (ArrivalTime p)) waitingTime in
  let lastCompletion := f64_of_int completion in
  schedule ← store_row (f_schedule v) (Z.of_nat i)
               (mkRow (ProcessID p) (Priority p) (BurstDuration p) (ArrivalTime p)
                      waitingTime turnaround completion);
  let serviceTime := add64 (f_serviceTime v) (BurstDuration p) in
  Ok (mkFcfs serviceTime totalWait totalTurnaround lastCompletion waitingTime
             schedule
             (f_gantt v ++ [mkTimeSlice (ProcessID p) start serviceTime])).

Definition FCFS_init (n : nat) : fcfs_vars :=
  mkFcfs 0 f64_zero f64_zero f64_zero 0 (make_table n) [].

Definition FCFSSchedule (title : string) (h : heap) (processes : slice) :
    result (heap * list output) :=
  v ← for_range (FCFS_body h processes) (seq 0 (s_len processes))
        (FCFS_init (s_len processes));
  let count := f64_of_int (Z.of_nat (s_len processes)) in
  let aveWait := f64_div (f_totalWait v) count in
  let aveTurnaround := f64_div (f_totalTurnaround v) count in
  let aveThroughput := f64_div count (f_lastCompletion v) in
  Ok (h, [outputTitle title; outputGantt (f_gantt v);
          outputSchedule (f_schedule v) aveWait aveTurnaround aveThroughput]).

(** ** The preemptive schedulers

    [SJFSchedule] and [SJFPrioritySchedule] are the same text up to the call
    that sorts the ready queue ([sortDeployQueue] or [sortPriorityQueue]);
    the embedding writes that text once, with the call as [sortQueue]. *)

Record sjf_vars : Type := mkSjf {
  j_heap : heap;
  j_process : Process;
  j_pq : slice;         (* pq.processes *)
  j_pqA : slice;        (* pqA.processes *)
  j_currentTime : Z;
  j_count : Z;
  j_schedule : table;
  j_totalWait : float64;
  j_totalTurnaround : float64
}.

(** [for _, process := range processes { ...; pqA.AddProcess(process) }] *)
Definition load_body (processes : slice) (v : heap * slice) (i : nat) :
    result (heap * slice) :=
  process ← index v.1 processes (Z.of_nat i);
  let process := set_RemainingTime process (BurstDuration process) in
  Ok (AddProcess v.1 v.2 process).

Definition row_of (process : Process) : Row :=
  mkRow (ProcessID process) (Priority process) (BurstDuration process)
        (ArrivalTime process) (WaitTime process) (TurnAroundTime process)
        (CompleteTime process).

(** The three assignments to the fields of the process that has no time
    left. *)
Definition finish (process : Process) (currentTime : Z) : Process :=
  let process := set_CompleteTime process currentTime in
  let process :=
    set_TurnAroundTime process (sub64 (CompleteTime process) (ArrivalTime process)) in
  set_WaitTime process (sub64 (TurnAroundTime process) (BurstDuration process)).

(** The branch taken when the running process has no time left. *)
Definition complete (v : sjf_vars) (process : Process) (currentTime : Z) :
    result sjf_vars :=
  let process := finish process currentTime in
  let totalWait := f64_add (j_totalWait v) (f64_of_int (WaitTime process)) in
  let totalTurnaround :=
    f64_add (j_totalTurnaround v) (f64_of_int (TurnAroundTime process)) in
  schedule ← store_row (j_schedule v) (j_count v) (row_of process);
  let count := add64 (j_count v) 1 in
  '(h, pq) ← RemoveProcess (j_heap v) (j_pq v) 0;
  Ok (mkSjf h process pq (j_pqA v) currentTime count schedule totalWait
            totalTurnaround).

(** The body of [if p.ArrivalTime == currentTime { ...; break }]. *)
Definition arrive (sortQueue : heap -> slice -> heap) (v : sjf_vars)
    (process : Process) (currentTime : Z) (i : nat) (p : Process) : result sjf_vars :=
  '(h, pq) ← RemoveProcess (j_heap v) (j_pq v) 0;
  let '(h, pq) := AddProcess h pq p in
  let '(h, pq) := AddProcess h pq process in
  '(h, pqA) ← RemoveProcess h (j_pqA v) (Z.of_nat i);
  let h := sortQueue h pq in
  process ← index h pq 0;
  Ok (mkSjf h process pq pqA currentTime (j_count v) (j_schedule v)
            (j_totalWait v) (j_totalTurnaround v)).

(** [for i, p := range pqA.processes { if ... { ...; break } }] *)
Fixpoint arrival_scan (sortQueue : heap -> slice -> heap) (v : sjf_vars)
    (process : Process) (currentTime : Z) (ix : list nat) : result sjf_vars :=
  match ix with
  | [] => Ok (mkSjf (j_heap v) process (j_pq v) (j_pqA v) currentTime (j_count v)
                    (j_schedule v) (j_totalWait v) (j_totalTurnaround v))
  | i :: ix' =>
      p ← index (j_heap v) (j_pqA v) (Z.of_nat i);
      if ArrivalTime p =? currentTime
      then arrive sortQueue v process currentTime i p
      else arrival_scan sortQueue v process currentTime ix'
  end.

(** [process.RemainingTime -= 1], on the head of the ready queue when the
    last process ran out. *)
Definition decrement (v : sjf_vars) : result Process :=
  if RemainingTime (j_process v) =? 0
  then process ← index (j_heap v) (j_pq v) 0;
       Ok (set_RemainingTime process (sub64 (RemainingTime process) 1))
  else Ok (set_RemainingTime (j_process v) (sub64 (RemainingTime (j_process v)) 1)).

(** One iteration of [for len(pq.processes) > 0]. *)
Definition tick (sortQueue : heap -> slice -> heap) (v : sjf_vars) : result sjf_vars :=
  process ← decrement v;
  let currentTime := add64 (j_currentTime v) 1 in
  if RemainingTime process =? 0
  then complete v process currentTime
  else arrival_scan sortQueue v process currentTime (seq 0 (s_len (j_pqA v))).

Definition running (v : sjf_vars) : bool := bool_decide (0 < s_len (j_pq v))%nat.

(** The statements before the loop. *)
Definition preemptive_init (h : heap) (processes : slice) : result sjf_vars :=
  '(h, pqA) ← for_range (load_body processes) (seq 0 (s_len processes))
                (h, nil_slice);
  let h := sortArrivalQueue h pqA in
  process ← index h pqA 0;
  '(h, pqA) ← RemoveProcess h pqA 0;
  let '(h, pq) := AddProcess h nil_slice process in
  Ok (mkSjf h process pq pqA 0 0 (make_table (s_len processes)) f64_zero f64_zero).

Definition preemptive_schedule (sortQueue : heap -> slice -> heap) (fuel : nat)
    (title : string) (h : heap) (processes : slice) : result (heap * list output) :=
  v ← preemptive_init h processes;
  v ← for_while running (tick sortQueue) fuel v;
  let total := f64_of_int (Z.of_nat (s_len processes)) in
  let aveWait := f64_div (j_totalWait v) total in
  let aveTurnaround := f64_div (j_totalTurnaround v) total in
  let aveThroughput := f64_div total (f64_of_int (CompleteTime (j_process v))) in
  Ok (j_heap v, [outputTitle title;
                 outputSchedule (j_schedule v) aveWait aveTurnaround aveThroughput]).

Definition SJFSchedule : nat -> string -> heap -> slice -> result (heap * list output) :=
  preemptive_schedule sortDeployQueue.

Definition SJFPrioritySchedule : nat -> string -> heap -> slice -> result (heap * list output) :=
  preemptive_schedule sortPriorityQueue.

(** ** Round-robin *)

Record rr_vars : Type := mkRR {
  q_heap : heap;
  q_processes : slice;
  q_queue : slice;
  q_serviceTime : Z;
  q_totalTurnaround : float64;
  q_wait : float64;
  q_lastCompletion : float64;
  q_schedule : table;
  q_gantt : list TimeSlice
}.

Definition quantum_time : Z := 2.

(** [for len(processes) > 0 && processes[0].ArrivalTime <= serviceTime
    { queue = append(queue, processes[0]); processes = processes[1:] }];
    every round shortens [processes], so [n = len(processes)] rounds are
    all there can be. *)
Fixpoint enqueue_arrived (n : nat) (serviceTime : Z) (h : heap)
    (processes queue : slice) : result (heap * slice * slice) :=
  match n with
  | O => Ok (h, processes, queue)
  | S n' =>
      if bool_decide (0 < s_len processes)%nat
      then p ← index h processes 0;
           if ArrivalTime p <=? serviceTime
           then let '(h, queue) := append h queue p in
                processes ← slice_from processes 1;
                enqueue_arrived n' serviceTime h processes queue
           else Ok (h, processes, queue)
      else Ok (h, processes, queue)
  end.

(** The branch [if len(queue) > 0]. *)
Definition run_slice (v : rr_vars) (h : heap) (processes queue : slice) :
    result rr_vars :=
  p ← index h queue 0;
  queue ← slice_from queue 1;
  let waitingTime := sub64 (q_serviceTime v) (ArrivalTime p) in
  let waitingTime := if waitingTime <? 0 then 0 else waitingTime in
  let wait := f64_add (q_wait v) (f64_of_int waitingTime) in
  let duration := minimum (BurstDuration p) quantum_time in
  let serviceTime := add64 (q_serviceTime v) duration in
  let completionTime := serviceTime in
  let '(h, queue, totalTurnaround, lastCompletion) :=
    if duration =? BurstDuration p
    then (h, queue,
          f64_add (q_totalTurnaround v)
                  (f64_of_int (sub64 serviceTime (ArrivalTime p))),
          f64_of_int serviceTime)
    else let '(h, queue) :=
           append h queue
             (mkProcess (ProcessID p) serviceTime
                        (sub64 (BurstDuration p) duration) (Priority p) 0 0 0 0) in
         (h, queue, q_totalTurnaround v, f64_of_int (sub64 serviceTime duration)) in
  schedule ← store_row (q_schedule v) (sub64 (ProcessID p) 1)
               (mkRow (ProcessID p) (Priority p) (BurstDuration p) (ArrivalTime p)
                      waitingTime (sub64 serviceTime (ArrivalTime p)) completionTime);
  Ok (mkRR h processes queue serviceTime totalTurnaround wait lastCompletion
           schedule
           (q_gantt v ++ [mkTimeSlice (ProcessID p) (sub64 serviceTime duration)
                                      serviceTime])).

(** One iteration of [for len(queue) > 0 || len(processes) > 0]. *)
Definition RR_body (v : rr_vars) : result rr_vars :=
  '(h, processes, queue) ←
     enqueue_arrived (s_len (q_processes v)) (q_serviceTime v) (q_heap v)
                     (q_processes v) (q_queue v);
  if bool_decide (0 < s_len queue)%nat
  then run_slice v h processes queue
  else p ← index h processes 0;
       Ok (mkRR h processes queue (ArrivalTime p) (q_totalTurnaround v) (q_wait v)
                (q_lastCompletion v) (q_schedule v) (q_gantt v)).

Definition RR_cond (v : rr_vars) : bool :=
  bool_decide (0 < s_len (q_queue v))%nat
  || bool_decide (0 < s_len (q_processes v))%nat.

Definition RR_init (h : heap) (processes : slice) : rr_vars :=
  mkRR h processes nil_slice 0 f64_zero f64_zero f64_zero
       (make_table (s_len processes)) [].

Definition RRSchedule (fuel : nat) (title : string) (h : heap) (processes : slice) :
    result (heap * list output) :=
  v ← for_while RR_cond RR_body fuel (RR_init h processes);
  let count := f64_of_int (Z.of_nat (length (q_schedule v))) in
  let aveTurnaround := f64_div (q_totalTurnaround v) count in
  let aveWait := f64_div (q_wait v) count in
  let aveThroughput := f64_div count (q_lastCompletion v) in
  Ok (q_heap v, [outputTitle title; outputGantt (q_gantt v);
                 outputSchedule (q_schedule v) aveWait aveTurnaround aveThroughput]).

(** ** Inputs

    [loadProcesses] makes one array of exactly as many processes as there
    are rows; [slice_of] is the slice over such an array once it sits in the
    heap, and [load] the heap that holds nothing else. *)
Definition slice_of (a : nat) (ps : list Process) : slice :=
  mkSlice a 0 (length ps) (length ps).
Definition load (ps : list Process) : heap := [ps].

(** A process as [loadProcesses] fills it. *)
Definition proc (id arrival burst priority : Z) : Process :=
  mkProcess id arrival burst priority 0 0 0 0.


(** * Predicates, list forms and invariants *)

(** ** Well-formed slices

    A slice is well formed in a heap when its capacity fits its backing
    array.  Two slices are apart when a write through one cannot show in
    the other. *)

Definition wf (h : heap) (s : slice) : Prop :=
  (s_len s <= s_cap s)%nat /\ (s_off s + s_cap s <= length (backing h s))%nat.

Definition apart (s t : slice) : Prop :=
  s_cap s = 0%nat \/ s_cap t = 0%nat \/ s_arr s <> s_arr t.

(** A slice made by the call itself: its array, if it has one, is not among
    the first [n] arrays of the heap. *)
Definition owned (n : nat) (s : slice) : Prop :=
  (s_len s <= s_cap s)%nat /\ (s_cap s = 0%nat \/ (n <= s_arr s)%nat).

(** [modifies s h h']: going from [h] to [h'], no array changed its size and
    none changed its content but the array of [s]; arrays may have been
    added. *)
Definition modifies (s : slice) (h h' : heap) : Prop :=
  (length h <= length h')%nat
  /\ (forall a, (a < length h)%nat -> s_cap s = 0%nat \/ a <> s_arr s ->
                h' !! a = h !! a)
  /\ (forall a, (a < length h)%nat ->
                length (default [] (h' !! a)) = length (default [] (h !! a))).

(** ** The schedulers on lists

    The loops again, with every slice replaced by the list of its elements.
    The theorems of refinement below show that the schedulers above compute
    exactly this; the properties of the loops are then proved on lists. *)

Definition head_l (l : list Process) : result Process :=
  match l with
  | p :: _ => Ok p
  | [] => Panic IndexOutOfRange
  end.

Definition tail_l (l : list Process) : result (list Process) :=
  match l with
  | _ :: l' => Ok l'
  | [] => Panic SliceBoundsOutOfRange
  end.

Record sjf_view : Type := mkView {
  w_process : Process;
  w_pq : list Process;
  w_pqA : list Process;
  w_currentTime : Z;
  w_count : Z;
  w_schedule : table;
  w_totalWait : float64;
  w_totalTurnaround : float64
}.

Definition view (v : sjf_vars) : sjf_view :=
  mkView (j_process v) (elems (j_heap v) (j_pq v)) (elems (j_heap v) (j_pqA v))
         (j_currentTime v) (j_count v) (j_schedule v) (j_totalWait v)
         (j_totalTurnaround v).

Definition decrement_l (w : sjf_view) : result Process :=
  if RemainingTime (w_process w) =? 0
  then process ← head_l (w_pq w);
       Ok (set_RemainingTime process (sub64 (RemainingTime process) 1))
  else Ok (set_RemainingTime (w_process w) (sub64 (RemainingTime (w_process w)) 1)).

Definition complete_l (w : sjf_view) (process : Process) (currentTime : Z) :
    result sjf_view :=
  let process := finish process currentTime in
  schedule ← store_row (w_schedule w) (w_count w) (row_of process);
  pq ← tail_l (w_pq w);
  Ok (mkView process pq (w_pqA w) currentTime (add64 (w_count w) 1) schedule
             (f64_add (w_totalWait w) (f64_of_int (WaitTime process)))
             (f64_add (w_totalTurnaround w) (f64_of_int (TurnAroundTime process)))).

Definition arrive_l (less : Process -> Process -> bool) (w : sjf_view)
    (process : Process) (currentTime : Z) (i : nat) (p : Process) : result sjf_view :=
  pq ← tail_l (w_pq w);
  let pq := insertion_sort less (pq ++ [p; process]) in
  process ← head_l pq;
  Ok (mkView process pq (delete i (w_pqA w)) currentTime (w_count w)
             (w_schedule w) (w_totalWait w) (w_totalTurnaround w)).

(** The first pending process that arrives at [currentTime], with its
    index; [i] counts the processes already passed. *)
Fixpoint arrival_l (currentTime : Z) (i : nat) (pqA : list Process) :
    option (nat * Process) :=
  match pqA with
  | [] => None
  | p :: rest =>
      if ArrivalTime p =? currentTime then Some (i, p)
      else arrival_l currentTime (S i) rest
  end.

Definition tick_l (less : Process -> Process -> bool) (w : sjf_view) :
    result sjf_view :=
  process ← decrement_l w;
  let currentTime := add64 (w_currentTime w) 1 in
  if RemainingTime process =? 0
  then complete_l w process currentTime
  else match arrival_l currentTime 0 (w_pqA w) with
       | Some (i, p) => arrive_l less w process currentTime i p
       | None => Ok (mkView process (w_pq w) (w_pqA w) currentTime (w_count w)
                            (w_schedule w) (w_totalWait w) (w_totalTurnaround w))
       end.

Definition running_l (w : sjf_view) : bool := bool_decide (0 < length (w_pq w))%nat.

Definition loaded (ps : list Process) : list Process :=
  map (fun process => set_RemainingTime process (BurstDuration process)) ps.

Definition init_l (ps : list Process) : result sjf_view :=
  match insertion_sort lessArrival (loaded ps) with
  | [] => Panic IndexOutOfRange
  | process :: pqA =>
      Ok (mkView process [process] pqA 0 0 (make_table (length ps)) f64_zero f64_zero)
  end.

Definition report_l (title : string) (n : nat) (w : sjf_view) : list output :=
  let total := f64_of_int (Z.of_nat n) in
  [outputTitle title;
   outputSchedule (w_schedule w) (f64_div (w_totalWait w) total)
                  (f64_div (w_totalTurnaround w) total)
                  (f64_div total (f64_of_int (CompleteTime (w_process w))))].

Definition preemptive_l (less : Process -> Process -> bool) (fuel : nat)
    (title : string) (ps : list Process) : result (list output) :=
  w ← init_l ps;
  w ← for_while running_l (tick_l less) fuel w;
  Ok (report_l title (length ps) w).

(** [refines R c a]: the two computations end the same way, with results
    related by [R]. *)
Definition refines {C A : Type} (R : C -> A -> Prop) (c : result C) (a : result A) :
    Prop :=
  match c, a with
  | Ok x, Ok y => R x y
  | Panic e, Panic e' => e = e'
  | OutOfFuel, OutOfFuel => True
  | _, _ => False
  end.

(** [kept h0 h]: the arrays of [h0] are in [h] as they were. *)
Definition kept (h0 h : heap) : Prop :=
  (length h0 <= length h)%nat /\ take (length h0) h = h0.

(** [good h0 h s t]: [s] is a well-formed slice of an array made since [h0],
    and [t] a well-formed slice that writes through [s] do not reach. *)
Definition good (h0 h : heap) (s t : slice) : Prop :=
  kept h0 h /\ wf h s /\ owned (length h0) s /\ wf h t /\ apart s t.

(** The invariant of the preemptive loop on the heap: both queues are slices
    of arrays of their own, made since [h0]. *)
Definition sjf_inv (h0 : heap) (v : sjf_vars) : Prop :=
  good h0 (j_heap v) (j_pq v) (j_pqA v) /\ owned (length h0) (j_pqA v).

Definition sjf_rel (h0 : heap) (v : sjf_vars) (w : sjf_view) : Prop :=
  sjf_inv h0 v /\ view v = w.

(** Round-robin on lists. *)

Record rr_view : Type := mkRRView {
  y_processes : list Process;
  y_queue : list Process;
  y_serviceTime : Z;
  y_totalTurnaround : float64;
  y_wait : float64;
  y_lastCompletion : float64;
  y_schedule : table;
  y_gantt : list TimeSlice
}.

Definition rr_view_of (v : rr_vars) : rr_view :=
  mkRRView (elems (q_heap v) (q_processes v)) (elems (q_heap v) (q_queue v))
           (q_serviceTime v) (q_totalTurnaround v) (q_wait v) (q_lastCompletion v)
           (q_schedule v) (q_gantt v).

Fixpoint enqueue_arrived_l (serviceTime : Z) (processes queue : list Process) :
    list Process * list Process :=
  match processes with
  | [] => ([], queue)
  | p :: rest =>
      if ArrivalTime p <=? serviceTime
      then enqueue_arrived_l serviceTime rest (queue ++ [p])
      else (processes, queue)
  end.

(** What is left of [p] after a slice that ends at [serviceTime]. *)
Definition residual (p : Process) (serviceTime duration : Z) : Process :=
  mkProcess (ProcessID p) serviceTime (sub64 (BurstDuration p) duration)
            (Priority p) 0 0 0 0.

Definition run_slice_l (w : rr_view) (processes queue : list Process) :
    result rr_view :=
  match queue with
  | [] => Panic IndexOutOfRange
  | p :: queue =>
      let waitingTime := sub64 (y_serviceTime w) (ArrivalTime p) in
      let waitingTime := if waitingTime <? 0 then 0 else waitingTime in
      let duration := minimum (BurstDuration p) quantum_time in
      let serviceTime := add64 (y_serviceTime w) duration in
      let finished := duration =? BurstDuration p in
      schedule ← store_row (y_schedule w) (sub64 (ProcessID p) 1)
                   (mkRow (ProcessID p) (Priority p) (BurstDuration p) (ArrivalTime p)
                          waitingTime (sub64 serviceTime (ArrivalTime p)) serviceTime);
      Ok (mkRRView processes
            (if finished then queue else queue ++ [residual p serviceTime duration])
            serviceTime
            (if finished
             then f64_add (y_totalTurnaround w)
                          (f64_of_int (sub64 serviceTime (ArrivalTime p)))
             else y_totalTurnaround w)
            (f64_add (y_wait w) (f64_of_int waitingTime))
            (if finished then f64_of_int serviceTime
             else f64_of_int (sub64 serviceTime duration))
            schedule
            (y_gantt w ++ [mkTimeSlice (ProcessID p) (sub64 serviceTime duration)
                                       serviceTime]))
  end.

Definition RR_body_l (w : rr_view) : result rr_view :=
  let '(processes, queue) :=
    enqueue_arrived_l (y_serviceTime w) (y_processes w) (y_queue w) in
  if bool_decide (0 < length queue)%nat
  then run_slice_l w processes queue
  else p ← head_l processes;
       Ok (mkRRView processes queue (ArrivalTime p) (y_totalTurnaround w) (y_wait w)
                    (y_lastCompletion w) (y_schedule w) (y_gantt w)).

Definition RR_cond_l (w : rr_view) : bool :=
  bool_decide (0 < length (y_queue w))%nat
  || bool_decide (0 < length (y_processes w))%nat.

Definition RR_init_l (ps : list Process) : rr_view :=
  mkRRView ps [] 0 f64_zero f64_zero f64_zero (make_table (length ps)) [].

Definition RR_report_l (title : string) (w : rr_view) : list output :=
  let count := f64_of_int (Z.of_nat (length (y_schedule w))) in
  [outputTitle title; outputGantt (y_gantt w);
   outputSchedule (y_schedule w) (f64_div (y_wait w) count)
                  (f64_div (y_totalTurnaround w) count)
                  (f64_div count (y_lastCompletion w))].

Definition RR_l (fuel : nat) (title : string) (ps : list Process) :
    result (list output) :=
  w ← for_while RR_cond_l RR_body_l fuel (RR_init_l ps);
  Ok (RR_report_l title w).

Definition rr_inv (h0 : heap) (v : rr_vars) : Prop :=
  good h0 (q_heap v) (q_queue v) (q_processes v).

Definition rr_rel (h0 : heap) (v : rr_vars) (w : rr_view) : Prop :=
  rr_inv h0 v /\ rr_view_of v = w.

(** ** First-come, first-serve as the specification words it

    Section 4.2, for each process in input order: the wait is updated to
    [serviceTime - arrivalTime] only when [arrivalTime > 0], otherwise the
    wait of the previous iteration is reused; [start = wait + arrivalTime];
    [turnaround = burstDuration + wait]; [completion = arrivalTime +
    burstDuration + wait]; the service clock accumulates [burstDuration]
    after each process; the timeline gets one interval [start, clock] and
    the table one record per process. *)
Fixpoint FCFS_spec (wait serviceTime : Z) (ps : list Process) :
    list (Row * TimeSlice) :=
  match ps with
  | [] => []
  | p :: rest =>
      let wait :=
        if 0 <? ArrivalTime p then sub64 serviceTime (ArrivalTime p) else wait in
      let start := add64 wait (ArrivalTime p) in
      let turnaround := add64 (BurstDuration p) wait in
      let completion := add64 (add64 (ArrivalTime p) (BurstDuration p)) wait in
      let serviceTime := add64 serviceTime (BurstDuration p) in
      (mkRow (ProcessID p) (Priority p) (BurstDuration p) (ArrivalTime p)
             wait turnaround completion,
       mkTimeSlice (ProcessID p) start serviceTime)
      :: FCFS_spec wait serviceTime rest
  end.

(** The running sum of a [float64] total over the integers added to it. *)
Definition fsum (total : float64) (zs : list Z) : float64 :=
  fold_left (fun a z => f64_add a (f64_of_int z)) zs total.

(** Section 4.6: the averages are the totals over the number of processes;
    the throughput is that number over the completion time of the last
    process. *)
Definition FCFS_report (title : string) (ps : list Process) : list output :=
  let rows := map fst (FCFS_spec 0 0 ps) in
  let count := f64_of_int (Z.of_nat (length ps)) in
  [outputTitle title;
   outputGantt (map snd (FCFS_spec 0 0 ps));
   outputSchedule (map Some rows)
     (f64_div (fsum f64_zero (map r_wait rows)) count)
     (f64_div (fsum f64_zero (map r_turnaround rows)) count)
     (f64_div count
        (fold_left (fun _ r => f64_of_int (r_completion r)) rows f64_zero))].

(** [n] iterations of the preemptive loop, whatever the ready queue holds:
    every state the loop goes through is one of these. *)
Fixpoint ticks (sortQueue : heap -> slice -> heap) (n : nat) (v : sjf_vars) :
    result sjf_vars :=
  match n with
  | O => Ok v
  | S n' => v' ← tick sortQueue v; ticks sortQueue n' v'
  end.

Fixpoint ticks_l (less : Process -> Process -> bool) (n : nat) (w : sjf_view) :
    result sjf_view :=
  match n with
  | O => Ok w
  | S n' => w' ← tick_l less w; ticks_l less n' w'
  end.

(** The processes waiting to arrive, and those ready to run. *)
Definition pending (v : sjf_vars) : list Process := elems (j_heap v) (j_pqA v).
Definition ready (v : sjf_vars) : list Process := elems (j_heap v) (j_pq v).

(** ** Invariants of round-robin *)

(** The ids index a schedule table of [n] rows. *)
Definition ids_in_range (n : nat) (ps : list Process) : Prop :=
  Forall (fun p => 1 <= ProcessID p <= Z.of_nat n) ps.

Definition rr_ok (w : rr_view) : Prop :=
  ids_in_range (length (y_schedule w)) (y_processes w)
  /\ ids_in_range (length (y_schedule w)) (y_queue w)
  /\ Z.of_nat (length (y_schedule w)) < 2 ^ 63.

(** Every row of the table sits at the index its id names. *)
Definition indexed_by_id (rows : list (option Row)) : Prop :=
  forall (i : nat) r, rows !! i = Some (Some r) -> Z.of_nat i = r_id r - 1.

(** The slices a process still needs: one per started quantum. *)
Definition slices_left (p : Process) : nat :=
  Z.to_nat (Z.max 1 ((BurstDuration p + 1) / 2)).

Definition work_left (ps : list Process) : nat := sum_list_with slices_left ps.

(** The round that only moves the clock to the next arrival is due. *)
Definition idle (w : rr_view) : nat :=
  match y_queue w, y_processes w with
  | [], p :: _ => if y_serviceTime w <? ArrivalTime p then 1 else 0
  | _, _ => 0
  end.

Definition rr_measure (w : rr_view) : nat :=
  (2 * (work_left (y_queue w) + work_left (y_processes w)) + idle w)%nat.

Definition bursts_bounded (ps : list Process) : Prop :=
  Forall (fun p => BurstDuration p < 2 ^ 63) ps.

Definition rr_total (w : rr_view) : Prop :=
  rr_ok w /\ bursts_bounded (y_processes w) /\ bursts_bounded (y_queue w).

(** ** Invariants of the preemptive loop *)

(** A queued process has between one tick and [2^63 - 1] ticks left. *)
Definition rem_ok (p : Process) : Prop := 1 <= RemainingTime p < 2 ^ 63.

(** The ticks the processes of a list still need. *)
Definition remaining (l : list Process) : Z :=
  foldr (fun p a => RemainingTime p + a) 0 l.

(** The head of the ready queue is the stale copy of the running process
    while that one has time left; everything else queued is up to date.
    The processes completed, ready and pending make up the table. *)
Definition sjf_ok (w : sjf_view) : Prop :=
  0 <= RemainingTime (w_process w) < 2 ^ 63
  /\ Forall rem_ok (w_pqA w)
  /\ Forall rem_ok (tail (w_pq w))
  /\ (RemainingTime (w_process w) = 0 -> Forall rem_ok (w_pq w))
  /\ (RemainingTime (w_process w) <> 0 -> w_pq w <> [])
  /\ 0 <= w_count w
  /\ w_count w + Z.of_nat (length (w_pq w) + length (w_pqA w))
     = Z.of_nat (length (w_schedule w))
  /\ Z.of_nat (length (w_schedule w)) < 2 ^ 63.

(** The ticks left to run, counting the pending processes as if they were
    all to arrive. *)
Definition sjf_measure (w : sjf_view) : nat :=
  Z.to_nat ((if RemainingTime (w_process w) =? 0 then remaining (w_pq w)
             else RemainingTime (w_process w) + remaining (tail (w_pq w)))
            + remaining (w_pqA w)).

(** The input the specification calls valid for the preemptive schedulers:
    at least one process, every burst positive (and an [int64]). *)
Definition bursts_positive (ps : list Process) : Prop :=
  Forall (fun p => 1 <= BurstDuration p < 2 ^ 63) ps.

Definition total_burst (ps : list Process) : Z :=
  foldr (fun p a => BurstDuration p + a) 0 ps.

(** ** Rows of the schedule table *)

(** The two identities of the specification, in [int64] arithmetic. *)
Definition row_consistent (r : Row) : Prop :=
  r_turnaround r = sub64 (r_completion r) (r_arrival r)
  /\ r_wait r = sub64 (r_turnaround r) (r_burst r).

(** The row shows the id, priority, burst and arrival of the process. *)
Definition describes (p : Process) (r : Row) : Prop :=
  r_id r = ProcessID p /\ r_priority r = Priority p
  /\ r_burst r = BurstDuration p /\ r_arrival r = ArrivalTime p.

(** Every row written is the row of a process of the input and satisfies
    the identities on that process's arrival and burst. *)
Definition rows_from (ps : list Process) (rows : list (option Row)) : Prop :=
  forall r, Some r ∈ rows -> row_consistent r /\ exists p, p ∈ ps /\ describes p r.

(** A working copy of a process of the input: the descriptor is the same,
    the fields the schedulers assign may differ. *)
Definition copy_of (ps : list Process) (q : Process) : Prop :=
  exists p, p ∈ ps /\ ProcessID q = ProcessID p /\ Priority q = Priority p
            /\ BurstDuration q = BurstDuration p /\ ArrivalTime q = ArrivalTime p.

Definition sjf_rows (ps : list Process) (w : sjf_view) : Prop :=
  copy_of ps (w_process w) /\ Forall (copy_of ps) (w_pq w)
  /\ Forall (copy_of ps) (w_pqA w) /\ rows_from ps (w_schedule w).

(** ** Comparators as orders on keys *)

(** The strict lexicographic orders on pairs and triples of integers. *)
Definition lex2 (a b : Z * Z) : Prop :=
  a.1 < b.1 \/ (a.1 = b.1 /\ a.2 < b.2).

Definition lex3 (a b : Z * Z * Z) : Prop :=
  a.1.1 < b.1.1
  \/ (a.1.1 = b.1.1 /\ a.1.2 < b.1.2)
  \/ (a.1.1 = b.1.1 /\ a.1.2 = b.1.2 /\ a.2 < b.2).

Definition keyArrival (p : Process) : Z * Z := (ArrivalTime p, BurstDuration p).
Definition keyDeploy (p : Process) : Z * Z := (RemainingTime p, ArrivalTime p).
Definition keyPriority (p : Process) : Z * Z * Z :=
  (Priority p, BurstDuration p, ArrivalTime p).

(** [less] is the strict order [lt] on the keys: irreflexive, transitive, and
    total on processes up to equality of their keys. *)
Definition orders_by {K : Type} (less : Process -> Process -> bool)
    (key : Process -> K) (lt : K -> K -> Prop) : Prop :=
  (forall a b, less a b = true <-> lt (key a) (key b))
  /\ (forall a, less a a = false)
  /\ (forall a b c, less a b = true -> less b c = true -> less a c = true)
  /\ (forall a b, less a b = true \/ less b a = true \/ key a = key b).

(** A strict total order on the processes themselves. *)
Definition total_order (less : Process -> Process -> bool) : Prop :=
  (forall a, less a a = false)
  /\ (forall a b c, less a b = true -> less b c = true -> less a c = true)
  /\ (forall a b, a <> b -> less a b = true \/ less b a = true).

(** ** Inputs of the examples *)

(** The four processes of the textbook trace of section 8. *)
Definition textbook : list Process :=
  [proc 1 0 8 0; proc 2 1 4 0; proc 3 2 9 0; proc 4 3 5 0].

(** One process of burst 5 that arrives at once. *)
Definition single : list Process := [proc 1 0 5 0].

(** One process that arrives when the clock has not yet reached it. *)
Definition late : list Process := [proc 1 5 3 0].

(** Process 2 arrives on the tick on which process 1 completes. *)
Definition meeting : list Process := [proc 1 0 2 0; proc 2 2 3 0].

(** Processes 2 and 3 arrive on the same tick. *)
Definition tied : list Process := [proc 1 0 5 0; proc 2 1 3 0; proc 3 1 2 0].

(** A process whose id is not an index of the table. *)
Definition stray : list Process := [proc 5 0 1 0].

(** The second process has no arrival time of its own. *)
Definition unsorted : list Process := [proc 1 5 3 0; proc 2 0 2 0].

(** * Further predicates: the queues, the sort and the timelines *)

(** ** Order of a sorted slice *)

(** No element comes before one that is [less] than it. *)
Definition in_order (less : Process -> Process -> bool) (l : list Process) : Prop :=
  forall (i j : nat) a b, (i < j)%nat -> l !! i = Some a -> l !! j = Some b ->
                          less b a = false.

(** Every element is related to all the elements after it. *)
Fixpoint pairwise (R : Process -> Process -> Prop) (l : list Process) : Prop :=
  match l with
  | [] => True
  | x :: l' => Forall (R x) l' /\ pairwise R l'
  end.

(** What the sort needs of a comparator: it never holds both ways, and an
    element that is not below [a] nor above [c] does not separate them. *)
Definition weak_order (less : Process -> Process -> bool) : Prop :=
  (forall a b, less a b = true -> less b a = false)
  /\ (forall a b c, less a c = true -> less a b = true \/ less b c = true).

(** ** The timeline of first-come, first-serve *)

(** The timeline of a processor that goes through [ps] without a pause: an
    interval starts where the one before it stopped. *)
Fixpoint back_to_back (start : Z) (ps : list Process) : list TimeSlice :=
  match ps with
  | [] => []
  | p :: rest =>
      let stop := add64 start (BurstDuration p) in
      mkTimeSlice (ProcessID p) start stop :: back_to_back stop rest
  end.

(** The arrival times on which [FCFSSchedule] computes a wait of its own for
    every process: none is negative, and only the first may be 0. *)
Definition arrivals_positive (ps : list Process) : Prop :=
  match ps with
  | [] => True
  | p :: rest => 0 <= ArrivalTime p /\ Forall (fun q => 0 < ArrivalTime q) rest
  end.

(** No sum of the run leaves [int64]. *)
Definition FCFS_bounded (ps : list Process) : Prop :=
  Forall (fun p => 0 <= BurstDuration p /\ ArrivalTime p < 2 ^ 63) ps
  /\ total_burst ps < 2 ^ 63.

(** ** The books of the preemptive loop *)

Definition zsum {A : Type} (f : A -> Z) (l : list A) : Z :=
  foldr (fun x a => f x + a) 0 l.

(** The ticks a process has been given so far. *)
Definition served (p : Process) : Z := BurstDuration p - RemainingTime p.

(** The ready processes with their times as of now.  The loop counts down
    in its variable [process]; the head of the ready queue is the copy of
    that process from the time it was queued. *)
Definition ready_now (w : sjf_view) : list Process :=
  if RemainingTime (w_process w) =? 0 then w_pq w
  else w_process w :: tail (w_pq w).

Definition ascending (l : list Z) : Prop :=
  forall (i j : nat) a b, (i < j)%nat -> l !! i = Some a -> l !! j = Some b -> a < b.

(** The rows of a table that were written, in table order. *)
Definition rows_done (rows : table) : list Row := omap id rows.

(** [sjf_books T w done]: the rows written are [done], in this order, at the
    top of the table; the clock and the ticks still to be given add up to
    [T]; the clock is the time given to the processes so far; no row
    completes after the clock, and each row later than the one before. *)
Definition sjf_books (T : Z) (w : sjf_view) (done : list Row) : Prop :=
  w_schedule w
  = map Some done ++ replicate (length (w_schedule w) - length done) None
  /\ Z.of_nat (length done) = w_count w
  /\ 0 <= w_currentTime w
  /\ w_currentTime w + remaining (ready_now w) + remaining (w_pqA w) = T
  /\ w_currentTime w = zsum r_burst done + zsum served (ready_now w)
  /\ Forall (fun q => RemainingTime q <= BurstDuration q) (ready_now w)
  /\ Forall (fun q => RemainingTime q = BurstDuration q) (w_pqA w)
  /\ Forall (fun r => r_completion r <= w_currentTime w) done
  /\ ascending (map r_completion done)
  /\ (RemainingTime (w_process w) = 0 ->
      last done = Some (row_of (w_process w))
      /\ CompleteTime (w_process w) = w_currentTime w)
  /\ w_totalWait w = fsum f64_zero (map r_wait done)
  /\ w_totalTurnaround w = fsum f64_zero (map r_turnaround done).

(** No process is given time before it arrives; then the rows written are
    those of the textbook, in plain integers. *)
Definition sjf_on_time (w : sjf_view) (done : list Row) : Prop :=
  Forall (fun q => 0 <= ArrivalTime q /\ ArrivalTime q + served q <= w_currentTime w)
         (ready_now w)
  /\ Forall (fun q => 0 <= ArrivalTime q) (w_pqA w)
  /\ Forall (fun r => 0 <= r_wait r
                      /\ r_turnaround r = r_wait r + r_burst r
                      /\ r_completion r = r_arrival r + r_turnaround r) done.


(** The ready queue is in the order of the policy, and the process that
    runs is its head, up to the ticks it was given since it was queued. *)
Definition sjf_policy (less : Process -> Process -> bool) (w : sjf_view) : Prop :=
  in_order less (w_pq w)
  /\ (RemainingTime (w_process w) <> 0 ->
      exists q, head (w_pq w) = Some q
                /\ set_RemainingTime q (RemainingTime (w_process w)) = w_process w
                /\ RemainingTime (w_process w) <= RemainingTime q).

(** The input on which the preemptive loop starts when its first process
    arrives: no arrival time is negative and some process arrives at 0. *)
Definition starts_at_zero (ps : list Process) : Prop :=
  Forall (fun p => 0 <= ArrivalTime p) ps /\ exists p, p ∈ ps /\ ArrivalTime p = 0.

(** A row as the textbook has it, in plain integers. *)
Definition row_plain (r : Row) : Prop :=
  0 <= r_wait r
  /\ r_turnaround r = r_wait r + r_burst r
  /\ r_completion r = r_arrival r + r_turnaround r.

(** ** The books of round-robin *)

(** The length of an interval of the timeline. *)
Definition dur (ts : TimeSlice) : Z := Stop ts - Start ts.

(** No interval begins before an earlier one has ended. *)
Definition non_overlapping (g : list TimeSlice) : Prop :=
  forall (i j : nat) a b, (i < j)%nat -> g !! i = Some a -> g !! j = Some b ->
                          Stop a <= Start b.

(** The time the timeline gives to the process ids, each weighted by [f],
    and the bursts of a list of processes weighted in the same way.  With
    [f] the indicator of one id these are the time that id was given and
    the burst it asked for. *)
Definition time_given (f : Z -> Z) (g : list TimeSlice) : Z :=
  zsum (fun ts => f (PID ts) * dur ts) g.

Definition burst_asked (f : Z -> Z) (ps : list Process) : Z :=
  zsum (fun p => f (ProcessID p) * BurstDuration p) ps.

(** The interval is a slice of one or two ticks, given to a process of the
    input that has arrived. *)
Definition slice_ok (input : list Process) (ts : TimeSlice) : Prop :=
  1 <= dur ts <= quantum_time /\ 0 <= Start ts
  /\ exists p, p ∈ input /\ ProcessID p = PID ts /\ ArrivalTime p <= Start ts.

(** [rr_books input A w]: what the timeline has given and what the queues
    still ask for add up to the bursts of the input, for every weight; the
    queued processes have arrived, and the clock is not behind any
    interval. *)
Definition rr_books (input : list Process) (A : Z) (w : rr_view) : Prop :=
  0 <= y_serviceTime w <= A + time_given (fun _ => 1) (y_gantt w)
  /\ (forall f, time_given f (y_gantt w)
                + burst_asked f (y_queue w ++ y_processes w)
                = burst_asked f input)
  /\ Forall (fun p => 1 <= BurstDuration p) (y_queue w ++ y_processes w)
  /\ Forall (fun p => p ∈ input /\ 0 <= ArrivalTime p <= A) (y_processes w)
  /\ Forall (fun q => (exists p, p ∈ input /\ ProcessID p = ProcessID q
                                 /\ ArrivalTime p <= ArrivalTime q)
                      /\ 0 <= ArrivalTime q <= y_serviceTime w) (y_queue w)
  /\ Forall (fun ts => slice_ok input ts /\ Stop ts <= y_serviceTime w) (y_gantt w)
  /\ non_overlapping (y_gantt w).

(** The slices the timeline gives to one id. *)
Definition slices_of (id : Z) (g : list TimeSlice) : list TimeSlice :=
  filter (fun ts => PID ts = id) g.

(** [rr_rows w]: a row of the table stands at the index of its id and is the
    row of the last slice given to that id; either that slice finished the
    process or what is left of the process is queued. *)
Definition rr_rows (w : rr_view) : Prop :=
  forall (i : nat) r,
    y_schedule w !! i = Some (Some r) ->
    i = Z.to_nat (sub64 (r_id r) 1)
    /\ exists ts,
         last (slices_of (r_id r) (y_gantt w)) = Some ts
         /\ r_completion r = Stop ts
         /\ r_wait r = Start ts - r_arrival r /\ 0 <= r_wait r
         /\ r_turnaround r = Stop ts - r_arrival r
         /\ dur ts = minimum (r_burst r) quantum_time
         /\ (r_burst r <= 2 \/ exists q, q ∈ y_queue w /\ ProcessID q = r_id r).

(** * Text, loading and [main] *)

(** ** Numbers as text *)

(** [len(s)], in bytes. *)
Definition len (s : string) : Z := Z.of_nat (String.length s).

Definition byte_of (c : Ascii.ascii) : Z := Z.of_nat (Ascii.nat_of_ascii c).

(** The byte of the decimal digit [d]. *)
Definition digit_char (d : Z) : Ascii.ascii := Ascii.ascii_of_nat (Z.to_nat (48 + d)).

(** The decimal digits of [n >= 0] in front of [acc], last digit first; an
    [int64] has at most 19 of them. *)
Fixpoint digits (fuel : nat) (n : Z) (acc : string) : string :=
  match fuel with
  | O => acc
  | S fuel' =>
      let acc' := String (digit_char (n mod 10)) acc in
      if n / 10 =? 0 then acc' else digits fuel' (n / 10) acc'
  end.

(** [fmt.Sprint(z)] for an [int64]. *)
Definition Sprint (z : Z) : string :=
  if z <? 0 then String (Ascii.ascii_of_nat 45) (digits 20 (- z) "")
  else digits 20 z "".

(** The loop of [strconv.ParseUint] in base 10, without its bound. *)
Fixpoint parse_digits (s : string) (n : Z) : option Z :=
  match s with
  | EmptyString => Some n
  | String c s' =>
      let b := byte_of c in
      if (48 <=? b) && (b <=? 57) then parse_digits s' (n * 10 + (b - 48)) else None
  end.

(** [strconv.ParseInt(s, 10, 64)]; [None] is an error, of syntax or of
    range: [mustStrToInt] does not tell them apart. *)
Definition ParseInt (s : string) : option Z :=
  match s with
  | EmptyString => None
  | String c s' =>
      let neg := byte_of c =? 45 in
      let body := if (byte_of c =? 43) || neg then s' else s in
      match body with
      | EmptyString => None
      | _ =>
          un ← parse_digits body 0;
          if neg then (if un <=? 2 ^ 63 then Some (- un) else None)
          else (if un <? 2 ^ 63 then Some un else None)
      end
  end.

(** ** Ways to end *)

(** How a call ends when it does not return: a run-time panic, the panic of
    [strings.Repeat] on a negative count, [os.Exit], or no fuel left. *)
Inductive stop : Type :=
  | Panicked (e : panic)
  | NegativeRepeat
  | Exited (code : Z)
  | Unfinished.

Inductive outcome (A : Type) : Type :=
  | Done (a : A)
  | Stopped (e : stop).
Arguments Done {A} a.
Arguments Stopped {A} e.

#[global] Instance outcome_ret : MRet outcome := fun A x => Done x.
#[global] Instance outcome_bind : MBind outcome :=
  fun A B k m => match m with
                 | Done x => k x
                 | Stopped e => Stopped e
                 end.

(** ** Loading *)

(** [func mustStrToInt(s string) int64] *)
Definition mustStrToInt (s : string) : outcome Z :=
  match ParseInt s with
  | Some i => Done i
  | None => Stopped (Exited 1)
  end.

(** [rows[i][j]] *)
Definition field (row : list string) (j : nat) : outcome string :=
  match row !! j with
  | Some s => Done s
  | None => Stopped (Panicked IndexOutOfRange)
  end.

(** The body of [for i := range rows]. *)
Definition load_row (row : list string) : outcome Process :=
  s ← field row 0; id ← mustStrToInt s;
  s ← field row 1; burst ← mustStrToInt s;
  s ← field row 2; arrival ← mustStrToInt s;
  priority ← (if bool_decide (length row = 4%nat)
              then s ← field row 3; mustStrToInt s
              else Done 0);
  Done (proc id arrival burst priority).

Fixpoint load_rows (rows : list (list string)) : outcome (list Process) :=
  match rows with
  | [] => Done []
  | row :: rest => p ← load_row row; ps ← load_rows rest; Done (p :: ps)
  end.

(** What [csv.NewReader(r).ReadAll()] makes of a file: the records, or
    [None] for an error. *)
Definition file : Type := option (list (list string)).

(** [func loadProcesses(r io.Reader) ([]Process, error)]; [None] is the
    error returned. *)
Definition loadProcesses (r : file) : outcome (option (list Process)) :=
  match r with
  | None => Done None
  | Some rows => ps ← load_rows rows; Done (Some ps)
  end.

(** [func openProcessingFile(args ...string)], on a file system [Open] that
    gives the file of a path or [None] for an error; [None] is the error
    returned. *)
Definition openProcessingFile (Open : string -> option file) (args : list string) :
    option file :=
  if bool_decide (length args <> 2%nat) then None
  else s ← args !! 1%nat; Open s.

(** ** Standard output *)

(** What was written: text, and the tables handed to the table writer. *)
Inductive chunk : Type :=
  | Text (s : string)
  | Table (rows : table) (wait turnaround throughput : float64).

(** A call that writes: the chunks so far go in, and come out with those
    the call added before it returned or stopped. *)
Definition program (A : Type) : Type := list chunk -> list chunk * outcome A.

#[global] Instance program_ret : MRet program := fun A x w => (w, Done x).
#[global] Instance program_bind : MBind program :=
  fun A B k m w => match m w with
                   | (w', Done x) => k x w'
                   | (w', Stopped e) => (w', Stopped e)
                   end.

Definition halt {A : Type} (e : stop) : program A := fun w => (w, Stopped e).

Definition lift {A : Type} (m : outcome A) : program A := fun w => (w, m).

Definition nl : string := String (Ascii.ascii_of_nat 10) "".
Definition tab : string := String (Ascii.ascii_of_nat 9) "".

(** [fmt.Fprint(w, s)] for strings joined by the caller. *)
Definition Fprint (s : string) : program unit := fun w => (w ++ [Text s], Done tt).

Fixpoint repeat_string (s : string) (n : nat) : string :=
  match n with
  | O => ""
  | S n' => s +:+ repeat_string s n'
  end.

(** Handing a table to the table writer. *)
Definition Render (rows : table) (wait turnaround throughput : float64) : program unit :=
  fun w => (w ++ [Table rows wait turnaround throughput], Done tt).

(** [strings.Repeat(s, count)] *)
Definition Repeat (s : string) (count : Z) : program string :=
  if count <? 0 then halt NegativeRepeat
  else mret (repeat_string s (Z.to_nat count)).

(** [func outputTitle(w io.Writer, title string)] *)
Definition outputTitle_to (title : string) : program unit :=
  rule ← Repeat "-" (wrap64 (len title * 2));
  _ ← Fprint (rule +:+ nl);
  pad ← Repeat " " (len title ÷ 2);
  _ ← Fprint (pad +:+ " " +:+ title +:+ nl);
  rule ← Repeat "-" (wrap64 (len title * 2));
  Fprint (rule +:+ nl).

(** The first loop of [outputGantt]: one cell for each interval. *)
Fixpoint gantt_cells (gantt : list TimeSlice) : program unit :=
  match gantt with
  | [] => mret tt
  | ts :: rest =>
      let pid := Sprint (PID ts) in
      padding ← Repeat " " ((8 - len pid) ÷ 2);
      _ ← Fprint (padding +:+ pid +:+ padding +:+ "|");
      gantt_cells rest
  end.

(** The second loop: the start of each interval, and the stop of the
    last. *)
Fixpoint gantt_times (gantt : list TimeSlice) : program unit :=
  match gantt with
  | [] => mret tt
  | ts :: rest =>
      _ ← Fprint (Sprint (Start ts) +:+ tab);
      _ ← (if bool_decide (rest = []) then Fprint (Sprint (Stop ts)) else mret tt);
      gantt_times rest
  end.

(** [func outputGantt(w io.Writer, gantt []TimeSlice)] *)
Definition outputGantt_to (gantt : list TimeSlice) : program unit :=
  _ ← Fprint ("Gantt schedule" +:+ nl);
  _ ← Fprint "|";
  _ ← gantt_cells gantt;
  _ ← Fprint nl;
  _ ← gantt_times gantt;
  Fprint (nl +:+ nl).

(** [func outputSchedule]: the heading, then the table writer, whose text
    is not modelled. *)
Definition outputSchedule_to (rows : table) (wait turnaround throughput : float64) :
    program unit :=
  _ ← Fprint ("Schedule table" +:+ nl);
  Render rows wait turnaround throughput.

(** The call a scheduler makes for each of its outputs. *)
Definition emit (o : output) : program unit :=
  match o with
  | outputTitle title => outputTitle_to title
  | outputGantt gantt => outputGantt_to gantt
  | outputSchedule rows wait turnaround throughput =>
      outputSchedule_to rows wait turnaround throughput
  end.

Fixpoint emit_all (outs : list output) : program unit :=
  match outs with
  | [] => mret tt
  | o :: rest => _ ← emit o; emit_all rest
  end.

(** A scheduler called from [main]: the schedulers write when their loops
    are over, so one that panics has written nothing. *)
Definition call (r : result (heap * list output)) : program heap :=
  match r with
  | Ok (h, outs) => _ ← emit_all outs; mret h
  | Panic e => halt (Panicked e)
  | OutOfFuel => halt Unfinished
  end.

(** [func main()], on the arguments [args] and the file system [Open].
    [log.Fatal] exits with status 1; the file is taken to close without
    error. *)
Definition main (fuel : nat) (args : list string) (Open : string -> option file) :
    program unit :=
  match openProcessingFile Open args with
  | None => halt (Exited 1)
  | Some f =>
      r ← lift (loadProcesses f);
      match r with
      | None => halt (Exited 1)
      | Some ps =>
          let h := load ps in
          let processes := slice_of 0 ps in
          h ← call (FCFSSchedule "First-come, first-serve" h processes);
          h ← call (SJFSchedule fuel "Shortest-job-first" h processes);
          _ ← call (SJFPrioritySchedule fuel "Priority" h processes);
          mret tt
      end
  end.

(** An output that its helper has room for. *)
Definition printable (o : output) : Prop :=
  match o with
  | outputTitle title => len title < 2 ^ 62
  | outputGantt gantt => Forall (fun ts => len (Sprint (PID ts)) < 10) gantt
  | outputSchedule _ _ _ _ => True
  end.

(** The ids that leave room for padding in a cell of the chart. *)
Definition short_id (z : Z) : Prop := - 10 ^ 8 < z < 10 ^ 9.

(** A record that [loadProcesses] reads as the process [p]. *)
Definition reads (row : list string) (p : Process) : Prop :=
  exists s0 s1 s2 rest,
    row = s0 :: s1 :: s2 :: rest
    /\ ParseInt s0 = Some (ProcessID p)
    /\ ParseInt s1 = Some (BurstDuration p)
    /\ ParseInt s2 = Some (ArrivalTime p)
    /\ match rest with
       | [s3] => ParseInt s3 = Some (Priority p)
       | _ => Priority p = 0
       end
    /\ RemainingTime p = 0 /\ CompleteTime p = 0
    /\ TurnAroundTime p = 0 /\ WaitTime p = 0.

(** * Lemmas *)

(** ** Fuel *)

Lemma bind_Ok {A B : Type} (a : A) (f : A -> result B) : (x ← Ok a; f x) = f a.
Proof. done. Qed.

Lemma for_while_more_fuel {S : Type} (cond : S -> bool) (body : S -> result S)
    (n k : nat) (s s' : S) :
  for_while cond body n s = Ok s' ->
  for_while cond body (n + k) s = Ok s'.
Proof.
  revert s. induction n as [|n IH]; intros s; simpl; [discriminate|].
  destruct (cond s); [|done].
  destruct (body s) as [s1| |]; simpl; try discriminate.
  apply IH.
Qed.

(** ** Arrays and slices *)

Lemma blit_nil k a : blit k [] a = a.
Proof. unfold blit. simpl. rewrite Nat.add_0_r. apply take_drop. Qed.

Lemma blit_length k vs a :
  (k + length vs <= length a)%nat -> length (blit k vs a) = length a.
Proof.
  intros H. unfold blit.
  rewrite !length_app, length_take, length_drop. lia.
Qed.

Lemma blit_lookup_lt k vs a i :
  (i < k)%nat -> (k <= length a)%nat -> blit k vs a !! i = a !! i.
Proof.
  intros Hi Hk. unfold blit.
  rewrite lookup_app_l by (rewrite length_take; lia).
  by rewrite lookup_take_lt.
Qed.

Lemma blit_lookup_mid k vs a i :
  (k <= length a)%nat -> (i < length vs)%nat -> blit k vs a !! (k + i)%nat = vs !! i.
Proof.
  intros Hk Hi. unfold blit.
  rewrite lookup_app_r by (rewrite length_take; lia).
  rewrite length_take, Nat.min_l by done.
  replace (k + i - k)%nat with i by lia.
  by rewrite lookup_app_l.
Qed.

Lemma elems_length h s : wf h s -> length (elems h s) = s_len s.
Proof.
  intros [Hl Hc]. unfold elems. rewrite length_take, length_drop. lia.
Qed.

Lemma elems_lookup h s i :
  (i < s_len s)%nat -> elems h s !! i = backing h s !! (s_off s + i)%nat.
Proof.
  intros Hi. unfold elems. rewrite lookup_take_lt by done. by rewrite lookup_drop.
Qed.

Lemma elems_nil h s : s_len s = 0%nat -> elems h s = [].
Proof. intros H. unfold elems. by rewrite H. Qed.

Lemma index_Ok h s i :
  0 <= i < Z.of_nat (s_len s) ->
  index h s i = Ok (default zeroProcess (elems h s !! Z.to_nat i)).
Proof.
  intros Hi. unfold index. rewrite bool_decide_true by done.
  by rewrite elems_lookup by lia.
Qed.

Lemma index_Panic h s i :
  ~ (0 <= i < Z.of_nat (s_len s)) -> index h s i = Panic IndexOutOfRange.
Proof. intros Hi. unfold index. by rewrite bool_decide_false. Qed.

Lemma backing_insert h s x :
  (s_arr s < length h)%nat -> backing (<[s_arr s := x]> h) s = x.
Proof. intros H. unfold backing. by rewrite list_lookup_insert_eq. Qed.

Lemma wf_cap_arr h s : wf h s -> (0 < s_cap s)%nat -> (s_arr s < length h)%nat.
Proof.
  intros [_ Hc] Hpos. unfold backing in Hc.
  destruct (h !! s_arr s) eqn:E; [by eapply lookup_lt_Some|simpl in Hc; lia].
Qed.

Lemma modifies_refl s h : modifies s h h.
Proof. by repeat split. Qed.

Lemma modifies_wf s h h' t : modifies s h h' -> wf h t -> wf h' t.
Proof.
  intros (Hlen & _ & Hsz) [Hl Hc]. split; [done|].
  destruct (decide (s_arr t < length h)%nat) as [Hlt|Hge].
  - unfold backing in *. rewrite Hsz; done.
  - unfold backing in Hc. rewrite lookup_ge_None_2 in Hc by lia. simpl in Hc. lia.
Qed.

Lemma modifies_elems s h h' t :
  modifies s h h' -> wf h t -> apart t s -> elems h' t = elems h t.
Proof.
  intros (Hlen & Hsame & _) Hwf Hap.
  destruct (decide (s_cap t = 0)%nat) as [H0|Hpos].
  { destruct Hwf as [Hl _]. rewrite !elems_nil; [done|lia..]. }
  unfold elems, backing. rewrite Hsame; [done|apply (wf_cap_arr h t); [done|lia]|].
  destruct Hap as [?|[?|?]]; [lia|by left|by right].
Qed.

Lemma modifies_take s h h' n :
  modifies s h h' -> owned n s -> (n <= length h)%nat -> take n h' = take n h.
Proof.
  intros (Hlen & Hsame & _) [_ Hown] Hn.
  apply list_eq. intros a.
  destruct (decide (a < n)%nat) as [Ha|Ha].
  - rewrite !lookup_take_lt by done. apply Hsame; [lia|].
    destruct Hown; [by left|right; lia].
  - rewrite !lookup_take_ge; [done|lia..].
Qed.

Lemma append_list_spec h s vs h' s' :
  wf h s -> append_list h s vs = (h', s') ->
  modifies s h h' /\ wf h' s' /\ elems h' s' = elems h s ++ vs
  /\ s_len s' = (s_len s + length vs)%nat
  /\ (forall t, wf h t -> apart t s -> apart t s')
  /\ (forall n, owned n s -> (n <= length h)%nat -> owned n s').
Proof.
  intros Hwf. pose proof Hwf as [Hl Hc]. unfold append_list.
  case_decide as Hfit; intros [= <- <-].
  - (* in place *)
    destruct (decide (s_arr s < length h)%nat) as [Harr|Harr].
    + assert (Hb : backing (<[s_arr s:=blit (s_off s + s_len s) vs (backing h s)]> h)
                     (mkSlice (s_arr s) (s_off s) (s_len s + length vs) (s_cap s))
                   = blit (s_off s + s_len s) vs (backing h s)).
      { unfold backing at 1. simpl. by rewrite list_lookup_insert_eq. }
      split_and!.
      * unfold modifies. split_and!.
        -- by rewrite length_insert.
        -- intros a Ha [H0|Hne].
           ++ assert (vs = []) as -> by (destruct vs; [done|simpl in Hfit; lia]).
              rewrite blit_nil. unfold backing.
              destruct (h !! s_arr s) eqn:E; simpl.
              ** by rewrite list_insert_id.
              ** apply lookup_ge_None in E. lia.
           ++ by rewrite list_lookup_insert_ne.
        -- intros a Ha. destruct (decide (a = s_arr s)) as [->|Hne].
           ++ rewrite list_lookup_insert_eq by done. simpl.
              rewrite blit_length; [done|lia].
           ++ by rewrite list_lookup_insert_ne.
      * split; [done|]. rewrite Hb, blit_length; simpl; lia.
      * apply list_eq. intros i. unfold elems at 1. rewrite Hb. simpl.
        destruct (decide (i < s_len s + length vs)%nat) as [Hi|Hi].
        -- rewrite lookup_take_lt, lookup_drop by done.
           destruct (decide (i < s_len s)%nat) as [Hi'|Hi'].
           ++ rewrite blit_lookup_lt by lia.
              rewrite lookup_app_l by (rewrite elems_length; done).
              by rewrite elems_lookup.
           ++ replace (s_off s + i)%nat with (s_off s + s_len s + (i - s_len s))%nat by lia.
              rewrite blit_lookup_mid by lia.
              rewrite lookup_app_r by (rewrite elems_length; [lia|done]).
              by rewrite elems_length.
        -- rewrite lookup_take_ge by lia. symmetry. apply lookup_ge_None.
           rewrite length_app, elems_length by done. lia.
      * done.
      * intros t _ [?|[?|?]]; [by left|right; by left|right; by right].
      * intros m [_ Ho] _. split; simpl; [done|done].
    + (* the array is not there: the slice is empty *)
      assert (Hb0 : backing h s = []).
      { unfold backing. by rewrite lookup_ge_None_2 by lia. }
      rewrite Hb0 in Hc. simpl in Hc.
      assert (vs = []) as -> by (destruct vs; [done|simpl in Hfit; lia]).
      rewrite list_insert_ge by lia.
      split_and!.
      * apply modifies_refl.
      * split; simpl; [lia|]. unfold backing. simpl. fold (backing h s).
        rewrite Hb0. simpl. lia.
      * rewrite app_nil_r. unfold elems. simpl. f_equal. lia.
      * done.
      * intros t _ [?|[?|?]]; [by left|right; by left|right; by right].
      * intros m [_ Ho] _. split; simpl; [lia|done].
  - (* a new array *)
    assert (Hb : backing (h ++ [elems h s ++ vs ++
                    replicate (growcap (s_cap s) (s_len s + length vs) - (s_len s + length vs)) zeroProcess])
                   (mkSlice (length h) 0 (s_len s + length vs)
                            (growcap (s_cap s) (s_len s + length vs)))
                 = elems h s ++ vs ++
                    replicate (growcap (s_cap s) (s_len s + length vs) - (s_len s + length vs)) zeroProcess).
    { unfold backing. simpl. by rewrite list_lookup_middle. }
    assert (Hg : (s_len s + length vs <= growcap (s_cap s) (s_len s + length vs))%nat)
      by (unfold growcap; lia).
    split_and!.
    + unfold modifies. split_and!.
      * rewrite length_app. simpl. lia.
      * intros a Ha _. by rewrite lookup_app_l.
      * intros a Ha. by rewrite lookup_app_l.
    + split; [done|].
      rewrite Hb, !length_app, length_replicate, elems_length by done. simpl. lia.
    + unfold elems at 1. rewrite Hb. simpl. rewrite drop_0.
      rewrite (assoc app). rewrite take_app_length'; [done|].
      rewrite length_app, elems_length; done.
    + done.
    + intros t Ht _. destruct (decide (s_cap t = 0)%nat); [by left|].
      right; right. simpl. pose proof (wf_cap_arr h t Ht). lia.
    + intros m Ho Hn. split; simpl; [done|right; done].
Qed.

Lemma apart_same t s s' :
  s_arr s' = s_arr s -> (s_cap s' <= s_cap s)%nat -> apart t s -> apart t s'.
Proof.
  unfold apart. intros Ha Hc [?|[?|?]]; [by left|right; left; lia|].
  right; right. by rewrite Ha.
Qed.

Lemma apart_sym s t : apart s t -> apart t s.
Proof. unfold apart. intros [?|[?|?]]; auto. Qed.

Lemma owned_same n s s' :
  s_arr s' = s_arr s -> (s_cap s' <= s_cap s)%nat -> (s_len s' <= s_cap s')%nat ->
  owned n s -> owned n s'.
Proof.
  unfold owned. intros Ha Hc Hl [_ [?|?]]; (split; [done|]); [left; lia|].
  right. by rewrite Ha.
Qed.

Lemma owned_nil n : owned n nil_slice.
Proof. split; simpl; [done|by left]. Qed.

Lemma wf_nil h : wf h nil_slice.
Proof. split; simpl; lia. Qed.

Lemma apart_nil_l s : apart nil_slice s.
Proof. by left. Qed.

Lemma take_sub_drop {A} (l : list A) (n i : nat) :
  (i <= n)%nat -> take (n - i) (drop i l) = drop i (take n l).
Proof.
  intros H. rewrite take_drop_commute. do 2 f_equal. lia.
Qed.

Lemma slice_from_spec h s i :
  wf h s -> 0 <= i <= Z.of_nat (s_len s) ->
  exists s', slice_from s i = Ok s' /\ wf h s'
    /\ elems h s' = drop (Z.to_nat i) (elems h s)
    /\ s_arr s' = s_arr s /\ (s_cap s' <= s_cap s)%nat
    /\ s_len s' = (s_len s - Z.to_nat i)%nat.
Proof.
  intros [Hl Hc] Hi. unfold slice_from. rewrite bool_decide_true by done.
  eexists. split; [done|]. split_and!; simpl; try done; try lia.
  - split; simpl; [lia|]. unfold backing in *. simpl. lia.
  - unfold elems, backing. simpl.
    rewrite <- drop_drop. apply take_sub_drop. lia.
Qed.

Lemma slice_from_Panic s i :
  ~ (0 <= i <= Z.of_nat (s_len s)) -> slice_from s i = Panic SliceBoundsOutOfRange.
Proof. intros H. unfold slice_from. by rewrite bool_decide_false. Qed.

Lemma RemoveProcess_spec h s i :
  wf h s -> 0 <= i < Z.of_nat (s_len s) ->
  exists h' s', RemoveProcess h s i = Ok (h', s')
    /\ modifies s h h' /\ wf h' s'
    /\ elems h' s' = delete (Z.to_nat i) (elems h s)
    /\ s_arr s' = s_arr s /\ s_cap s' = s_cap s
    /\ s_len s' = (s_len s - 1)%nat.
Proof.
  intros Hwf Hi. pose proof Hwf as [Hl Hc].
  unfold RemoveProcess, slice_to, slice_from.
  rewrite !bool_decide_true by lia. simpl.
  set (l := mkSlice (s_arr s) (s_off s) (Z.to_nat i) (s_cap s)).
  set (r := mkSlice (s_arr s) (s_off s + Z.to_nat (i + 1))
                    (s_len s - Z.to_nat (i + 1)) (s_cap s - Z.to_nat (i + 1))).
  assert (Hwl : wf h l) by (split; simpl; [lia|done]).
  assert (Hwr : wf h r).
  { split; simpl; [lia|]. unfold backing in *. simpl. lia. }
  unfold append_slice.
  destruct (append_list h l (elems h r)) as [h' s'] eqn:E.
  destruct (append_list_spec _ _ _ _ _ Hwl E) as (Hm & Hw' & He & Hlen & _ & _).
  exists h', s'. split; [done|].
  assert (Hs' : s_arr s' = s_arr s /\ s_cap s' = s_cap s).
  { unfold append_list in E. rewrite decide_True in E.
    - by injection E as <- <-.
    - rewrite elems_length by done. simpl. lia. }
  destruct Hs' as [Ha' Hc'].
  split_and!; try done.
  - rewrite He, delete_take_drop. unfold elems, backing. simpl.
    rewrite take_take, Nat.min_l by lia. f_equal.
    replace (S (Z.to_nat i)) with (Z.to_nat (i + 1)) by lia.
    rewrite <- drop_drop. apply take_sub_drop. lia.
  - rewrite Hlen, elems_length by done. simpl. lia.
Qed.

Lemma RemoveProcess_Panic h s i :
  (s_len s <= s_cap s)%nat -> ~ (0 <= i < Z.of_nat (s_len s)) ->
  RemoveProcess h s i = Panic SliceBoundsOutOfRange.
Proof.
  intros Hl Hi. unfold RemoveProcess, slice_to.
  case_bool_decide; [|done]. simpl.
  rewrite slice_from_Panic; [done|]. simpl. lia.
Qed.

(** The insertion sort permutes. *)

Lemma sink_perm less x before : sink less x before ≡ₚ x :: before.
Proof.
  induction before as [|y r IH]; simpl; [done|].
  destruct (less x y); [|done].
  rewrite IH. apply Permutation_swap.
Qed.

Lemma insertion_sort_perm less l : insertion_sort less l ≡ₚ l.
Proof.
  unfold insertion_sort. rewrite <- Permutation_rev.
  assert (H : forall acc, fold_left (fun before x => sink less x before) l acc ≡ₚ acc ++ l).
  { induction l as [|x l IH]; intros acc; simpl; [by rewrite app_nil_r|].
    rewrite IH, sink_perm. by rewrite <- Permutation_middle. }
  by rewrite H.
Qed.

Lemma insertion_sort_length less l : length (insertion_sort less l) = length l.
Proof. apply Permutation_length, insertion_sort_perm. Qed.

Lemma sort_Slice_spec less h s :
  wf h s ->
  modifies s h (sort_Slice less h s)
  /\ wf (sort_Slice less h s) s
  /\ elems (sort_Slice less h s) s = insertion_sort less (elems h s).
Proof.
  intros Hwf. pose proof Hwf as [Hl Hc]. unfold sort_Slice.
  set (vs := insertion_sort less (elems h s)).
  assert (Hvs : length vs = s_len s).
  { unfold vs. by rewrite insertion_sort_length, elems_length. }
  destruct (decide (s_arr s < length h)%nat) as [Harr|Harr].
  - assert (Hm : modifies s h (<[s_arr s:=blit (s_off s) vs (backing h s)]> h)).
    { unfold modifies. split_and!.
      - by rewrite length_insert.
      - intros a Ha [H0|Hne]; [|by rewrite list_lookup_insert_ne].
        assert (vs = []) as -> by (destruct vs; [done|simpl in Hvs; lia]).
        rewrite blit_nil. unfold backing.
        destruct (h !! s_arr s) eqn:E; simpl; [by rewrite list_insert_id|].
        apply lookup_ge_None in E. lia.
      - intros a Ha. destruct (decide (a = s_arr s)) as [->|Hne].
        + rewrite list_lookup_insert_eq by done. simpl.
          rewrite blit_length; [done|lia].
        + by rewrite list_lookup_insert_ne. }
    split_and!; [done|by eapply modifies_wf|].
    apply list_eq. intros i. unfold elems at 1.
    rewrite backing_insert by done.
    destruct (decide (i < s_len s)%nat) as [Hi|Hi].
    + rewrite lookup_take_lt, lookup_drop by done.
      rewrite blit_lookup_mid; [done|lia..].
    + rewrite lookup_take_ge by lia. symmetry. apply lookup_ge_None. lia.
  - rewrite list_insert_ge by lia.
    split_and!; [apply modifies_refl|done|].
    assert (Hb0 : backing h s = []).
    { unfold backing. by rewrite lookup_ge_None_2 by lia. }
    rewrite Hb0 in Hc. simpl in Hc.
    assert (vs = []) as Hnil by (destruct vs; [done|simpl in Hvs; lia]).
    rewrite Hnil. apply elems_nil. lia.
Qed.

(** ** Operations on a slice next to another *)

Lemma kept_refl h : kept h h.
Proof. split; [done|]. by rewrite firstn_all. Qed.

Lemma kept_modifies h0 h h' s :
  kept h0 h -> modifies s h h' -> owned (length h0) s -> kept h0 h'.
Proof.
  intros [Hlen Htake] Hm Ho. split.
  - destruct Hm as (? & _). lia.
  - rewrite <- Htake at 2. by eapply modifies_take.
Qed.

Lemma good_swap h0 h s t : good h0 h s t -> owned (length h0) t -> good h0 h t s.
Proof.
  intros (Hk & Hs & Hos & Ht & Hap) Hot. split_and!; try done. by apply apart_sym.
Qed.

Lemma good_append h0 h s t vs h' s' :
  good h0 h s t -> append_list h s vs = (h', s') ->
  good h0 h' s' t /\ elems h' s' = elems h s ++ vs /\ elems h' t = elems h t.
Proof.
  intros (Hk & Hs & Hos & Ht & Hap) E.
  destruct (append_list_spec _ _ _ _ _ Hs E) as (Hm & Hs' & He & _ & Hap' & Ho').
  assert (Hk' : kept h0 h') by (by eapply kept_modifies).
  split_and!; try done.
  - unfold good. split_and!; try done.
    + apply Ho'; [done|]. destruct Hk, Hm. lia.
    + by eapply modifies_wf.
    + apply apart_sym, Hap'; [done|]. by apply apart_sym.
  - eapply modifies_elems; [done..|]. by apply apart_sym.
Qed.

Lemma good_remove h0 h s t i :
  good h0 h s t -> 0 <= i < Z.of_nat (s_len s) ->
  exists h' s', RemoveProcess h s i = Ok (h', s')
    /\ good h0 h' s' t
    /\ elems h' s' = delete (Z.to_nat i) (elems h s)
    /\ elems h' t = elems h t.
Proof.
  intros (Hk & Hs & Hos & Ht & Hap) Hi.
  destruct (RemoveProcess_spec h s i Hs Hi)
    as (h' & s' & E & Hm & Hs' & He & Ha & Hc & Hl).
  exists h', s'. split_and!; try done.
  - unfold good. split_and!; try done.
    + by eapply kept_modifies.
    + eapply owned_same; [done|lia| |done]. by destruct Hs'.
    + by eapply modifies_wf.
    + apply apart_sym. eapply apart_same; [done|lia|]. by apply apart_sym.
  - eapply modifies_elems; [done..|]. by apply apart_sym.
Qed.

Lemma good_sort less h0 h s t :
  good h0 h s t ->
  good h0 (sort_Slice less h s) s t
  /\ elems (sort_Slice less h s) s = insertion_sort less (elems h s)
  /\ elems (sort_Slice less h s) t = elems h t.
Proof.
  intros (Hk & Hs & Hos & Ht & Hap).
  destruct (sort_Slice_spec less h s Hs) as (Hm & Hs' & He).
  split_and!; try done.
  - unfold good. split_and!; try done; [by eapply kept_modifies|by eapply modifies_wf].
  - eapply modifies_elems; [done..|]. by apply apart_sym.
Qed.

Lemma index_head h s : wf h s -> index h s 0 = head_l (elems h s).
Proof.
  intros Hwf. pose proof (elems_length h s Hwf) as Hlen.
  destruct (elems h s) as [|p l] eqn:E; simpl in *.
  - apply index_Panic. lia.
  - rewrite index_Ok by lia. by rewrite E.
Qed.

Lemma refines_bind {C A C' A' : Type} (R : C -> A -> Prop) (R' : C' -> A' -> Prop)
    (c : result C) (a : result A) (f : C -> result C') (g : A -> result A') :
  refines R c a ->
  (forall x y, R x y -> refines R' (f x) (g y)) ->
  refines R' (x ← c; f x) (y ← a; g y).
Proof.
  intros Hca Hfg. destruct c, a; simpl in *; try done. by apply Hfg.
Qed.

Lemma good_remove_head h0 h s t :
  good h0 h s t ->
  refines (fun hs l => good h0 hs.1 hs.2 t /\ elems hs.1 hs.2 = l
                       /\ elems hs.1 t = elems h t)
          (RemoveProcess h s 0) (tail_l (elems h s)).
Proof.
  intros Hg. pose proof Hg as (_ & Hs & _).
  pose proof (elems_length h s Hs) as Hlen.
  destruct (elems h s) as [|p l] eqn:E; simpl in *.
  - rewrite RemoveProcess_Panic; [done|by destruct Hs|lia].
  - destruct (good_remove h0 h s t 0 Hg) as (h' & s' & -> & Hg' & He & Ht); [lia|].
    simpl. rewrite E in He. done.
Qed.

(** ** The preemptive loop refines its list form *)

Lemma decrement_sim v :
  wf (j_heap v) (j_pq v) -> decrement v = decrement_l (view v).
Proof.
  intros Hwf. unfold decrement, decrement_l. simpl.
  destruct (RemainingTime (j_process v) =? 0); [|done].
  by rewrite index_head.
Qed.

Lemma complete_sim h0 v d t :
  sjf_inv h0 v -> refines (sjf_rel h0) (complete v d t) (complete_l (view v) d t).
Proof.
  intros [Hg Ho]. unfold complete, complete_l. simpl.
  destruct (store_row (j_schedule v) (j_count v) (row_of (finish d t)))
    as [schedule|e|]; simpl; try done.
  pose proof (good_remove_head h0 _ _ _ Hg) as Hr.
  destruct (RemoveProcess (j_heap v) (j_pq v) 0) as [[h' pq']|e|],
           (tail_l (elems (j_heap v) (j_pq v))) as [l|e'|]; simpl in *; try done.
  destruct Hr as (Hg' & He & Ht).
  split; [by split|]. unfold view. simpl. by rewrite He, Ht.
Qed.

Lemma arrive_sim less h0 v d t (i : nat) p :
  sjf_inv h0 v -> (i < s_len (j_pqA v))%nat ->
  refines (sjf_rel h0) (arrive (sort_Slice less) v d t i p)
          (arrive_l less (view v) d t i p).
Proof.
  intros [Hg Ho] Hi. unfold arrive, arrive_l. simpl.
  pose proof (good_remove_head h0 _ _ _ Hg) as Hr.
  destruct (RemoveProcess (j_heap v) (j_pq v) 0) as [[h1 pq1]|e|],
           (tail_l (elems (j_heap v) (j_pq v))) as [l|e'|]; simpl in *; try done.
  destruct Hr as (Hg1 & He1 & Ht1).
  unfold AddProcess, append.
  destruct (append_list h1 pq1 [p]) as [h2 pq2] eqn:E2.
  destruct (good_append _ _ _ _ _ _ _ Hg1 E2) as (Hg2 & He2 & Ht2).
  destruct (append_list h2 pq2 [d]) as [h3 pq3] eqn:E3.
  destruct (good_append _ _ _ _ _ _ _ Hg2 E3) as (Hg3 & He3 & Ht3).
  pose proof (good_swap _ _ _ _ Hg3 Ho) as Hg3'.
  destruct (good_remove _ _ _ _ (Z.of_nat i) Hg3') as (h4 & pqA4 & -> & Hg4 & He4 & Ht4);
    [lia|]. simpl.
  assert (Ho3 : owned (length h0) pq3) by (by destruct Hg3 as (_ & _ & ? & _)).
  assert (Ho4 : owned (length h0) pqA4) by (by destruct Hg4 as (_ & _ & ? & _)).
  pose proof (good_swap _ _ _ _ Hg4 Ho3) as Hg4'.
  destruct (good_sort less _ _ _ _ Hg4') as (Hg5 & He5 & Ht5).
  assert (Hpq : elems (sort_Slice less h4 pq3) pq3
                = insertion_sort less (l ++ [p; d])).
  { rewrite He5, Ht4, He3, He2, He1. by rewrite <- (assoc app). }
  assert (HpqA : elems (sort_Slice less h4 pq3) pqA4
                 = delete i (elems (j_heap v) (j_pqA v))).
  { rewrite Ht5, He4, Ht3, Ht2, Ht1. by rewrite Nat2Z.id. }
  rewrite index_head by (by destruct Hg5 as (_ & ? & _)).
  rewrite Hpq.
  destruct (head_l (insertion_sort less (l ++ [p; d]))) as [q|e|]; simpl; try done.
  split; [by split|]. unfold view. simpl. by rewrite Hpq, HpqA.
Qed.

Lemma arrival_scan_sim less h0 v d t (k : nat) :
  sjf_inv h0 v -> (k <= s_len (j_pqA v))%nat ->
  refines (sjf_rel h0)
    (arrival_scan (sort_Slice less) v d t (seq k (s_len (j_pqA v) - k)))
    (match arrival_l t k (drop k (elems (j_heap v) (j_pqA v))) with
     | Some (i, p) => arrive_l less (view v) d t i p
     | None => Ok (mkView d (w_pq (view v)) (w_pqA (view v)) t (w_count (view v))
                          (w_schedule (view v)) (w_totalWait (view v))
                          (w_totalTurnaround (view v)))
     end).
Proof.
  intros Hinv Hk. pose proof Hinv as [(_ & _ & _ & HwA & _) _].
  pose proof (elems_length _ _ HwA) as Hlen.
  remember (s_len (j_pqA v) - k)%nat as n eqn:Hn.
  revert k Hk Hn. induction n as [|n IH]; intros k Hk Hn.
  - simpl. rewrite drop_ge by lia. simpl. split; [done|]. done.
  - simpl.
    rewrite index_Ok by lia. rewrite Nat2Z.id.
    destruct (elems (j_heap v) (j_pqA v) !! k) as [p|] eqn:Ek;
      [|apply lookup_ge_None in Ek; lia].
    rewrite (drop_S _ p k) by done. simpl.
    destruct (ArrivalTime p =? t).
    + apply arrive_sim; [done|lia].
    + apply IH; lia.
Qed.

Lemma tick_sim less h0 v :
  sjf_inv h0 v ->
  refines (sjf_rel h0) (tick (sort_Slice less) v) (tick_l less (view v)).
Proof.
  intros Hinv. pose proof Hinv as [(_ & Hw & _) _].
  unfold tick, tick_l. rewrite (decrement_sim v Hw).
  destruct (decrement_l (view v)) as [d|e|]; simpl; try done.
  destruct (RemainingTime d =? 0).
  - by apply complete_sim.
  - pose proof (arrival_scan_sim less h0 v d (add64 (j_currentTime v) 1) 0 Hinv) as H.
    rewrite Nat.sub_0_r, drop_0 in H. apply H. lia.
Qed.

Lemma for_while_sim {C A : Type} (R : C -> A -> Prop)
    (cond : C -> bool) (cond' : A -> bool)
    (body : C -> result C) (body' : A -> result A) :
  (forall x y, R x y -> cond x = cond' y) ->
  (forall x y, R x y -> refines R (body x) (body' y)) ->
  forall fuel x y, R x y ->
    refines R (for_while cond body fuel x) (for_while cond' body' fuel y).
Proof.
  intros Hcond Hbody. induction fuel as [|fuel IH]; intros x y Hxy; simpl; [done|].
  rewrite <- (Hcond x y Hxy). destruct (cond x); [|done].
  apply refines_bind with (R := R); [by apply Hbody|]. apply IH.
Qed.

Lemma running_sim h0 v w : sjf_rel h0 v w -> running v = running_l w.
Proof.
  intros [[(_ & Hw & _) _] <-]. unfold running, running_l. simpl.
  by rewrite elems_length.
Qed.

Lemma loop_sim less h0 fuel v w :
  sjf_rel h0 v w ->
  refines (sjf_rel h0) (for_while running (tick (sort_Slice less)) fuel v)
          (for_while running_l (tick_l less) fuel w).
Proof.
  apply for_while_sim.
  - apply running_sim.
  - intros x y [Hinv <-]. by apply tick_sim.
Qed.

Lemma load_body_eq ps h pqA (i : nat) :
  load_body ps (h, pqA) i
  = (process ← index h ps (Z.of_nat i);
     Ok (AddProcess h pqA (set_RemainingTime process (BurstDuration process)))).
Proof. done. Qed.

Lemma load_sim h ps (n k : nat) hk pqA :
  n = (s_len ps - k)%nat -> (k <= s_len ps)%nat ->
  good h hk pqA ps -> elems hk ps = elems h ps ->
  elems hk pqA = loaded (take k (elems h ps)) ->
  exists h' pqA',
    for_range (load_body ps) (seq k n) (hk, pqA) = Ok (h', pqA')
    /\ good h h' pqA' ps /\ elems h' pqA' = loaded (elems h ps).
Proof.
  revert k hk pqA. induction n as [|n IH]; intros k hk pqA Hn Hk Hg Hps He.
  - simpl. exists hk, pqA. split_and!; [done..|].
    destruct Hg as (_ & _ & _ & Hw & _).
    rewrite He, take_ge; [done|]. rewrite <- Hps, elems_length by done. lia.
  - cbn [seq for_range]. rewrite load_body_eq.
    rewrite index_Ok by lia. rewrite Nat2Z.id.
    pose proof Hg as (_ & _ & _ & Hw & _).
    destruct (elems hk ps !! k) as [p|] eqn:Ek;
      [|apply lookup_ge_None in Ek; rewrite elems_length in Ek by done; lia].
    simpl. unfold AddProcess, append.
    destruct (append_list hk pqA [set_RemainingTime p (BurstDuration p)])
      as [h1 pqA1] eqn:E1.
    destruct (good_append _ _ _ _ _ _ _ Hg E1) as (Hg1 & He1 & Ht1).
    apply (IH (S k)); [lia|lia|done|congruence|].
    rewrite He1, He. rewrite Hps in Ek.
    erewrite take_S_r by done. unfold loaded. by rewrite map_app.
Qed.

Lemma init_sim h ps :
  wf h ps -> refines (sjf_rel h) (preemptive_init h ps) (init_l (elems h ps)).
Proof.
  intros Hps. unfold preemptive_init, init_l.
  destruct (load_sim h ps (s_len ps) 0 h nil_slice) as (h1 & pqA1 & -> & Hg1 & He1);
    [lia|lia| |done|by rewrite take_0|].
  { split_and!; [apply kept_refl|apply wf_nil|apply owned_nil|done|apply apart_nil_l]. }
  simpl. unfold sortArrivalQueue.
  destruct (good_sort lessArrival _ _ _ _ Hg1) as (Hg2 & He2 & Ht2).
  rewrite index_head by (by destruct Hg2 as (_ & ? & _)).
  rewrite He2, He1.
  pose proof (good_remove_head _ _ _ _ Hg2) as Hr. rewrite He2, He1 in Hr.
  destruct (insertion_sort lessArrival (loaded (elems h ps))) as [|process pqA];
    simpl in *; [done|].
  destruct (RemoveProcess (sort_Slice lessArrival h1 pqA1) pqA1 0)
    as [[h3 pqA3]|e|]; simpl in *; try done.
  destruct Hr as (Hg3 & He3 & Ht3).
  assert (Ho3 : owned (length h) pqA3) by (by destruct Hg3 as (_ & _ & ? & _)).
  assert (Hn : good h h3 nil_slice pqA3).
  { destruct Hg3 as (? & ? & _). split_and!;
      [done|apply wf_nil|apply owned_nil|done|apply apart_nil_l]. }
  unfold AddProcess, append.
  destruct (append_list h3 nil_slice [process]) as [h4 pq] eqn:E4.
  destruct (good_append _ _ _ _ _ _ _ Hn E4) as (Hg4 & He4 & Ht4).
  unfold append_list in E4. simpl in E4. injection E4 as <- <-.
  simpl. split; [by split|].
  unfold view. cbn [j_heap j_pq j_pqA j_process j_currentTime j_count j_schedule
                    j_totalWait j_totalTurnaround].
  rewrite He4, Ht4, He3, elems_length by done.
  by rewrite (elems_nil h3 nil_slice).
Qed.

(** The preemptive schedulers compute what their list form computes, and
    leave the arrays that were in the heap as they were. *)
Lemma preemptive_schedule_refines less fuel title h ps :
  wf h ps ->
  refines (fun r out => kept h r.1 /\ r.2 = out)
          (preemptive_schedule (sort_Slice less) fuel title h ps)
          (preemptive_l less fuel title (elems h ps)).
Proof.
  intros Hps. unfold preemptive_schedule, preemptive_l.
  apply refines_bind with (R := sjf_rel h); [by apply init_sim|].
  intros v w Hvw.
  apply refines_bind with (R := sjf_rel h); [by apply loop_sim|].
  intros v' w' [[(Hk & _) _] <-]. simpl. split; [done|].
  unfold report_l. simpl. by rewrite elems_length.
Qed.

(** ** Round-robin refines its list form *)

Lemma good_slice_from h0 h s t i :
  good h0 h s t -> 0 <= i <= Z.of_nat (s_len s) ->
  exists s', slice_from s i = Ok s' /\ good h0 h s' t
    /\ elems h s' = drop (Z.to_nat i) (elems h s).
Proof.
  intros (Hk & Hs & Hos & Ht & Hap) Hi.
  destruct (slice_from_spec h s i Hs Hi) as (s' & E & Hs' & He & Ha & Hc & Hl).
  exists s'. split_and!; try done.
  unfold good. split_and!; try done.
  - eapply owned_same; [done|done|by destruct Hs'|done].
  - apply apart_sym. eapply apart_same; [done|done|]. by apply apart_sym.
Qed.

Lemma good_slice_from_other h0 h s t i :
  good h0 h s t -> 0 <= i <= Z.of_nat (s_len t) ->
  exists t', slice_from t i = Ok t' /\ good h0 h s t'
    /\ elems h t' = drop (Z.to_nat i) (elems h t).
Proof.
  intros (Hk & Hs & Hos & Ht & Hap) Hi.
  destruct (slice_from_spec h t i Ht Hi) as (t' & E & Ht' & He & Ha & Hc & Hl).
  exists t'. split_and!; try done.
  unfold good. split_and!; try done.
  eapply apart_same; done.
Qed.

Lemma enqueue_arrived_sim h0 st (n : nat) h processes queue :
  n = s_len processes -> good h0 h queue processes ->
  exists h' processes' queue',
    enqueue_arrived n st h processes queue = Ok (h', processes', queue')
    /\ good h0 h' queue' processes'
    /\ (elems h' processes', elems h' queue')
       = enqueue_arrived_l st (elems h processes) (elems h queue).
Proof.
  revert h processes queue.
  induction n as [|n IH]; intros h processes queue Hn Hg;
    pose proof Hg as (_ & _ & _ & Hwp & _);
    pose proof (elems_length _ _ Hwp) as Hlen.
  - simpl. exists h, processes, queue. split_and!; [done..|].
    rewrite (elems_nil h processes) by done. done.
  - simpl. rewrite bool_decide_true by lia.
    rewrite index_Ok by lia. simpl.
    destruct (elems h processes) as [|p rest] eqn:Ep; [simpl in Hlen; lia|].
    simpl.
    destruct (ArrivalTime p <=? st) eqn:Earr.
    + destruct (append h queue p) as [h1 queue1] eqn:E1. unfold append in E1.
      destruct (good_append _ _ _ _ _ _ _ Hg E1) as (Hg1 & He1 & Ht1).
      destruct (good_slice_from_other _ _ _ _ 1 Hg1) as (ps1 & -> & Hg2 & He2); [lia|].
      simpl.
      destruct (IH h1 ps1 queue1) as (h' & ps' & q' & E & Hg' & He'); [|done|].
      { unfold slice_from in *. destruct Hg2 as (_ & _ & _ & Hw2 & _).
        pose proof (elems_length _ _ Hw2) as Hl2. rewrite He2, Ht1, Ep in Hl2.
        change (Z.to_nat 1) with 1%nat in Hl2. simpl in Hl2, Hlen.
        rewrite drop_0 in Hl2. lia. }
      exists h', ps', q'. split_and!; try done.
      rewrite He', He2, Ht1, Ep, He1. done.
    + exists h, processes, queue. split_and!; try done. by rewrite Ep.
Qed.

Lemma run_slice_sim h0 v h processes queue :
  good h0 h queue processes ->
  refines (rr_rel h0) (run_slice v h processes queue)
          (run_slice_l (rr_view_of v) (elems h processes) (elems h queue)).
Proof.
  intros Hg. pose proof Hg as (_ & Hwq & _).
  pose proof (elems_length _ _ Hwq) as Hlen.
  unfold run_slice, run_slice_l.
  rewrite index_head by done.
  destruct (elems h queue) as [|p rest] eqn:Eq; simpl in Hlen; [done|].
  simpl.
  destruct (good_slice_from _ _ _ _ 1 Hg) as (q1 & -> & Hg1 & He1); [lia|].
  rewrite Eq in He1. simpl in He1. rewrite drop_0 in He1. simpl.
  destruct (minimum (BurstDuration p) quantum_time =? BurstDuration p) eqn:Efin.
  - destruct (store_row _ _ _) as [schedule|e|]; simpl; try done.
    split; [done|]. unfold rr_view_of. simpl. by rewrite He1.
  - destruct (append h q1 _) as [h2 q2] eqn:E2. unfold append in E2.
    destruct (good_append _ _ _ _ _ _ _ Hg1 E2) as (Hg2 & He2 & Ht2).
    destruct (store_row _ _ _) as [schedule|e|]; simpl; try done.
    split; [done|]. unfold rr_view_of. simpl. by rewrite He2, Ht2, He1.
Qed.

Lemma RR_body_sim h0 v :
  rr_inv h0 v -> refines (rr_rel h0) (RR_body v) (RR_body_l (rr_view_of v)).
Proof.
  intros Hinv. unfold RR_body, RR_body_l. simpl.
  destruct (enqueue_arrived_sim h0 (q_serviceTime v) (s_len (q_processes v))
              (q_heap v) (q_processes v) (q_queue v) eq_refl Hinv)
    as (h' & ps' & q' & -> & Hg' & <-).
  simpl. pose proof Hg' as (_ & Hwq & _ & Hwp & _).
  rewrite (elems_length _ _ Hwq).
  case_bool_decide.
  - by apply run_slice_sim.
  - rewrite index_head by done.
    destruct (head_l (elems h' ps')) as [p|e|]; simpl; try done.
Qed.

Lemma RR_cond_sim h0 v w : rr_rel h0 v w -> RR_cond v = RR_cond_l w.
Proof.
  intros [(_ & Hq & _ & Hp & _) <-]. unfold RR_cond, RR_cond_l. simpl.
  by rewrite !elems_length.
Qed.

(** Round-robin computes what its list form computes, and leaves the arrays
    that were in the heap as they were. *)
Lemma RRSchedule_refines fuel title h ps :
  wf h ps ->
  refines (fun r out => kept h r.1 /\ r.2 = out)
          (RRSchedule fuel title h ps) (RR_l fuel title (elems h ps)).
Proof.
  intros Hps. unfold RRSchedule, RR_l.
  apply refines_bind with (R := rr_rel h).
  - apply for_while_sim.
    + apply RR_cond_sim.
    + intros x y [Hinv <-]. by apply RR_body_sim.
    + split.
      * unfold rr_inv, good. simpl.
        split_and!; [apply kept_refl|apply wf_nil|apply owned_nil|done|apply apart_nil_l].
      * unfold rr_view_of, RR_init, RR_init_l. simpl.
        by rewrite (elems_nil h nil_slice), elems_length.
  - intros v w [(Hk & _) <-]. simpl. done.
Qed.

(** ** First-come, first-serve *)

Lemma add64_comm a b : add64 a b = add64 b a.
Proof. unfold add64. by rewrite Z.add_comm. Qed.

Lemma store_row_Ok (t : table) (i : nat) r :
  (i < length t)%nat -> store_row t (Z.of_nat i) r = Ok (<[i := Some r]> t).
Proof.
  intros Hi. unfold store_row. rewrite bool_decide_true by lia.
  by rewrite Nat2Z.id.
Qed.

Lemma FCFS_body_Ok h ps v (i : nat) p :
  (i < s_len ps)%nat -> elems h ps !! i = Some p -> (i < length (f_schedule v))%nat ->
  FCFS_body h ps v i
  = let waitingTime :=
      if 0 <? ArrivalTime p then sub64 (f_serviceTime v) (ArrivalTime p)
      else f_waitingTime v in
    let turnaround := add64 (BurstDuration p) waitingTime in
    let completion := add64 (add64 (BurstDuration p) (ArrivalTime p)) waitingTime in
    let serviceTime := add64 (f_serviceTime v) (BurstDuration p) in
    Ok (mkFcfs serviceTime
          (f64_add (f_totalWait v) (f64_of_int waitingTime))
          (f64_add (f_totalTurnaround v) (f64_of_int turnaround))
          (f64_of_int completion) waitingTime
          (<[i := Some (mkRow (ProcessID p) (Priority p) (BurstDuration p)
                              (ArrivalTime p) waitingTime turnaround completion)]>
             (f_schedule v))
          (f_gantt v ++ [mkTimeSlice (ProcessID p)
                           (add64 waitingTime (ArrivalTime p)) serviceTime])).
Proof.
  intros Hi Hp Hs. unfold FCFS_body.
  rewrite index_Ok by lia. rewrite Nat2Z.id, Hp. simpl.
  by rewrite store_row_Ok.
Qed.

Lemma FCFS_loop h ps :
  wf h ps ->
  forall rest (k : nat) v,
    drop k (elems h ps) = rest -> (k + length rest = s_len ps)%nat ->
    length (f_schedule v) = s_len ps ->
    exists v',
      for_range (FCFS_body h ps) (seq k (length rest)) v = Ok v'
      /\ f_schedule v'
         = take k (f_schedule v)
           ++ map Some (map fst (FCFS_spec (f_waitingTime v) (f_serviceTime v) rest))
      /\ f_gantt v'
         = f_gantt v ++ map snd (FCFS_spec (f_waitingTime v) (f_serviceTime v) rest)
      /\ f_totalWait v'
         = fsum (f_totalWait v)
             (map r_wait (map fst (FCFS_spec (f_waitingTime v) (f_serviceTime v) rest)))
      /\ f_totalTurnaround v'
         = fsum (f_totalTurnaround v)
             (map r_turnaround
                (map fst (FCFS_spec (f_waitingTime v) (f_serviceTime v) rest)))
      /\ f_lastCompletion v'
         = fold_left (fun _ r => f64_of_int (r_completion r))
             (map fst (FCFS_spec (f_waitingTime v) (f_serviceTime v) rest))
             (f_lastCompletion v).
Proof.
  intros Hwf rest. induction rest as [|p rest IH]; intros k v Hdrop Hk Hlen.
  - simpl in *. exists v. split_and!; try done.
    + rewrite app_nil_r, take_ge; [done|lia].
    + by rewrite app_nil_r.
  - cbn [length seq for_range]. simpl in Hk.
    assert (Hp : elems h ps !! k = Some p).
    { rewrite <- (Nat.add_0_r k), <- lookup_drop, Hdrop. done. }
    rewrite (FCFS_body_Ok h ps v k p) by (done || lia).
    cbn zeta. cbn [mbind result_mbind result_bind].
    match goal with |- context [for_range _ _ ?v1] => set (v1' := v1) end.
    destruct (IH (S k) v1') as (v' & E & Hs & Hg & Hw & Ht & Hc).
    { replace (S k) with (k + 1)%nat by lia. by rewrite <- drop_drop, Hdrop. }
    { lia. }
    { unfold v1'. simpl. by rewrite length_insert. }
    exists v'. split; [done|]. unfold v1' in *. simpl in *.
    split_and!.
    + rewrite Hs. erewrite take_S_r by (apply list_lookup_insert_eq; lia).
      rewrite take_insert_ge by lia. rewrite <- (assoc app). simpl.
      by rewrite (add64_comm (BurstDuration p) (ArrivalTime p)).
    + rewrite Hg. by rewrite <- (assoc app).
    + by rewrite Hw.
    + by rewrite Ht.
    + rewrite Hc. by rewrite (add64_comm (BurstDuration p) (ArrivalTime p)).
Qed.

Lemma FCFSSchedule_spec title h ps :
  wf h ps -> FCFSSchedule title h ps = Ok (h, FCFS_report title (elems h ps)).
Proof.
  intros Hwf. unfold FCFSSchedule.
  pose proof (elems_length h ps Hwf) as Hlen.
  destruct (FCFS_loop h ps Hwf (elems h ps) 0 (FCFS_init (s_len ps)))
    as (v' & E & Hs & Hg & Hw & Ht & Hc).
  { by rewrite drop_0. }
  { lia. }
  { unfold FCFS_init, make_table. simpl. by rewrite length_replicate. }
  rewrite Hlen in E. rewrite E. simpl.
  rewrite Hs, Hg, Hw, Ht, Hc. unfold FCFS_report. simpl. by rewrite Hlen.
Qed.

(** ** The preemptive loop on lists: arrivals *)

Lemma refines_Ok_l {C A : Type} (R : C -> A -> Prop) x a :
  refines R (Ok x) a -> exists y, a = Ok y /\ R x y.
Proof. destruct a; simpl; [eauto|done..]. Qed.

Lemma refines_Ok_r {C A : Type} (R : C -> A -> Prop) c y :
  refines R c (Ok y) -> exists x, c = Ok x /\ R x y.
Proof. destruct c; simpl; [eauto|done..]. Qed.

Lemma refines_Panic_l {C A : Type} (R : C -> A -> Prop) e a :
  refines R (Panic e) a -> a = Panic e.
Proof. destruct a; simpl; [done|by intros ->|done]. Qed.

Lemma ticks_sim less h0 n v w :
  sjf_rel h0 v w ->
  refines (sjf_rel h0) (ticks (sort_Slice less) n v) (ticks_l less n w).
Proof.
  revert v w. induction n as [|n IH]; intros v w Hvw; simpl; [done|].
  apply refines_bind with (R := sjf_rel h0); [|by apply IH].
  destruct Hvw as [Hinv <-]. by apply tick_sim.
Qed.

Lemma arrival_l_Some t k l i p :
  arrival_l t k l = Some (i, p) ->
  exists j, i = (k + j)%nat /\ l !! j = Some p /\ ArrivalTime p = t
    /\ forall j' q, (j' < j)%nat -> l !! j' = Some q -> ArrivalTime q <> t.
Proof.
  revert k. induction l as [|q l IH]; intros k; simpl; [done|].
  destruct (ArrivalTime q =? t) eqn:E.
  - intros [= <- <-]. exists 0%nat. split_and!; [lia|done|lia|lia].
  - intros H. destruct (IH _ H) as (j & -> & Hj & Hp & Hfirst).
    exists (S j). split_and!; [lia|done|done|].
    intros [|j'] q' Hlt; simpl.
    + intros [= <-]. lia.
    + apply Hfirst. lia.
Qed.

(** What one tick does to the clock and to the pending queue. *)
Lemma tick_l_pending less w w' :
  tick_l less w = Ok w' ->
  w_currentTime w' = add64 (w_currentTime w) 1
  /\ (w_pqA w' = w_pqA w
      \/ exists i p, w_pqA w !! i = Some p
           /\ ArrivalTime p = w_currentTime w'
           /\ (forall j q, (j < i)%nat -> w_pqA w !! j = Some q ->
                           ArrivalTime q <> w_currentTime w')
           /\ w_pqA w' = delete i (w_pqA w)
           /\ p ∈ w_pq w').
Proof.
  unfold tick_l. destruct (decrement_l w) as [d|e|]; simpl; try done.
  destruct (RemainingTime d =? 0).
  - unfold complete_l. destruct (store_row _ _ _); simpl; try done.
    destruct (tail_l (w_pq w)); simpl; try done.
    intros [= <-]. simpl. auto.
  - destruct (arrival_l _ 0 (w_pqA w)) as [[i p]|] eqn:E.
    + apply arrival_l_Some in E as (j & -> & Hj & Hp & Hfirst).
      unfold arrive_l. destruct (tail_l (w_pq w)) as [l| |]; simpl; try done.
      destruct (head_l _) as [q| |]; simpl; try done.
      intros [= <-]. simpl. split; [done|]. right. exists j, p.
      split_and!; try done.
      rewrite insertion_sort_perm, elem_of_app, elem_of_cons. auto.
    + intros [= <-]. simpl. auto.
Qed.

(** A pending process whose arrival time is not ahead of the clock stays
    pending for as long as the clock does not wrap around. *)
Lemma ticks_l_stays less n w w' q :
  ticks_l less n w = Ok w' ->
  q ∈ w_pqA w -> ArrivalTime q <= w_currentTime w ->
  - 2 ^ 63 <= w_currentTime w -> w_currentTime w + Z.of_nat n < 2 ^ 63 ->
  q ∈ w_pqA w' /\ w_currentTime w' = w_currentTime w + Z.of_nat n.
Proof.
  revert w. induction n as [|n IH]; intros w; simpl.
  - intros [= <-] Hq _ _ _. split; [done|lia].
  - destruct (tick_l less w) as [w1| |] eqn:E; simpl; try done.
    intros Hn Hq Harr Hlo Hhi.
    destruct (tick_l_pending _ _ _ E) as (Ht & Hp).
    assert (Ht1 : w_currentTime w1 = w_currentTime w + 1).
    { rewrite Ht. unfold add64, wrap64.
      rewrite Z.mod_small; lia. }
    destruct (IH w1 Hn) as (Hq' & Ht'); try lia.
    + destruct Hp as [->|(i & p & Hi & Hpa & _ & -> & _)]; [done|].
      apply list_elem_of_lookup in Hq as (j & Hj).
      destruct (decide (i = j)) as [->|Hne].
      * assert (p = q) as -> by congruence. lia.
      * apply list_elem_of_lookup.
        destruct (decide (j < i)%nat).
        -- exists j. by rewrite list_lookup_delete_lt.
        -- exists (j - 1)%nat. rewrite list_lookup_delete_ge by lia.
           rewrite <- Hj. f_equal. lia.
    + split; [done|lia].
Qed.

(** ** Loops that make progress *)

Lemma for_while_no_panic {S : Type} (I : S -> Prop) (cond : S -> bool)
    (body : S -> result S) :
  (forall s, I s -> cond s = true -> exists s', body s = Ok s' /\ I s') ->
  forall fuel s, I s ->
    for_while cond body fuel s = OutOfFuel
    \/ exists s', for_while cond body fuel s = Ok s' /\ I s' /\ cond s' = false.
Proof.
  intros Hbody. induction fuel as [|fuel IH]; intros s Hs; simpl; [by left|].
  destruct (cond s) eqn:Ec; [|right; eauto].
  destruct (Hbody s Hs Ec) as (s' & -> & Hs'). simpl. by apply IH.
Qed.

Lemma for_while_terminates {S : Type} (I : S -> Prop) (m : S -> nat)
    (cond : S -> bool) (body : S -> result S) :
  (forall s, I s -> cond s = true ->
             exists s', body s = Ok s' /\ I s' /\ (m s' < m s)%nat) ->
  forall fuel s, I s -> (m s < fuel)%nat ->
    exists s', for_while cond body fuel s = Ok s' /\ I s' /\ cond s' = false.
Proof.
  intros Hbody. induction fuel as [|fuel IH]; intros s Hs Hm; [lia|]. simpl.
  destruct (cond s) eqn:Ec; [|eauto].
  destruct (Hbody s Hs Ec) as (s' & -> & Hs' & Hlt). simpl. apply IH; [done|lia].
Qed.

(** ** Machine arithmetic *)

Lemma wrap64_id z : int64_range z -> wrap64 z = z.
Proof.
  unfold int64_range, wrap64. intros H. rewrite Z.mod_small; lia.
Qed.

Lemma wrap64_range z : int64_range (wrap64 z).
Proof.
  unfold int64_range, wrap64.
  pose proof (Z.mod_pos_bound (z + 2 ^ 63) (2 ^ 64) ltac:(lia)). lia.
Qed.

(** ** Round-robin on lists: safety and progress *)

Lemma enqueue_arrived_l_spec st ps q ps' q' :
  enqueue_arrived_l st ps q = (ps', q') ->
  exists moved, ps = moved ++ ps' /\ q' = q ++ moved
    /\ match ps' with p :: _ => st < ArrivalTime p | [] => True end.
Proof.
  revert q. induction ps as [|p ps IH]; intros q; simpl.
  - intros [= <- <-]. exists []. rewrite !app_nil_r. by split_and!.
  - destruct (ArrivalTime p <=? st) eqn:E.
    + intros H. destruct (IH _ H) as (moved & -> & -> & Hhd).
      exists (p :: moved). rewrite <- (assoc app). by split_and!.
    + intros [= <- <-]. exists []. rewrite !app_nil_r. split_and!; [done..|lia].
Qed.

Lemma minimum_finished b : (minimum b quantum_time =? b) = (b <=? 2).
Proof.
  unfold minimum, quantum_time.
  destruct (b <? 2) eqn:E1, (b <=? 2) eqn:E2; lia.
Qed.

Lemma slices_left_pos p : (1 <= slices_left p)%nat.
Proof. unfold slices_left. lia. Qed.

Lemma slices_left_residual p st :
  2 < BurstDuration p < 2 ^ 63 ->
  S (slices_left (residual p st 2)) = slices_left p.
Proof.
  intros Hb. unfold slices_left, residual. simpl.
  unfold sub64. rewrite wrap64_id by (unfold int64_range; lia).
  replace (BurstDuration p + 1) with ((BurstDuration p - 2 + 1) + 1 * 2) by lia.
  rewrite Z.div_add by lia.
  assert (0 < (BurstDuration p - 2 + 1) / 2) by (apply Z.div_str_pos; lia).
  lia.
Qed.

Lemma indexed_by_id_store rows (i : Z) r rows' :
  indexed_by_id rows -> store_row rows i r = Ok rows' -> i = r_id r - 1 ->
  indexed_by_id rows'.
Proof.
  unfold store_row. intros Hidx. case_bool_decide as Hi; [|done].
  intros [= <-] -> j r' Hj.
  destruct (decide (j = Z.to_nat (r_id r - 1))) as [->|Hne].
  - rewrite list_lookup_insert_eq in Hj by lia. injection Hj as <-. lia.
  - rewrite list_lookup_insert_ne in Hj by done. by apply Hidx.
Qed.

Lemma store_row_length rows i r rows' :
  store_row rows i r = Ok rows' -> length rows' = length rows.
Proof.
  unfold store_row. case_bool_decide; [|done]. intros [= <-].
  by rewrite length_insert.
Qed.

Lemma RR_body_l_step w :
  rr_ok w -> RR_cond_l w = true ->
  exists w', RR_body_l w = Ok w' /\ rr_ok w'
    /\ (indexed_by_id (y_schedule w) -> indexed_by_id (y_schedule w'))
    /\ (bursts_bounded (y_processes w) -> bursts_bounded (y_queue w) ->
        bursts_bounded (y_processes w') /\ bursts_bounded (y_queue w')
        /\ (rr_measure w' < rr_measure w)%nat).
Proof.
  intros (Hps & Hq & HN) Hcond. unfold RR_body_l.
  destruct (enqueue_arrived_l _ _ _) as [ps' q'] eqn:E.
  apply enqueue_arrived_l_spec in E as (moved & Eps & -> & Hhd).
  unfold ids_in_range in Hps. rewrite Eps in Hps. apply Forall_app in Hps as [Hmv Hps'].
  case_bool_decide as Hlen.
  - (* a slice runs *)
    destruct (y_queue w ++ moved) as [|p rest] eqn:Eq; [simpl in Hlen; lia|].
    assert (Hq' : Forall (fun p => 1 <= ProcessID p <= Z.of_nat (length (y_schedule w)))
                         (p :: rest)).
    { rewrite <- Eq. apply Forall_app. done. }
    apply Forall_cons in Hq' as [Hp Hrest].
    unfold run_slice_l.
    assert (Hidx : sub64 (ProcessID p) 1 = ProcessID p - 1).
    { unfold sub64. apply wrap64_id. unfold int64_range. lia. }
    rewrite Hidx.
    destruct (store_row (y_schedule w) (ProcessID p - 1) _) as [rows'| |] eqn:Es;
      [|unfold store_row in Es; rewrite bool_decide_true in Es by lia; done..].
    pose proof (store_row_length _ _ _ _ Es) as Hl'.
    simpl. eexists. split; [done|]. rewrite minimum_finished.
    split_and!.
    + unfold rr_ok. simpl. rewrite Hl'. split_and!; [done| |done].
      destruct (BurstDuration p <=? 2); [done|].
      apply Forall_app. split; [done|]. constructor; [done|constructor].
    + simpl. intros Hix. eapply indexed_by_id_store; [done..|]. done.
    + intros Hbp Hbq. unfold bursts_bounded in Hbp, Hbq.
      rewrite Eps in Hbp. apply Forall_app in Hbp as [Hbm Hbp'].
      assert (Hb' : Forall (fun p => BurstDuration p < 2 ^ 63) (p :: rest)).
      { rewrite <- Eq. apply Forall_app. done. }
      apply Forall_cons in Hb' as [Hbpp Hbrest].
      simpl.
      assert (Hwork : (work_left (y_queue w) + work_left (y_processes w)
                       = slices_left p + work_left rest + work_left ps')%nat).
      { rewrite Eps. unfold work_left. rewrite sum_list_with_app.
        rewrite Nat.add_assoc, <- sum_list_with_app, Eq. cbn [sum_list_with]. lia. }
      assert (Hidle : forall w', (idle w' <= 1)%nat).
      { intros w'. unfold idle. repeat case_match; lia. }
      unfold rr_measure. rewrite Hwork. cbn [y_queue y_processes].
      pose proof (slices_left_pos p).
      destruct (BurstDuration p <=? 2) eqn:Efin.
      * split_and!; [done|done|].
        match goal with |- context [idle ?w'] => pose proof (Hidle w') end. lia.
      * assert (Hmin : minimum (BurstDuration p) quantum_time = 2).
        { unfold minimum, quantum_time. destruct (BurstDuration p <? 2) eqn:?; lia. }
        rewrite Hmin.
        pose proof (slices_left_residual p
                      (add64 (y_serviceTime w) 2) ltac:(lia)) as Hres.
        split_and!; [done| |].
        -- apply Forall_app. split; [done|]. constructor; [|constructor]. simpl.
           unfold sub64. rewrite wrap64_id by (unfold int64_range; lia). lia.
        -- unfold work_left. rewrite sum_list_with_app. cbn [sum_list_with].
           match goal with |- context [idle ?w'] => pose proof (Hidle w') end.
           unfold work_left in *. lia.
  - (* the clock moves to the next arrival *)
    assert (y_queue w = [] /\ moved = []) as [Eq0 ->].
    { destruct (y_queue w), moved; simpl in *; try done; lia. }
    simpl in Eps. subst ps'. rewrite Eq0. simpl.
    unfold RR_cond_l in Hcond. rewrite Eq0 in Hcond. simpl in Hcond.
    destruct (y_processes w) as [|p ps] eqn:Ep; [done|]. simpl.
    eexists. split; [done|]. split_and!.
    + unfold rr_ok. simpl. split_and!; [done|constructor|done].
    + done.
    + intros Hbp Hbq. simpl. split_and!; [done|constructor|].
      unfold rr_measure, idle. simpl. rewrite Eq0, ?Ep. simpl.
      rewrite Z.ltb_irrefl.
      destruct (y_serviceTime w <? ArrivalTime p) eqn:El; lia.
Qed.

(** ** The preemptive loop on lists: progress *)

Lemma remaining_app l k : remaining (l ++ k) = remaining l + remaining k.
Proof. induction l as [|p l IH]; simpl; [done|]. rewrite IH. lia. Qed.

Lemma remaining_perm l k : l ≡ₚ k -> remaining l = remaining k.
Proof. induction 1; simpl; lia. Qed.

Lemma remaining_nonneg l : Forall rem_ok l -> 0 <= remaining l.
Proof. induction 1 as [|p l [Hp _] _ IH]; simpl; lia. Qed.

Lemma remaining_delete l i p :
  l !! i = Some p -> remaining (delete i l) = remaining l - RemainingTime p.
Proof.
  revert i. induction l as [|q l IH]; intros [|i]; simpl; try done.
  - intros [= ->]. lia.
  - intros H. rewrite (IH _ H). lia.
Qed.

Lemma remaining_loaded ps : remaining (loaded ps) = total_burst ps.
Proof. induction ps as [|p ps IH]; simpl; [done|]. by rewrite IH. Qed.

Lemma tick_l_step less w :
  sjf_ok w -> running_l w = true ->
  exists w', tick_l less w = Ok w' /\ sjf_ok w'
    /\ length (w_schedule w') = length (w_schedule w)
    /\ (sjf_measure w' < sjf_measure w)%nat.
Proof.
  intros (Hr & HpqA & Htl & Hzero & Hnz & Hc0 & Hcount & HN) Hrun.
  unfold running_l in Hrun. apply bool_decide_eq_true in Hrun.
  destruct (w_pq w) as [|hd tl] eqn:Epq; [simpl in Hrun; lia|]. simpl in Htl.
  pose proof (remaining_nonneg _ Htl) as Hn1.
  pose proof (remaining_nonneg _ HpqA) as Hn2.
  (* the process that runs in this tick, before the decrement *)
  assert (exists cur,
            decrement_l w = Ok (set_RemainingTime cur (RemainingTime cur - 1))
            /\ 1 <= RemainingTime cur < 2 ^ 63
            /\ sjf_measure w
               = Z.to_nat (RemainingTime cur + remaining tl + remaining (w_pqA w)))
    as (cur & Hd & Hcur & Hm).
  { unfold decrement_l, sjf_measure. rewrite Epq.
    destruct (RemainingTime (w_process w) =? 0) eqn:E.
    - exists hd. apply Z.eqb_eq in E. specialize (Hzero E).
      apply Forall_cons in Hzero as [Hhd _]. unfold rem_ok in Hhd. simpl.
      unfold sub64. rewrite wrap64_id by (unfold int64_range; lia).
      split_and!; [done|lia|lia|f_equal; lia].
    - exists (w_process w). simpl.
      unfold sub64. rewrite wrap64_id by (unfold int64_range; lia).
      split_and!; [done|lia|lia|f_equal; lia]. }
  set (d := set_RemainingTime cur (RemainingTime cur - 1)) in *.
  unfold tick_l. rewrite Hd. simpl.
  destruct (RemainingTime cur - 1 =? 0) eqn:Ed.
  - (* the process completes *)
    unfold complete_l. rewrite Epq. simpl.
    unfold store_row. rewrite bool_decide_true by (simpl in Hcount; lia).
    simpl. eexists. split; [done|]. split_and!.
    + unfold sjf_ok. simpl. rewrite length_insert.
      assert (add64 (w_count w) 1 = w_count w + 1) as ->.
      { unfold add64. apply wrap64_id. unfold int64_range. simpl in Hcount. lia. }
      split_and!; try done; try lia.
      * by destruct tl; [constructor|inversion Htl].
      * simpl in Hcount. lia.
    + simpl. by rewrite length_insert.
    + rewrite Hm. unfold sjf_measure. simpl. rewrite Ed. lia.
  - destruct (arrival_l _ 0 (w_pqA w)) as [[i p]|] eqn:Ea.
    + (* a process arrives *)
      apply arrival_l_Some in Ea as (j & -> & Hj & _ & _). simpl.
      unfold arrive_l. rewrite Epq. simpl.
      pose proof (insertion_sort_perm less (tl ++ [p; d])) as Hperm.
      assert (Hall : Forall rem_ok (insertion_sort less (tl ++ [p; d]))).
      { rewrite Hperm. apply Forall_app. split; [done|].
        constructor; [exact (Forall_lookup_1 _ _ _ _ HpqA Hj)|].
        constructor; [|constructor].
        unfold rem_ok, d. simpl. lia. }
      pose proof (Permutation_length Hperm) as Hlen.
      rewrite length_app in Hlen. simpl in Hlen.
      pose proof (remaining_perm _ _ Hperm) as Hrem.
      rewrite remaining_app in Hrem. simpl in Hrem.
      destruct (insertion_sort less (tl ++ [p; d])) as [|q pq'] eqn:Es;
        [simpl in Hlen; lia|].
      simpl. eexists. split; [done|].
      apply Forall_cons in Hall as [Hq Hpq'].
      pose proof (remaining_nonneg _ Hpq').
      pose proof (remaining_delete _ _ _ Hj) as Hdel.
      pose proof (lookup_lt_Some _ _ _ Hj) as Hjlt.
      split_and!.
      * unfold sjf_ok. simpl. unfold rem_ok in Hq.
        split_and!; try done; try lia.
        -- by apply Forall_delete.
        -- rewrite length_delete by done. simpl in Hcount, Hlen. lia.
      * done.
      * rewrite Hm. unfold sjf_measure. simpl.
        unfold rem_ok in Hq.
        assert ((RemainingTime q =? 0) = false) as -> by lia.
        rewrite Hdel. simpl in Hrem. lia.
    + (* nothing arrives *)
      eexists. split; [done|]. split_and!.
      * unfold sjf_ok. simpl. rewrite Epq. simpl.
        split_and!; try done; try lia.
      * done.
      * rewrite Hm. unfold sjf_measure. simpl. rewrite Ed, Epq. simpl. lia.
Qed.

Lemma init_l_ok ps :
  ps <> [] -> bursts_positive ps -> Z.of_nat (length ps) < 2 ^ 63 ->
  exists w, init_l ps = Ok w /\ sjf_ok w
    /\ length (w_schedule w) = length ps
    /\ sjf_measure w = Z.to_nat (total_burst ps).
Proof.
  intros Hne Hb HN. unfold init_l.
  pose proof (insertion_sort_perm lessArrival (loaded ps)) as Hperm.
  assert (Hall : Forall rem_ok (insertion_sort lessArrival (loaded ps))).
  { rewrite Hperm. unfold loaded. apply Forall_fmap. eapply Forall_impl; [done|].
    by intros p Hp. }
  pose proof (Permutation_length Hperm) as Hlen.
  unfold loaded in Hlen at 2. rewrite length_map in Hlen.
  pose proof (remaining_perm _ _ Hperm) as Hrem. rewrite remaining_loaded in Hrem.
  destruct (insertion_sort lessArrival (loaded ps)) as [|process pqA];
    [destruct ps; simpl in Hlen; done|].
  apply Forall_cons in Hall as [Hp HpqA].
  eexists. split; [done|]. unfold rem_ok in Hp.
  split_and!.
  - unfold sjf_ok, make_table. simpl. rewrite length_replicate.
    split_and!; try done; try (simpl in Hlen; lia); try (intros; lia).
  - unfold make_table. simpl. by rewrite length_replicate.
  - unfold sjf_measure. simpl.
    assert ((RemainingTime process =? 0) = false) as -> by lia.
    simpl in Hrem. f_equal. lia.
Qed.

(** On a valid input the preemptive loop ends, within as many ticks as the
    bursts add up to, and fills a table of as many rows as processes. *)
Lemma preemptive_l_terminates less title ps :
  ps <> [] -> bursts_positive ps -> Z.of_nat (length ps) < 2 ^ 63 ->
  exists rows wait turnaround throughput,
    preemptive_l less (S (Z.to_nat (total_burst ps))) title ps
    = Ok [outputTitle title; outputSchedule rows wait turnaround throughput]
    /\ length rows = length ps.
Proof.
  intros Hne Hb HN. unfold preemptive_l.
  destruct (init_l_ok ps Hne Hb HN) as (w0 & -> & Hok & Hlen & Hm).
  rewrite bind_Ok.
  destruct (for_while_terminates
              (fun w => sjf_ok w /\ length (w_schedule w) = length ps)
              sjf_measure running_l (tick_l less)) with
    (fuel := S (Z.to_nat (total_burst ps))) (s := w0)
    as (w' & -> & [Hok' Hlen'] & _).
  - intros w [Hw Hl] Hrun.
    destruct (tick_l_step less w Hw Hrun) as (w' & E & Hw' & Hl' & Hlt).
    exists w'. split_and!; try done. congruence.
  - done.
  - lia.
  - simpl. unfold report_l. eauto 10.
Qed.

(** ** Round-robin on lists: the whole run *)

Lemma RR_init_l_ok ps :
  ids_in_range (length ps) ps -> Z.of_nat (length ps) < 2 ^ 63 ->
  rr_ok (RR_init_l ps) /\ indexed_by_id (y_schedule (RR_init_l ps))
  /\ length (y_schedule (RR_init_l ps)) = length ps.
Proof.
  intros Hids HN. unfold RR_init_l, rr_ok, make_table. simpl.
  rewrite length_replicate. split_and!; try done.
  - constructor.
  - intros i r Hi. apply lookup_replicate in Hi as [? _]. done.
Qed.

Lemma RR_l_safe fuel title ps :
  ids_in_range (length ps) ps -> Z.of_nat (length ps) < 2 ^ 63 ->
  RR_l fuel title ps = OutOfFuel
  \/ exists gantt rows wait turnaround throughput,
       RR_l fuel title ps
       = Ok [outputTitle title; outputGantt gantt;
             outputSchedule rows wait turnaround throughput]
       /\ length rows = length ps /\ indexed_by_id rows.
Proof.
  intros Hids HN. unfold RR_l.
  destruct (RR_init_l_ok ps Hids HN) as (Hok & Hix & Hlen).
  destruct (for_while_no_panic
              (fun w => rr_ok w /\ indexed_by_id (y_schedule w)
                        /\ length (y_schedule w) = length ps)
              RR_cond_l RR_body_l) with (fuel := fuel) (s := RR_init_l ps)
    as [->|(w' & -> & (Hok' & Hix' & Hlen') & _)].
  - intros w (Hw & Hi & Hl) Hc.
    destruct (RR_body_l_step w Hw Hc) as (w' & E & Hw' & Hi' & _).
    exists w'. split_and!; try done; [by apply Hi'|].
    destruct Hw' as (_ & _ & _). 
    unfold RR_body_l in E. destruct (enqueue_arrived_l _ _ _) as [ps' q'].
    case_bool_decide.
    + unfold run_slice_l in E. destruct q'; [done|].
      destruct (store_row _ _ _) as [rows'| |] eqn:Es; simpl in E; try done.
      injection E as <-. simpl. apply store_row_length in Es. congruence.
    + destruct (head_l ps'); simpl in E; try done. by injection E as <-.
  - done.
  - by left.
  - right. simpl. unfold RR_report_l. eauto 10.
Qed.

Lemma RR_l_terminates title ps :
  ids_in_range (length ps) ps -> Z.of_nat (length ps) < 2 ^ 63 ->
  bursts_bounded ps ->
  exists r, RR_l (2 * work_left ps + 2) title ps = Ok r.
Proof.
  intros Hids HN Hb. unfold RR_l.
  destruct (RR_init_l_ok ps Hids HN) as (Hok & _ & _).
  destruct (for_while_terminates rr_total rr_measure RR_cond_l RR_body_l)
    with (fuel := (2 * work_left ps + 2)%nat) (s := RR_init_l ps)
    as (w' & -> & _ & _).
  - intros w (Hw & Hbp & Hbq) Hc.
    destruct (RR_body_l_step w Hw Hc) as (w' & E & Hw' & _ & Hprog).
    destruct (Hprog Hbp Hbq) as (Hbp' & Hbq' & Hlt).
    exists w'. by split_and!.
  - split_and!; [done|done|constructor].
  - unfold rr_measure, RR_init_l. simpl.
    assert (Hidle : forall w', (idle w' <= 1)%nat).
    { intros w'. unfold idle. repeat case_match; lia. }
    match goal with |- context [idle ?w'] => pose proof (Hidle w') end.
    unfold work_left in *. simpl. lia.
  - simpl. eauto.
Qed.

(** ** Rows of the preemptive schedulers *)

Lemma rows_from_store ps rows i r rows' :
  rows_from ps rows -> store_row rows i r = Ok rows' ->
  row_consistent r -> (exists p, p ∈ ps /\ describes p r) ->
  rows_from ps rows'.
Proof.
  unfold store_row. intros Hrows. case_bool_decide; [|done]. intros [= <-] Hc Hd r' Hr'.
  apply list_elem_of_lookup in Hr' as (j & Hj).
  destruct (decide (j = Z.to_nat i)) as [->|Hne].
  - rewrite list_lookup_insert_eq in Hj by lia. by injection Hj as <-.
  - rewrite list_lookup_insert_ne in Hj by done.
    apply Hrows, list_elem_of_lookup. eauto.
Qed.

Lemma tick_l_rows less ps w w' :
  sjf_rows ps w -> tick_l less w = Ok w' -> sjf_rows ps w'.
Proof.
  intros (Hp & Hpq & HpqA & Hrows). unfold tick_l.
  assert (Hdec : forall d, decrement_l w = Ok d -> copy_of ps d).
  { unfold decrement_l. intros d.
    destruct (RemainingTime (w_process w) =? 0).
    - destruct (w_pq w) as [|hd tl]; simpl; [done|].
      intros [= <-]. apply Forall_cons in Hpq as [Hhd _]. done.
    - intros [= <-]. done. }
  destruct (decrement_l w) as [d| |]; simpl; try done.
  specialize (Hdec d eq_refl).
  destruct (RemainingTime d =? 0).
  - unfold complete_l.
    destruct (store_row _ _ _) as [rows'| |] eqn:Es; simpl; try done.
    destruct (w_pq w) as [|hd tl]; simpl; [done|].
    intros [= <-]. unfold sjf_rows. simpl.
    apply Forall_cons in Hpq as [_ Htl].
    split_and!; try done.
    eapply rows_from_store; [done..| |].
    + by split.
    + destruct Hdec as (p & Hin & ? & ? & ? & ?). exists p. by split.
  - destruct (arrival_l _ 0 (w_pqA w)) as [[i p]|] eqn:Ea.
    + apply arrival_l_Some in Ea as (j & -> & Hj & _ & _). simpl.
      unfold arrive_l. destruct (w_pq w) as [|hd tl]; simpl; [done|].
      apply Forall_cons in Hpq as [_ Htl].
      assert (Hall : Forall (copy_of ps) (insertion_sort less (tl ++ [p; d]))).
      { rewrite insertion_sort_perm. apply Forall_app. split; [done|].
        constructor; [exact (Forall_lookup_1 _ _ _ _ HpqA Hj)|].
        constructor; [done|constructor]. }
      destruct (insertion_sort less (tl ++ [p; d])) as [|q pq']; simpl; [done|].
      intros [= <-]. unfold sjf_rows. simpl.
      split_and!; try done.
      * by apply Forall_cons in Hall as [? _].
      * by apply Forall_delete.
    + intros [= <-]. by unfold sjf_rows.
Qed.

Lemma init_l_rows ps w : init_l ps = Ok w -> sjf_rows ps w.
Proof.
  unfold init_l.
  assert (Hall : Forall (copy_of ps) (insertion_sort lessArrival (loaded ps))).
  { rewrite insertion_sort_perm. unfold loaded. apply Forall_fmap, Forall_forall.
    intros p Hp. exists p. by split_and!. }
  destruct (insertion_sort lessArrival (loaded ps)) as [|q pqA]; [done|].
  intros [= <-]. apply Forall_cons in Hall as [Hq HpqA].
  unfold sjf_rows. simpl. split_and!; try done.
  - by constructor.
  - intros r Hr. unfold make_table in Hr. apply elem_of_replicate in Hr as [? _]. done.
Qed.

Lemma for_while_invariant {S : Type} (I : S -> Prop) (cond : S -> bool)
    (body : S -> result S) :
  (forall s s', I s -> body s = Ok s' -> I s') ->
  forall fuel s s', I s -> for_while cond body fuel s = Ok s' -> I s'.
Proof.
  intros Hbody. induction fuel as [|fuel IH]; intros s s' Hs; simpl; [done|].
  destruct (cond s); [|by intros [= <-]].
  destruct (body s) as [s1| |] eqn:E; simpl; try done.
  apply IH. by eapply Hbody.
Qed.

Lemma preemptive_l_rows less fuel title ps out rows a b c :
  preemptive_l less fuel title ps = Ok out ->
  outputSchedule rows a b c ∈ out -> rows_from ps rows.
Proof.
  unfold preemptive_l.
  destruct (init_l ps) as [w0| |] eqn:E0; simpl; try done.
  destruct (for_while _ _ _ _) as [w| |] eqn:E; simpl; try done.
  intros [= <-] Hin.
  assert (Hw : sjf_rows ps w).
  { eapply (for_while_invariant (sjf_rows ps)); [|by apply init_l_rows|done].
    intros s s'. apply tick_l_rows. }
  unfold report_l in Hin.
  apply elem_of_cons in Hin as [?|Hin]; [done|].
  apply list_elem_of_singleton in Hin. injection Hin as -> _ _ _.
  by destruct Hw as (_ & _ & _ & ?).
Qed.

(** ** Rows of first-come, first-serve *)

Lemma wrap64_spec z : exists k, wrap64 z = z + k * 2 ^ 64.
Proof.
  unfold wrap64. exists (- ((z + 2 ^ 63) / 2 ^ 64)).
  pose proof (Z.div_mod (z + 2 ^ 63) (2 ^ 64) ltac:(lia)). lia.
Qed.

Lemma wrap64_congr x y k : x = y + k * 2 ^ 64 -> wrap64 x = wrap64 y.
Proof.
  intros ->. unfold wrap64. f_equal.
  replace (y + k * 2 ^ 64 + 2 ^ 63) with (y + 2 ^ 63 + k * 2 ^ 64) by lia.
  apply Z_mod_plus_full.
Qed.

Lemma FCFS_row_consistent arrival burst wait :
  int64_range wait ->
  add64 burst wait = sub64 (add64 (add64 arrival burst) wait) arrival
  /\ wait = sub64 (add64 burst wait) burst.
Proof.
  intros Hw. unfold add64, sub64. split.
  - destruct (wrap64_spec (arrival + burst)) as [k1 ->].
    destruct (wrap64_spec (arrival + burst + k1 * 2 ^ 64 + wait)) as [k2 ->].
    symmetry. apply (wrap64_congr _ _ (k1 + k2)). lia.
  - destruct (wrap64_spec (burst + wait)) as [k ->].
    rewrite <- (wrap64_id wait) at 1 by done.
    symmetry. apply (wrap64_congr _ _ k). lia.
Qed.

Lemma FCFS_spec_rows wait st ps :
  int64_range wait ->
  Forall2 (fun p x => describes p x.1 /\ row_consistent x.1 /\ PID x.2 = ProcessID p)
          ps (FCFS_spec wait st ps).
Proof.
  revert wait st. induction ps as [|p ps IH]; intros wait st Hw; simpl; [constructor|].
  set (wait' := if 0 <? ArrivalTime p then sub64 st (ArrivalTime p) else wait).
  assert (Hw' : int64_range wait').
  { unfold wait'. destruct (0 <? ArrivalTime p); [apply wrap64_range|done]. }
  constructor; [|by apply IH].
  split_and!; simpl; [by split_and!| |done].
  split; simpl; by apply FCFS_row_consistent.
Qed.

Lemma FCFS_spec_length wait st ps : length (FCFS_spec wait st ps) = length ps.
Proof.
  revert wait st. induction ps as [|p ps IH]; intros wait st; simpl; [done|].
  by rewrite IH.
Qed.

Lemma FCFS_rows_from ps : rows_from ps (map Some (map fst (FCFS_spec 0 0 ps))).
Proof.
  intros r Hr. apply list_elem_of_fmap in Hr as (r' & [= <-] & Hr).
  apply list_elem_of_fmap in Hr as (x & -> & Hx).
  apply list_elem_of_lookup in Hx as (i & Hi).
  pose proof (FCFS_spec_rows 0 0 ps ltac:(unfold int64_range; lia)) as H2.
  destruct (Forall2_lookup_r _ _ _ _ _ H2 Hi) as (p & Hp & Hd & Hc & _).
  split; [done|]. exists p. split; [|done]. apply list_elem_of_lookup. eauto.
Qed.

(** ** The comparators *)

Lemma lessArrival_orders : orders_by lessArrival keyArrival lex2.
Proof.
  unfold orders_by, lessArrival, keyArrival, lex2. split_and!.
  - intros a b. simpl.
    rewrite orb_true_iff, andb_true_iff, !Z.ltb_lt, Z.eqb_eq. done.
  - intros a. rewrite orb_false_iff, andb_false_iff, !Z.ltb_ge. lia.
  - intros a b c.
    rewrite !orb_true_iff, !andb_true_iff, !Z.ltb_lt, !Z.eqb_eq. lia.
  - intros a b.
    rewrite !orb_true_iff, !andb_true_iff, !Z.ltb_lt, !Z.eqb_eq.
    destruct (Z.lt_total (ArrivalTime a) (ArrivalTime b)) as [?|[E1|?]];
      [left; lia| |right; left; lia].
    destruct (Z.lt_total (BurstDuration a) (BurstDuration b)) as [?|[E2|?]];
      [left; lia| |right; left; lia].
    right; right. by rewrite E1, E2.
Qed.

Lemma lessDeploy_orders : orders_by lessDeploy keyDeploy lex2.
Proof.
  unfold orders_by, lessDeploy, keyDeploy, lex2. split_and!.
  - intros a b. simpl.
    rewrite orb_true_iff, andb_true_iff, !Z.ltb_lt, Z.eqb_eq. done.
  - intros a. rewrite orb_false_iff, andb_false_iff, !Z.ltb_ge. lia.
  - intros a b c.
    rewrite !orb_true_iff, !andb_true_iff, !Z.ltb_lt, !Z.eqb_eq. lia.
  - intros a b.
    rewrite !orb_true_iff, !andb_true_iff, !Z.ltb_lt, !Z.eqb_eq.
    destruct (Z.lt_total (RemainingTime a) (RemainingTime b)) as [?|[E1|?]];
      [left; lia| |right; left; lia].
    destruct (Z.lt_total (ArrivalTime a) (ArrivalTime b)) as [?|[E2|?]];
      [left; lia| |right; left; lia].
    right; right. by rewrite E1, E2.
Qed.

Lemma lessPriority_orders : orders_by lessPriority keyPriority lex3.
Proof.
  unfold orders_by, lessPriority, keyPriority, lex3. split_and!.
  - intros a b. simpl.
    rewrite !orb_true_iff, !andb_true_iff, !Z.ltb_lt, !Z.eqb_eq. tauto.
  - intros a. rewrite !orb_false_iff, !andb_false_iff, !Z.ltb_ge. lia.
  - intros a b c.
    rewrite !orb_true_iff, !andb_true_iff, !Z.ltb_lt, !Z.eqb_eq. lia.
  - intros a b.
    rewrite !orb_true_iff, !andb_true_iff, !Z.ltb_lt, !Z.eqb_eq.
    destruct (Z.lt_total (Priority a) (Priority b)) as [?|[E1|?]];
      [left; lia| |right; left; lia].
    destruct (Z.lt_total (BurstDuration a) (BurstDuration b)) as [?|[E2|?]];
      [left; lia| |right; left; lia].
    destruct (Z.lt_total (ArrivalTime a) (ArrivalTime b)) as [?|[E3|?]];
      [left; lia| |right; left; lia].
    right; right. by rewrite E1, E2, E3.
Qed.

(** ** From lists back to the heap *)

Lemma kept_wf_elems h h' s :
  kept h h' -> wf h s -> wf h' s /\ elems h' s = elems h s.
Proof.
  intros [Hlen Htake] [Hl Hc].
  destruct (decide (s_arr s < length h)%nat) as [Ha|Ha].
  - assert (Hb : backing h' s = backing h s).
    { unfold backing. f_equal. rewrite <- Htake. by rewrite lookup_take_lt. }
    unfold wf, elems. rewrite Hb. done.
  - assert (Hb0 : backing h s = []).
    { unfold backing. by rewrite lookup_ge_None_2 by lia. }
    rewrite Hb0 in Hc. simpl in Hc.
    split; [split; [done|lia]|]. rewrite !elems_nil; [done|lia..].
Qed.

Lemma preemptive_schedule_Ok less fuel title h ps h' out :
  wf h ps ->
  preemptive_schedule (sort_Slice less) fuel title h ps = Ok (h', out) ->
  kept h h' /\ preemptive_l less fuel title (elems h ps) = Ok out.
Proof.
  intros Hwf E. pose proof (preemptive_schedule_refines less fuel title h ps Hwf) as H.
  rewrite E in H. apply refines_Ok_l in H as (out' & -> & Hk & <-). done.
Qed.

Lemma preemptive_schedule_of_l less fuel title h ps out :
  wf h ps -> preemptive_l less fuel title (elems h ps) = Ok out ->
  exists h', preemptive_schedule (sort_Slice less) fuel title h ps = Ok (h', out).
Proof.
  intros Hwf E. pose proof (preemptive_schedule_refines less fuel title h ps Hwf) as H.
  rewrite E in H. apply refines_Ok_r in H as ([h' out'] & -> & _ & <-). eauto.
Qed.

Lemma RRSchedule_Ok fuel title h ps h' out :
  wf h ps -> RRSchedule fuel title h ps = Ok (h', out) ->
  kept h h' /\ RR_l fuel title (elems h ps) = Ok out.
Proof.
  intros Hwf E. pose proof (RRSchedule_refines fuel title h ps Hwf) as H.
  rewrite E in H. apply refines_Ok_l in H as (out' & -> & Hk & <-). done.
Qed.

Lemma RRSchedule_of_l fuel title h ps out :
  wf h ps -> RR_l fuel title (elems h ps) = Ok out ->
  exists h', RRSchedule fuel title h ps = Ok (h', out).
Proof.
  intros Hwf E. pose proof (RRSchedule_refines fuel title h ps Hwf) as H.
  rewrite E in H. apply refines_Ok_r in H as ([h' out'] & -> & _ & <-). eauto.
Qed.

Lemma preemptive_schedule_more_fuel sortQueue n k title h ps r :
  preemptive_schedule sortQueue n title h ps = Ok r ->
  preemptive_schedule sortQueue (n + k) title h ps = Ok r.
Proof.
  unfold preemptive_schedule.
  destruct (preemptive_init h ps) as [v0| |]; simpl; try done.
  destruct (for_while running (tick sortQueue) n v0) as [v| |] eqn:E; simpl; try done.
  by rewrite (for_while_more_fuel _ _ _ k _ _ E).
Qed.

Lemma RRSchedule_more_fuel n k title h ps r :
  RRSchedule n title h ps = Ok r -> RRSchedule (n + k) title h ps = Ok r.
Proof.
  unfold RRSchedule.
  destruct (for_while RR_cond RR_body n _) as [v| |] eqn:E; simpl; try done.
  by rewrite (for_while_more_fuel _ _ _ k _ _ E).
Qed.

Lemma reached_inv less h ps v0 k v :
  wf h ps -> preemptive_init h ps = Ok v0 ->
  ticks (sort_Slice less) k v0 = Ok v -> sjf_inv h v.
Proof.
  intros Hwf E0 Ek.
  pose proof (init_sim h ps Hwf) as H0. rewrite E0 in H0.
  apply refines_Ok_l in H0 as (w0 & _ & Hrel).
  pose proof (ticks_sim less h k v0 w0 Hrel) as Hk. rewrite Ek in Hk.
  apply refines_Ok_l in Hk as (w & _ & Hinv & _). done.
Qed.

Lemma tick_view less h0 v v' :
  sjf_inv h0 v -> tick (sort_Slice less) v = Ok v' ->
  sjf_inv h0 v' /\ tick_l less (view v) = Ok (view v').
Proof.
  intros Hinv E. pose proof (tick_sim less h0 v Hinv) as H. rewrite E in H.
  apply refines_Ok_l in H as (w & -> & Hinv' & <-). done.
Qed.

Lemma ticks_view less h0 n v v' :
  sjf_inv h0 v -> ticks (sort_Slice less) n v = Ok v' ->
  sjf_inv h0 v' /\ ticks_l less n (view v) = Ok (view v').
Proof.
  intros Hinv E.
  pose proof (ticks_sim less h0 n v (view v) (conj Hinv eq_refl)) as H.
  rewrite E in H. apply refines_Ok_l in H as (w & -> & Hinv' & <-). done.
Qed.

(** The states the loop goes through are iterates of [tick]. *)
Lemma for_while_ticks sortQueue fuel v v' :
  for_while running (tick sortQueue) fuel v = Ok v' ->
  exists n, ticks sortQueue n v = Ok v'.
Proof.
  revert v. induction fuel as [|fuel IH]; intros v; simpl; [done|].
  destruct (running v); [|intros [= <-]; by exists 0%nat].
  destruct (tick sortQueue v) as [v1| |] eqn:E; simpl; try done.
  intros H. destruct (IH _ H) as (n & Hn). exists (S n). simpl. by rewrite E.
Qed.

(** The branch of completion leaves the pending queue alone. *)
Lemma complete_keeps_pending v d t v' :
  complete v d t = Ok v' ->
  j_pqA v' = j_pqA v /\ j_currentTime v' = t /\ CompleteTime (j_process v') = t.
Proof.
  unfold complete. destruct (store_row _ _ _); simpl; try done.
  destruct (RemoveProcess _ _ _) as [[h pq]| |]; simpl; try done.
  by intros [= <-].
Qed.

(** * The properties of the specification *)

(** C1, as the code has it.  For [FCFSSchedule], [SJFSchedule] and
    [SJFPrioritySchedule], every row written to the schedule table is the
    row of a process of the input and satisfies [turnaround = completion -
    arrival] and [wait = turnaround - burst] in [int64] arithmetic.  Nothing
    is said of the signs, nor of [RRSchedule]. *)
Theorem emitted_rows_consistent (fuel : nat) (title : string) (h : heap)
    (processes : slice) (h' : heap) (out : list output) (rows : list (option Row))
    (wait turnaround throughput : float64) :
  wf h processes ->
  FCFSSchedule title h processes = Ok (h', out)
  \/ SJFSchedule fuel title h processes = Ok (h', out)
  \/ SJFPrioritySchedule fuel title h processes = Ok (h', out) ->
  outputSchedule rows wait turnaround throughput ∈ out ->
  rows_from (elems h processes) rows.
Proof.
  intros Hwf [E|[E|E]] Hin.
  - rewrite FCFSSchedule_spec in E by done. injection E as _ <-.
    unfold FCFS_report in Hin.
    apply elem_of_cons in Hin as [?|Hin]; [done|].
    apply elem_of_cons in Hin as [?|Hin]; [done|].
    apply list_elem_of_singleton in Hin. injection Hin as -> _ _ _.
    apply FCFS_rows_from.
  - apply preemptive_schedule_Ok in E as [_ E]; [|done].
    by eapply preemptive_l_rows.
  - apply preemptive_schedule_Ok in E as [_ E]; [|done].
    by eapply preemptive_l_rows.
Qed.

(** An instance: the rows of [SJFSchedule] on the textbook input. *)
Lemma emitted_rows_consistent_witness :
  wf (load textbook) (slice_of 0 textbook)
  /\ exists h' rows wait turnaround throughput,
       SJFSchedule 27 "Shortest-job-first" (load textbook) (slice_of 0 textbook)
       = Ok (h', [outputTitle "Shortest-job-first";
                  outputSchedule rows wait turnaround throughput])
       /\ rows_from textbook rows.
Proof.
  assert (Hwf : wf (load textbook) (slice_of 0 textbook)).
  { unfold wf. simpl. lia. }
  split; [exact Hwf|].
  eexists _, _, _, _, _. split; [vm_compute; reflexivity|].
  eapply (emitted_rows_consistent 27 "Shortest-job-first" (load textbook)
            (slice_of 0 textbook)).
  - exact Hwf.
  - right; left. vm_compute. reflexivity.
  - apply elem_of_cons. right. apply elem_of_cons. left. reflexivity.
Defined.

(** C1 as stated fails.  First-come, first-serve gives the process that
    arrives at 5 the wait -5 and the turnaround -2; round-robin records for
    the process that arrived at 0 and completed at 5 the turnaround 1. *)
Lemma wait_and_turnaround_counterexample :
  (exists h' timeline wait turnaround throughput r,
     FCFSSchedule "First-come, first-serve" (load late) (slice_of 0 late)
     = Ok (h', [outputTitle "First-come, first-serve"; outputGantt timeline;
                outputSchedule [Some r] wait turnaround throughput])
     /\ r_wait r = -5 /\ r_turnaround r = -2)
  /\ (exists h' timeline wait turnaround throughput r,
        RRSchedule 4 "Round-robin" (load single) (slice_of 0 single)
        = Ok (h', [outputTitle "Round-robin"; outputGantt timeline;
                   outputSchedule [Some r] wait turnaround throughput])
        /\ r_id r = 1 /\ r_completion r = 5 /\ r_turnaround r = 1
        /\ r_turnaround r <> r_completion r - ArrivalTime (proc 1 0 5 0)).
Proof.
  split.
  - eexists _, _, _, _, _, _. split; [vm_compute; reflexivity|]. by simpl.
  - eexists _, _, _, _, _, _. split; [vm_compute; reflexivity|]. by simpl.
Qed.

(** C2.  [FCFSSchedule] goes through the input in input order; at each
    process the wait becomes [serviceTime - arrivalTime] only when the
    arrival time is positive and is otherwise the wait of the previous
    iteration; [start = wait + arrival], [turnaround = burst + wait],
    [completion = arrival + burst + wait]; the service clock then grows by
    the burst.  [FCFS_report] is that description. *)
Theorem FCFS_follows_input_order (title : string) (h : heap) (processes : slice) :
  wf h processes ->
  FCFSSchedule title h processes = Ok (h, FCFS_report title (elems h processes)).
Proof. apply FCFSSchedule_spec. Qed.

(** An instance: an input that is not sorted by arrival is taken in its own
    order, and its second process, which arrives at 0, reuses the wait -5. *)
Lemma FCFS_follows_input_order_witness :
  wf (load unsorted) (slice_of 0 unsorted)
  /\ exists wait turnaround throughput,
       FCFSSchedule "First-come, first-serve" (load unsorted) (slice_of 0 unsorted)
       = Ok (load unsorted,
             [outputTitle "First-come, first-serve";
              outputGantt [mkTimeSlice 1 0 3; mkTimeSlice 2 (-5) 5];
              outputSchedule [Some (mkRow 1 0 3 5 (-5) (-2) 3);
                              Some (mkRow 2 0 2 0 (-5) (-3) (-3))]
                             wait turnaround throughput]).
Proof.
  assert (Hwf : wf (load unsorted) (slice_of 0 unsorted)).
  { unfold wf. simpl. lia. }
  split; [exact Hwf|].
  eexists _, _, _.
  rewrite (FCFS_follows_input_order "First-come, first-serve" (load unsorted)
             (slice_of 0 unsorted) Hwf).
  vm_compute. reflexivity.
Defined.

(** C3.  On the four processes of the textbook example [SJFSchedule]
    starts with process 1, and the first tick hands the processor to
    process 2, leaving process 1 queued with 7 ticks to go; the rows are
    recorded at the completion times 5 (process 2), 10 (process 4),
    17 (process 1) and 26 (process 3).  A tick decrements, then checks for
    completion, then scans for an arrival: a tick on which the running
    process completes records the new clock as its completion time and
    leaves the pending queue alone, so that process 2 of [meeting], which
    arrives on the tick on which process 1 completes, is never taken. *)
Theorem SJF_textbook_trace (title : string) (k : nat) :
  (exists v0 v1,
     preemptive_init (load textbook) (slice_of 0 textbook) = Ok v0
     /\ ProcessID (j_process v0) = 1
     /\ tick sortDeployQueue v0 = Ok v1
     /\ j_currentTime v1 = 1
     /\ ProcessID (j_process v1) = 2
     /\ map (fun p => (ProcessID p, RemainingTime p)) (ready v1) = [(2, 4); (1, 7)])
  /\ (exists h' wait turnaround throughput,
        SJFSchedule (27 + k) title (load textbook) (slice_of 0 textbook)
        = Ok (h', [outputTitle title;
                   outputSchedule [Some (mkRow 2 0 4 1 0 4 5);
                                   Some (mkRow 4 0 5 3 2 7 10);
                                   Some (mkRow 1 0 8 0 9 17 17);
                                   Some (mkRow 3 0 9 2 15 24 26)]
                                  wait turnaround throughput]))
  /\ (forall sortQueue v,
        tick sortQueue v
        = (process ← decrement v;
           if RemainingTime process =? 0
           then complete v process (add64 (j_currentTime v) 1)
           else arrival_scan sortQueue v process (add64 (j_currentTime v) 1)
                  (seq 0 (s_len (j_pqA v)))))
  /\ (forall sortQueue v process v',
        decrement v = Ok process -> RemainingTime process = 0 ->
        tick sortQueue v = Ok v' ->
        j_pqA v' = j_pqA v
        /\ j_currentTime v' = add64 (j_currentTime v) 1
        /\ CompleteTime (j_process v') = add64 (j_currentTime v) 1)
  /\ (exists h' wait turnaround throughput,
        SJFSchedule (3 + k) title (load meeting) (slice_of 0 meeting)
        = Ok (h', [outputTitle title;
                   outputSchedule [Some (mkRow 1 0 2 0 0 2 2); None]
                                  wait turnaround throughput])).
Proof.
  split_and!.
  - eexists _, _. split_and!; [vm_compute; reflexivity|done|vm_compute; reflexivity|done..].
  - eexists _, _, _, _. apply preemptive_schedule_more_fuel. vm_compute. reflexivity.
  - done.
  - intros sortQueue v d v' Hd Hz. unfold tick. rewrite Hd, bind_Ok.
    rewrite Hz. simpl. apply complete_keeps_pending.
  - eexists _, _, _, _. apply preemptive_schedule_more_fuel. vm_compute. reflexivity.
Qed.

(** An instance: the second tick on [meeting] completes process 1 at clock 2
    and leaves process 2, which arrives at 2, pending. *)
Lemma SJF_textbook_trace_witness :
  exists v0 v1 v2,
    preemptive_init (load meeting) (slice_of 0 meeting) = Ok v0
    /\ tick sortDeployQueue v0 = Ok v1
    /\ tick sortDeployQueue v1 = Ok v2
    /\ map ArrivalTime (pending v1) = [2]
    /\ j_pqA v2 = j_pqA v1
    /\ j_currentTime v2 = 2
    /\ CompleteTime (j_process v2) = 2.
Proof.
  eexists _, _, _.
  split; [vm_compute; reflexivity|].
  split; [vm_compute; reflexivity|].
  split; [vm_compute; reflexivity|].
  split; [reflexivity|].
  eapply (proj1 (proj2 (proj2 (proj2 (SJF_textbook_trace "Shortest-job-first" 0))))
            sortDeployQueue).
  - vm_compute. reflexivity.
  - reflexivity.
  - vm_compute. reflexivity.
Defined.

(** C4, as the code has it.  On an empty input [FCFSSchedule] returns an
    empty timeline and an empty table without error; its three aggregates
    are the quotient 0/0, which is not a number. *)
Theorem FCFS_empty_input (title : string) (h : heap) (processes : slice) :
  s_len processes = 0%nat ->
  FCFSSchedule title h processes
  = Ok (h, [outputTitle title; outputGantt [];
            outputSchedule [] S754_nan S754_nan S754_nan]).
Proof.
  intros H. unfold FCFSSchedule. rewrite H. vm_compute. reflexivity.
Qed.

(** An instance: the empty input as [loadProcesses] makes it. *)
Lemma FCFS_empty_input_witness :
  FCFSSchedule "First-come, first-serve" (load []) (slice_of 0 [])
  = Ok (load [], [outputTitle "First-come, first-serve"; outputGantt [];
                  outputSchedule [] S754_nan S754_nan S754_nan]).
Proof.
  apply (FCFS_empty_input "First-come, first-serve" (load []) (slice_of 0 [])).
  reflexivity.
Defined.

(** C4 as stated fails.  On the empty input both preemptive schedulers
    panic on [pqA.processes[0]], and the averages of [FCFSSchedule] are not
    numbers. *)
Lemma empty_input_counterexample :
  SJFSchedule 10 "Shortest-job-first" (load []) (slice_of 0 [])
  = Panic IndexOutOfRange
  /\ SJFPrioritySchedule 10 "Priority" (load []) (slice_of 0 [])
     = Panic IndexOutOfRange
  /\ exists timeline rows wait turnaround throughput,
       FCFSSchedule "First-come, first-serve" (load []) (slice_of 0 [])
       = Ok (load [], [outputTitle "First-come, first-serve"; outputGantt timeline;
                       outputSchedule rows wait turnaround throughput])
       /\ f64_is_nan wait = true /\ f64_is_nan turnaround = true.
Proof.
  split_and!; [vm_compute; reflexivity..|].
  eexists _, _, _, _, _. split_and!; [vm_compute; reflexivity|done..].
Qed.

(** C5, as the code has it.  [FCFSSchedule], on every input, hands over a
    timeline of one interval per process, a table of one row per process
    and the three aggregates.  [SJFSchedule] and [SJFPrioritySchedule], on
    every input that is not empty and has positive bursts, end and hand over
    a table of as many rows as processes and the three aggregates, and no
    timeline.  [RRSchedule], on every input whose ids are 1 to n, ends and
    hands over a timeline, the table and the three aggregates. *)
Theorem schedulers_output (title : string) (h : heap) (processes : slice) :
  wf h processes -> Z.of_nat (s_len processes) < 2 ^ 63 ->
  (exists timeline rows wait turnaround throughput,
     FCFSSchedule title h processes
     = Ok (h, [outputTitle title; outputGantt timeline;
               outputSchedule rows wait turnaround throughput])
     /\ length timeline = s_len processes /\ length rows = s_len processes
     /\ Forall is_Some rows)
  /\ (s_len processes <> 0%nat -> bursts_positive (elems h processes) ->
      exists fuel,
        (exists h' rows wait turnaround throughput,
           SJFSchedule fuel title h processes
           = Ok (h', [outputTitle title;
                      outputSchedule rows wait turnaround throughput])
           /\ length rows = s_len processes)
        /\ (exists h' rows wait turnaround throughput,
              SJFPrioritySchedule fuel title h processes
              = Ok (h', [outputTitle title;
                         outputSchedule rows wait turnaround throughput])
              /\ length rows = s_len processes))
  /\ (ids_in_range (s_len processes) (elems h processes) ->
      bursts_bounded (elems h processes) ->
      exists fuel h' timeline rows wait turnaround throughput,
        RRSchedule fuel title h processes
        = Ok (h', [outputTitle title; outputGantt timeline;
                   outputSchedule rows wait turnaround throughput])
        /\ length rows = s_len processes).
Proof.
  intros Hwf HN. pose proof (elems_length h processes Hwf) as Hlen.
  split_and!.
  - rewrite FCFSSchedule_spec by done. unfold FCFS_report.
    eexists _, _, _, _, _. split; [done|].
    rewrite !length_map, FCFS_spec_length.
    split_and!; [done..|].
    apply Forall_fmap, Forall_forall. by eexists.
  - intros Hne Hb.
    assert (Hne' : elems h processes <> []).
    { intros E. rewrite E in Hlen. simpl in Hlen. lia. }
    rewrite <- Hlen in HN.
    exists (S (Z.to_nat (total_burst (elems h processes)))). split.
    + destruct (preemptive_l_terminates lessDeploy title _ Hne' Hb HN)
        as (rows & a & b & c & E & Hl).
      destruct (preemptive_schedule_of_l _ _ _ _ _ _ Hwf E) as (h' & E').
      exists h', rows, a, b, c. split; [done|congruence].
    + destruct (preemptive_l_terminates lessPriority title _ Hne' Hb HN)
        as (rows & a & b & c & E & Hl).
      destruct (preemptive_schedule_of_l _ _ _ _ _ _ Hwf E) as (h' & E').
      exists h', rows, a, b, c. split; [done|congruence].
  - intros Hids Hb. rewrite <- Hlen in HN, Hids.
    destruct (RR_l_terminates title _ Hids HN Hb) as (r & E).
    destruct (RR_l_safe (2 * work_left (elems h processes) + 2) title _ Hids HN)
      as [E'|(g & rows & a & b & c & E' & Hl & _)]; [congruence|].
    destruct (RRSchedule_of_l _ _ _ _ _ Hwf E') as (h' & E'').
    eexists _, h', g, rows, a, b, c. split; [exact E''|congruence].
Qed.

(** An instance: [SJFSchedule] ends on the textbook input. *)
Lemma schedulers_output_witness :
  exists fuel h' rows wait turnaround throughput,
    SJFSchedule fuel "Shortest-job-first" (load textbook) (slice_of 0 textbook)
    = Ok (h', [outputTitle "Shortest-job-first";
               outputSchedule rows wait turnaround throughput])
    /\ length rows = 4%nat.
Proof.
  assert (Hwf : wf (load textbook) (slice_of 0 textbook)).
  { unfold wf. simpl. lia. }
  assert (HN : Z.of_nat (s_len (slice_of 0 textbook)) < 2 ^ 63).
  { simpl. lia. }
  destruct (schedulers_output "Shortest-job-first" (load textbook)
              (slice_of 0 textbook) Hwf HN) as (_ & Hsjf & _).
  destruct Hsjf as (fuel & (h' & rows & a & b & c & E & Hl) & _).
  - simpl. lia.
  - unfold bursts_positive. simpl. repeat constructor; simpl; lia.
  - exists fuel, h', rows, a, b, c. split; [exact E|exact Hl].
Defined.

(** C5 as stated fails.  On the textbook input, which is valid, neither
    preemptive scheduler hands over a timeline; and round-robin panics on
    the valid single process whose id is 5. *)
Lemma timeline_counterexample :
  (exists h' out,
     SJFSchedule 27 "Shortest-job-first" (load textbook) (slice_of 0 textbook)
     = Ok (h', out)
     /\ forall timeline, outputGantt timeline ∉ out)
  /\ (exists h' out,
        SJFPrioritySchedule 27 "Priority" (load textbook) (slice_of 0 textbook)
        = Ok (h', out)
        /\ forall timeline, outputGantt timeline ∉ out)
  /\ RRSchedule 10 "Round-robin" (load stray) (slice_of 0 stray)
     = Panic IndexOutOfRange.
Proof.
  split_and!.
  - eexists _, _. split; [vm_compute; reflexivity|].
    intros g Hin. apply elem_of_cons in Hin as [?|Hin]; [done|].
    by apply list_elem_of_singleton in Hin.
  - eexists _, _. split; [vm_compute; reflexivity|].
    intros g Hin. apply elem_of_cons in Hin as [?|Hin]; [done|].
    by apply list_elem_of_singleton in Hin.
  - vm_compute. reflexivity.
Qed.

(** C6, as the code has it.  Each comparator is the strict lexicographic
    order on its keys, in the order of the tie-break chain: arrival time
    then burst; remaining time then arrival time; priority, then burst, then
    arrival time.  Each is irreflexive, transitive, and total up to equality
    of the keys.  Sorting by them changes no process: the slice holds the
    same processes afterwards. *)
Theorem comparators_order_by_keys :
  orders_by lessArrival keyArrival lex2
  /\ orders_by lessDeploy keyDeploy lex2
  /\ orders_by lessPriority keyPriority lex3
  /\ (forall less h s, wf h s -> elems (sort_Slice less h s) s ≡ₚ elems h s).
Proof.
  split_and!.
  - apply lessArrival_orders.
  - apply lessDeploy_orders.
  - apply lessPriority_orders.
  - intros less h s Hwf.
    destruct (sort_Slice_spec less h s Hwf) as (_ & _ & ->).
    apply insertion_sort_perm.
Qed.

(** An instance: transitivity through a process of the same arrival time,
    and a sorted slice that holds the processes it held. *)
Lemma comparators_order_by_keys_witness :
  lessArrival (proc 1 0 5 0) (proc 3 1 2 0) = true
  /\ elems (sort_Slice lessArrival (load tied) (slice_of 0 tied)) (slice_of 0 tied)
     ≡ₚ tied.
Proof.
  split.
  - apply (proj1 (proj2 (proj2 (proj1 comparators_order_by_keys)))
             (proc 1 0 5 0) (proc 2 0 7 0) (proc 3 1 2 0)); reflexivity.
  - apply (proj2 (proj2 (proj2 comparators_order_by_keys))
             lessArrival (load tied) (slice_of 0 tied)).
    unfold wf. simpl. lia.
Defined.

(** C6 as stated fails.  Two different processes with the same keys are
    ordered by none of the comparators, so none is a total order on
    processes; the sort then leaves them in the order of the input. *)
Lemma comparators_counterexample :
  ~ total_order lessArrival /\ ~ total_order lessDeploy
  /\ ~ total_order lessPriority
  /\ insertion_sort lessArrival [proc 1 0 5 0; proc 2 0 5 0]
     = [proc 1 0 5 0; proc 2 0 5 0]
  /\ insertion_sort lessArrival [proc 2 0 5 0; proc 1 0 5 0]
     = [proc 2 0 5 0; proc 1 0 5 0].
Proof.
  assert (Hne : proc 1 0 5 0 <> proc 2 0 5 0) by done.
  split_and!; try done.
  - intros (_ & _ & Htot). by destruct (Htot _ _ Hne).
  - intros (_ & _ & Htot). by destruct (Htot _ _ Hne).
  - intros (_ & _ & Htot). by destruct (Htot _ _ Hne).
Qed.

(** C7.  Round-robin (quantum 2) on the single process (id 1, arrival 0,
    burst 5): the timeline is [0,2], [2,4], [4,5], all for process 1, and
    the row recorded for process 1 has completion 5 and wait 0.  The loop
    condition is evaluated four times; more fuel changes nothing. *)
Theorem RR_single_process (title : string) (k : nat) :
  exists h' wait turnaround throughput r,
    RRSchedule (4 + k) title (load single) (slice_of 0 single)
    = Ok (h', [outputTitle title;
               outputGantt [mkTimeSlice 1 0 2; mkTimeSlice 1 2 4; mkTimeSlice 1 4 5];
               outputSchedule [Some r] wait turnaround throughput])
    /\ r_id r = 1 /\ r_completion r = 5 /\ r_wait r = 0.
Proof.
  eexists _, _, _, _, _. split.
  - apply RRSchedule_more_fuel. vm_compute. reflexivity.
  - done.
Qed.

(** C8.  When a scheduler returns, every array the heap held before the
    call is as it was; so the caller's slice shows the same processes, and
    the next scheduler is given the same input. *)
Theorem schedulers_keep_input (fuel : nat) (title : string) (h : heap)
    (processes : slice) (h' : heap) (out : list output) :
  wf h processes ->
  FCFSSchedule title h processes = Ok (h', out)
  \/ SJFSchedule fuel title h processes = Ok (h', out)
  \/ SJFPrioritySchedule fuel title h processes = Ok (h', out)
  \/ RRSchedule fuel title h processes = Ok (h', out) ->
  take (length h) h' = h
  /\ wf h' processes
  /\ elems h' processes = elems h processes.
Proof.
  intros Hwf E.
  assert (Hk : kept h h').
  { destruct E as [E|[E|[E|E]]].
    - rewrite FCFSSchedule_spec in E by done. injection E as <- _. apply kept_refl.
    - by apply preemptive_schedule_Ok in E as [? _].
    - by apply preemptive_schedule_Ok in E as [? _].
    - by apply RRSchedule_Ok in E as [? _]. }
  destruct (kept_wf_elems h h' processes Hk Hwf) as [? ?].
  by destruct Hk.
Qed.

(** An instance: the three calls of [main], one after the other on the same
    slice. *)
Lemma schedulers_keep_input_witness :
  exists h1 out1 h2 out2 h3 out3,
    FCFSSchedule "First-come, first-serve" (load textbook) (slice_of 0 textbook)
    = Ok (h1, out1)
    /\ SJFSchedule 27 "Shortest-job-first" h1 (slice_of 0 textbook) = Ok (h2, out2)
    /\ SJFPrioritySchedule 27 "Priority" h2 (slice_of 0 textbook) = Ok (h3, out3)
    /\ elems h1 (slice_of 0 textbook) = textbook
    /\ elems h2 (slice_of 0 textbook) = textbook
    /\ elems h3 (slice_of 0 textbook) = textbook.
Proof.
  assert (Hwf : wf (load textbook) (slice_of 0 textbook)).
  { unfold wf. simpl. lia. }
  eexists _, _, _, _, _, _.
  split; [vm_compute; reflexivity|].
  split; [vm_compute; reflexivity|].
  split; [vm_compute; reflexivity|].
  split; [reflexivity|].
  split.
  - eapply (schedulers_keep_input 27 "Shortest-job-first" (load textbook)
              (slice_of 0 textbook)); [exact Hwf|].
    right; left. vm_compute. reflexivity.
  - vm_compute. reflexivity.
Defined.

(** C9.  In [SJFSchedule] and [SJFPrioritySchedule], a tick taken in any
    state of the loop moves at most one process from the pending queue to
    the ready queue: the first one whose arrival time is the new clock.  A
    pending process whose arrival time is that clock, or an earlier one, and
    which this tick left pending is pending after any number of further
    ticks (as long as the [int64] clock does not wrap around). *)
Theorem one_arrival_per_tick (sortQueue : heap -> slice -> heap) (h : heap)
    (processes : slice) (v0 : sjf_vars) (k : nat) (v v' : sjf_vars) :
  wf h processes ->
  sortQueue = sortDeployQueue \/ sortQueue = sortPriorityQueue ->
  preemptive_init h processes = Ok v0 ->
  ticks sortQueue k v0 = Ok v ->
  tick sortQueue v = Ok v' ->
  (pending v' = pending v
   \/ exists i p,
        pending v !! i = Some p
        /\ ArrivalTime p = j_currentTime v'
        /\ (forall j q, (j < i)%nat -> pending v !! j = Some q ->
                        ArrivalTime q <> j_currentTime v')
        /\ pending v' = delete i (pending v)
        /\ p ∈ ready v')
  /\ forall q n v'',
       q ∈ pending v' -> ArrivalTime q <= j_currentTime v' ->
       j_currentTime v' + Z.of_nat n < 2 ^ 63 ->
       ticks sortQueue n v' = Ok v'' ->
       q ∈ pending v''.
Proof.
  intros Hwf Hsort E0 Ek E.
  assert (exists less, sortQueue = sort_Slice less) as [less ->].
  { destruct Hsort as [->| ->]; [by exists lessDeploy|by exists lessPriority]. }
  pose proof (reached_inv less h processes v0 k v Hwf E0 Ek) as Hinv.
  destruct (tick_view less h v v' Hinv E) as [Hinv' El].
  destruct (tick_l_pending less _ _ El) as [Ht Hp].
  split; [exact Hp|].
  intros q n v'' Hq Harr Hn En.
  destruct (ticks_view less h n v' v'' Hinv' En) as [_ Eln].
  refine (proj1 (ticks_l_stays less n (view v') (view v'') q Eln Hq Harr _ Hn)).
  simpl in Ht |- *. rewrite Ht. apply wrap64_range.
Qed.

(** An instance: processes 2 and 3 of [tied] both arrive at 1; the first tick
    takes process 3, and process 2 is still pending six ticks later. *)
Lemma one_arrival_per_tick_witness :
  exists v0 v',
    preemptive_init (load tied) (slice_of 0 tied) = Ok v0
    /\ tick sortDeployQueue v0 = Ok v'
    /\ map ProcessID (pending v0) = [3; 2]
    /\ map ProcessID (pending v') = [2]
    /\ map ProcessID (ready v') = [3; 1]
    /\ exists v'', ticks sortDeployQueue 6 v' = Ok v''
                   /\ mkProcess 2 1 3 0 3 0 0 0 ∈ pending v''.
Proof.
  assert (Hwf : wf (load tied) (slice_of 0 tied)).
  { unfold wf. simpl. lia. }
  eexists _, _.
  split; [vm_compute; reflexivity|].
  split; [vm_compute; reflexivity|].
  split; [reflexivity|]. split; [reflexivity|]. split; [reflexivity|].
  match goal with
  | |- exists v'', ticks _ _ ?v1 = _ /\ _ =>
      assert (Hstay : forall v'', ticks sortDeployQueue 6 v1 = Ok v'' ->
                                  mkProcess 2 1 3 0 3 0 0 0 ∈ pending v'')
  end.
  { intros v'' E.
    eapply (proj2 (one_arrival_per_tick sortDeployQueue (load tied) (slice_of 0 tied)
                     _ 0 _ _ Hwf (or_introl eq_refl) _ _ _)).
    4: exact E.
    - vm_compute. apply elem_of_cons. left. reflexivity.
    - cbn [j_currentTime ArrivalTime]. lia.
    - cbn [j_currentTime]. lia.
    Unshelve.
    all: try match goal with |- preemptive_init _ _ = _ => vm_compute; reflexivity end.
    all: try match goal with |- ticks _ _ _ = _ => reflexivity end.
    all: match goal with |- tick _ _ = _ => vm_compute; reflexivity end. }
  eexists. split; [vm_compute; reflexivity|].
  apply Hstay. vm_compute. reflexivity.
Defined.

(** C10.  [RRSchedule] writes the row of a process at index
    [ProcessID - 1] of the table.  When every id of the input is between 1
    and the number of processes the scheduler never panics, whatever the
    fuel, and every row of the table it returns sits at the index its id
    names.  The single process of id 5 makes the index run out of range. *)
Theorem RR_row_index :
  (forall title h processes,
     wf h processes ->
     ids_in_range (s_len processes) (elems h processes) ->
     Z.of_nat (s_len processes) < 2 ^ 63 ->
     (forall fuel e, RRSchedule fuel title h processes <> Panic e)
     /\ (forall fuel h' out rows wait turnaround throughput,
           RRSchedule fuel title h processes = Ok (h', out) ->
           outputSchedule rows wait turnaround throughput ∈ out ->
           length rows = s_len processes /\ indexed_by_id rows))
  /\ (~ ids_in_range (length stray) stray
      /\ forall title fuel,
           RRSchedule (S fuel) title (load stray) (slice_of 0 stray)
           = Panic IndexOutOfRange).
Proof.
  split.
  - intros title h processes Hwf Hids HN.
    pose proof (elems_length h processes Hwf) as Hlen.
    rewrite <- Hlen in Hids, HN.
    split.
    + intros fuel e E.
      pose proof (RRSchedule_refines fuel title h processes Hwf) as H.
      rewrite E in H. apply refines_Panic_l in H.
      destruct (RR_l_safe fuel title _ Hids HN) as [E'|(? & ? & ? & ? & ? & E' & _)];
        congruence.
    + intros fuel h' out rows a b c E Hin.
      apply RRSchedule_Ok in E as [_ E]; [|done].
      destruct (RR_l_safe fuel title _ Hids HN)
        as [E'|(g & rows' & a' & b' & c' & E' & Hl & Hix)]; [congruence|].
      rewrite E in E'. injection E' as ->.
      apply elem_of_cons in Hin as [?|Hin]; [done|].
      apply elem_of_cons in Hin as [?|Hin]; [done|].
      apply list_elem_of_singleton in Hin. injection Hin as -> _ _ _.
      split; [congruence|done].
  - split.
    + intros H. apply Forall_cons in H as [H _]. simpl in H. lia.
    + intros title fuel. vm_compute. reflexivity.
Qed.

(** An instance: the single process of id 1. *)
Lemma RR_row_index_witness :
  wf (load single) (slice_of 0 single)
  /\ RRSchedule 4 "Round-robin" (load single) (slice_of 0 single)
     <> Panic IndexOutOfRange.
Proof.
  assert (Hwf : wf (load single) (slice_of 0 single)).
  { unfold wf. simpl. lia. }
  split; [exact Hwf|].
  apply (proj1 (proj1 RR_row_index "Round-robin" (load single) (slice_of 0 single)
                  Hwf
                  ltac:(unfold ids_in_range; simpl; repeat constructor; simpl; lia)
                  ltac:(simpl; lia))).
Defined.

(** * Further lemmas *)

(** ** The queue methods *)

(** The header of a queue from which an element was removed still reaches
    the cell that was its last: the array is shifted, not cleared. *)
Lemma RemoveProcess_array h s i h' s' :
  wf h s -> 0 <= i < Z.of_nat (s_len s) ->
  RemoveProcess h s i = Ok (h', s') ->
  elems h' s = delete (Z.to_nat i) (elems h s) ++ drop (s_len s - 1) (elems h s).
Proof.
  intros Hwf Hi E. pose proof Hwf as [Hl Hc].
  pose proof (elems_length h s Hwf) as Hlen.
  unfold RemoveProcess, slice_to, slice_from in E.
  rewrite !bool_decide_true in E by lia. simpl in E.
  unfold append_slice, append_list in E. simpl in E.
  set (r := mkSlice (s_arr s) (s_off s + Z.to_nat (i + 1))
                    (s_len s - Z.to_nat (i + 1)) (s_cap s - Z.to_nat (i + 1))) in *.
  assert (Hwr : wf h r).
  { split; simpl; [lia|]. unfold backing in *. simpl. lia. }
  pose proof (elems_length h r Hwr) as Hlr. simpl in Hlr.
  rewrite decide_True in E by lia. injection E as <- <-.
  assert (Harr : (s_arr s < length h)%nat) by (apply wf_cap_arr; [done|lia]).
  assert (Hr : elems h r = drop (S (Z.to_nat i)) (elems h s)).
  { unfold elems, backing, r. simpl.
    replace (Z.to_nat (i + 1)) with (S (Z.to_nat i)) by lia.
    rewrite <- drop_drop. apply take_sub_drop. lia. }
  assert (Hd : length (delete (Z.to_nat i) (elems h s)) = (s_len s - 1)%nat).
  { rewrite length_delete; [lia|]. apply lookup_lt_is_Some. lia. }
  apply list_eq. intros k. unfold elems at 1. rewrite backing_insert by done.
  change (backing h _) with (backing h s).
  destruct (decide (k < s_len s)%nat) as [Hk|Hk].
  - rewrite lookup_take_lt, lookup_drop by done.
    destruct (decide (k < Z.to_nat i)%nat) as [Hk1|Hk1].
    + rewrite blit_lookup_lt by lia.
      rewrite lookup_app_l by lia.
      rewrite list_lookup_delete_lt by done. by rewrite elems_lookup.
    + destruct (decide (k < s_len s - 1)%nat) as [Hk2|Hk2].
      * replace (s_off s + k)%nat with (s_off s + Z.to_nat i + (k - Z.to_nat i))%nat by lia.
        rewrite blit_lookup_mid by lia.
        rewrite lookup_app_l by lia.
        rewrite list_lookup_delete_ge by lia.
        rewrite Hr, lookup_drop. f_equal. lia.
      * assert (k = (s_len s - 1)%nat) as -> by lia.
        unfold blit. rewrite lookup_app_r by (rewrite length_take; lia).
        rewrite length_take, Nat.min_l by lia.
        rewrite lookup_app_r by lia.
        rewrite lookup_drop.
        rewrite lookup_app_r by lia.
        rewrite Hd.
        rewrite lookup_drop, elems_lookup by lia. f_equal. lia.
  - rewrite lookup_take_ge by lia. symmetry. apply lookup_ge_None.
    rewrite length_app, Hd, length_drop; lia.
Qed.

(** ** The sort puts the slice in order *)

Lemma pairwise_app R l k :
  pairwise R (l ++ k)
  <-> pairwise R l /\ pairwise R k /\ Forall (fun x => Forall (R x) k) l.
Proof.
  induction l as [|x l IH]; simpl.
  - split; [intros H; split; [exact I|split; [exact H|constructor]]|].
    intros (_ & H & _). exact H.
  - rewrite Forall_app, IH, Forall_cons. tauto.
Qed.

Lemma pairwise_rev R l : pairwise R (rev l) <-> pairwise (fun a b => R b a) l.
Proof.
  induction l as [|x l IH]; simpl; [done|].
  rewrite pairwise_app, IH. simpl.
  split.
  - intros (Hl & _ & Hall). split; [|done].
    apply Forall_forall. intros y Hy.
    rewrite Forall_forall in Hall.
    assert (Hy' : y ∈ rev l) by (by apply list_elem_of_In, in_rev; apply list_elem_of_In in Hy; rewrite rev_involutive).
    specialize (Hall y Hy'). by apply Forall_cons in Hall as [? _].
  - intros (Hx & Hl). split; [done|split; [by split|]].
    apply Forall_forall. intros y Hy. constructor; [|constructor].
    rewrite Forall_forall in Hx. apply Hx.
    apply list_elem_of_In. apply list_elem_of_In in Hy. by apply in_rev.
Qed.

Lemma pairwise_lookup R l (i j : nat) a b :
  pairwise R l -> (i < j)%nat -> l !! i = Some a -> l !! j = Some b -> R a b.
Proof.
  revert i j. induction l as [|x l IH]; intros i j; simpl; [done|].
  intros [Hx Hl] Hij Hi Hj. destruct i as [|i], j as [|j]; try lia; simpl in *.
  - injection Hi as ->. rewrite Forall_forall in Hx. apply Hx.
    apply list_elem_of_lookup. eauto.
  - apply (IH i j); [done|lia|done..].
Qed.

Lemma sink_elem less x before y : y ∈ sink less x before <-> y = x \/ y ∈ before.
Proof. by rewrite sink_perm, elem_of_cons. Qed.

(** The part already sorted, nearest predecessor first, stays sorted when an
    element sinks into it. *)
Lemma sink_pairwise less x before :
  weak_order less ->
  pairwise (fun a b => less a b = false) before ->
  pairwise (fun a b => less a b = false) (sink less x before).
Proof.
  intros [Hasym Hneg]. induction before as [|y r IH]; simpl; [done|].
  intros [Hy Hr]. destruct (less x y) eqn:E; simpl.
  - split; [|by apply IH].
    apply Forall_forall. intros e He. apply sink_elem in He as [->|He].
    + by apply Hasym.
    + rewrite Forall_forall in Hy. by apply Hy.
  - split_and!; [|done..].
    constructor; [done|].
    apply Forall_forall. intros e He.
    destruct (less x e) eqn:Ee; [|done].
    destruct (Hneg x y e Ee) as [?|Hye]; [congruence|].
    rewrite Forall_forall in Hy. specialize (Hy e He). congruence.
Qed.

Lemma insertion_sort_in_order less l :
  weak_order less -> in_order less (insertion_sort less l).
Proof.
  intros Hw.
  assert (H : forall acc, pairwise (fun a b => less a b = false) acc ->
                pairwise (fun a b => less a b = false)
                         (fold_left (fun before x => sink less x before) l acc)).
  { induction l as [|x l IH]; intros acc Hacc; simpl; [done|].
    apply IH. by apply sink_pairwise. }
  specialize (H [] I).
  intros i j a b Hij Hi Hj. unfold insertion_sort in Hi, Hj.
  eapply (pairwise_lookup (fun a b => less b a = false)); [|done..].
  by apply pairwise_rev.
Qed.

Lemma orders_by_weak_order {K : Type} less (key : Process -> K) lt :
  orders_by less key lt ->
  (forall x y z : K, lt x z -> lt x y \/ lt y z) ->
  weak_order less.
Proof.
  intros (Hiff & Hirr & Htrans & Htot) Hneg. split.
  - intros a b Hab. destruct (less b a) eqn:E; [|done].
    rewrite <- (Hirr a). symmetry. by eapply Htrans.
  - intros a b c Hac. apply Hiff in Hac.
    destruct (Hneg _ (key b) _ Hac) as [H|H]; apply Hiff in H; auto.
Qed.

Lemma lessArrival_weak_order : weak_order lessArrival.
Proof.
  apply (orders_by_weak_order _ _ _ lessArrival_orders).
  unfold lex2. intros [] [] []; simpl. lia.
Qed.

Lemma lessDeploy_weak_order : weak_order lessDeploy.
Proof.
  apply (orders_by_weak_order _ _ _ lessDeploy_orders).
  unfold lex2. intros [] [] []; simpl. lia.
Qed.

Lemma lessPriority_weak_order : weak_order lessPriority.
Proof.
  apply (orders_by_weak_order _ _ _ lessPriority_orders).
  unfold lex3. intros [[] ?] [[] ?] [[] ?]; simpl. lia.
Qed.

Lemma append_list_old h s vs h' s' :
  wf h s -> append_list h s vs = (h', s') -> elems h' s = elems h s.
Proof.
  intros Hwf E. pose proof Hwf as [Hl Hc].
  destruct (decide (s_len s = 0)%nat) as [H0|H0].
  { by rewrite !elems_nil. }
  assert (Harr : (s_arr s < length h)%nat) by (apply wf_cap_arr; [done|lia]).
  unfold append_list in E. destruct (decide _) in E; injection E as <- <-.
  - unfold elems. rewrite backing_insert by done.
    apply list_eq. intros k.
    destruct (decide (k < s_len s)%nat) as [Hk|Hk].
    + rewrite !lookup_take_lt, !lookup_drop by done.
      apply blit_lookup_lt; lia.
    + by rewrite !lookup_take_ge by lia.
  - unfold elems, backing. by rewrite lookup_app_l.
Qed.

Lemma RemoveProcess_header h s i h' s' :
  wf h s -> 0 <= i < Z.of_nat (s_len s) ->
  RemoveProcess h s i = Ok (h', s') ->
  s' = mkSlice (s_arr s) (s_off s) (s_len s - 1) (s_cap s) /\ length h' = length h.
Proof.
  intros Hwf Hi E. pose proof Hwf as [Hl Hc].
  unfold RemoveProcess, slice_to, slice_from in E.
  rewrite !bool_decide_true in E by lia. simpl in E.
  unfold append_slice, append_list in E. simpl in E.
  set (r := mkSlice (s_arr s) (s_off s + Z.to_nat (i + 1))
                    (s_len s - Z.to_nat (i + 1)) (s_cap s - Z.to_nat (i + 1))) in *.
  assert (Hwr : wf h r).
  { split; simpl; [lia|]. unfold backing in *. simpl. lia. }
  pose proof (elems_length h r Hwr) as Hlr. simpl in Hlr.
  rewrite decide_True in E by lia. injection E as <- <-.
  rewrite length_insert. split; [|done]. rewrite Hlr. f_equal. lia.
Qed.

(** ** First-come, first-serve without a pause *)

Lemma add64_sub64_cancel st a : int64_range st -> add64 (sub64 st a) a = st.
Proof.
  intros Hst. unfold add64, sub64.
  destruct (wrap64_spec (st - a)) as [k ->].
  rewrite <- (wrap64_id st) at 2 by done.
  apply (wrap64_congr _ _ k). lia.
Qed.

Lemma FCFS_spec_back_to_back wait st ps :
  int64_range st -> Forall (fun p => 0 < ArrivalTime p) ps ->
  map snd (FCFS_spec wait st ps) = back_to_back st ps.
Proof.
  revert wait st. induction ps as [|p ps IH]; intros wait st Hst Hall; simpl; [done|].
  apply Forall_cons in Hall as [Hp Hall].
  assert (E : (0 <? ArrivalTime p) = true) by (apply Z.ltb_lt; lia).
  rewrite E, add64_sub64_cancel by done.
  f_equal. apply IH; [apply wrap64_range|done].
Qed.

Lemma total_burst_app l k : total_burst (l ++ k) = total_burst l + total_burst k.
Proof. induction l as [|p l IH]; simpl; [done|]. unfold total_burst in *. simpl. lia. Qed.

Lemma total_burst_nonneg l :
  Forall (fun p => 0 <= BurstDuration p) l -> 0 <= total_burst l.
Proof.
  induction 1 as [|p l Hp _ IH]; unfold total_burst in *; simpl; lia.
Qed.

(** From a clock [st], with every arrival positive: the row of the process
    at index [i] and its interval, in plain integers. *)
Lemma FCFS_spec_plain wait st ps (i : nat) p x :
  0 <= st -> st + total_burst ps < 2 ^ 63 ->
  Forall (fun p => 0 <= BurstDuration p /\ 0 < ArrivalTime p < 2 ^ 63) ps ->
  ps !! i = Some p -> FCFS_spec wait st ps !! i = Some x ->
  let start := st + total_burst (take i ps) in
  r_wait x.1 = start - ArrivalTime p
  /\ r_turnaround x.1 = start + BurstDuration p - ArrivalTime p
  /\ r_completion x.1 = start + BurstDuration p
  /\ x.2 = mkTimeSlice (ProcessID p) start (start + BurstDuration p).
Proof.
  revert wait st i p x.
  induction ps as [|q ps IH]; intros wait st i p x Hst Hsum Hall Hp Hx; [done|].
  cbv zeta.
  apply Forall_cons in Hall as [(Hb & Ha) Hall].
  assert (Hrest : 0 <= total_burst ps).
  { apply total_burst_nonneg. eapply Forall_impl; [exact Hall|]. simpl. tauto. }
  change (total_burst (q :: ps)) with (BurstDuration q + total_burst ps) in Hsum.
  assert (E : (0 <? ArrivalTime q) = true) by (apply Z.ltb_lt; lia).
  simpl in Hx. rewrite E in Hx.
  assert (Hw : sub64 st (ArrivalTime q) = st - ArrivalTime q).
  { apply wrap64_id. unfold int64_range. lia. }
  assert (Hs : add64 st (BurstDuration q) = st + BurstDuration q).
  { apply wrap64_id. unfold int64_range. lia. }
  destruct i as [|i]; simpl in Hp, Hx.
  - injection Hp as <-. injection Hx as <-. simpl.
    change (total_burst []) with 0. rewrite Z.add_0_r.
    rewrite Hw, Hs. unfold add64.
    assert (Hc : wrap64 (wrap64 (ArrivalTime q + BurstDuration q) + (st - ArrivalTime q))
                 = st + BurstDuration q).
    { destruct (wrap64_spec (ArrivalTime q + BurstDuration q)) as [k ->].
      transitivity (wrap64 (st + BurstDuration q)).
      - apply (wrap64_congr _ _ k). lia.
      - apply wrap64_id. unfold int64_range. lia. }
    rewrite Hc. replace (st - ArrivalTime q + ArrivalTime q) with st by lia.
    rewrite !wrap64_id by (unfold int64_range; lia).
    split_and!; [lia..|done].
  - rewrite Hs in Hx.
    destruct (IH _ (st + BurstDuration q) i p x ltac:(lia) ltac:(lia) Hall Hp Hx)
      as (H1 & H2 & H3 & H4).
    change (total_burst (take (S i) (q :: ps)))
      with (BurstDuration q + total_burst (take i ps)).
    rewrite H1, H2, H3, H4. split_and!; [lia..|f_equal; lia].
Qed.

(** ** The preemptive loop, one tick at a time *)

Lemma for_while_exit {S : Type} (I : S -> Prop) (cond : S -> bool)
    (body : S -> result S) :
  (forall s s', I s -> cond s = true -> body s = Ok s' -> I s') ->
  forall fuel s s', I s -> for_while cond body fuel s = Ok s' ->
                     I s' /\ cond s' = false.
Proof.
  intros Hstep. induction fuel as [|fuel IH]; intros s s' Hs; simpl; [done|].
  destruct (cond s) eqn:Ec; [|by intros [= <-]].
  destruct (body s) as [s1| |] eqn:Eb; simpl; try done.
  apply IH. by eapply Hstep.
Qed.

(** The three things a tick can do, with the state each leaves. *)
Lemma tick_l_cases less w w' :
  sjf_ok w -> running_l w = true ->
  0 <= w_currentTime w -> w_currentTime w + 1 < 2 ^ 63 ->
  tick_l less w = Ok w' ->
  exists cur,
    ready_now w = cur :: tail (w_pq w) /\ 1 <= RemainingTime cur < 2 ^ 63
    /\ let d := set_RemainingTime cur (RemainingTime cur - 1) in
       let t := w_currentTime w + 1 in
       (RemainingTime cur = 1
        /\ w' = mkView (finish d t) (tail (w_pq w)) (w_pqA w) t (w_count w + 1)
                  (<[Z.to_nat (w_count w) := Some (row_of (finish d t))]> (w_schedule w))
                  (f64_add (w_totalWait w) (f64_of_int (WaitTime (finish d t))))
                  (f64_add (w_totalTurnaround w)
                           (f64_of_int (TurnAroundTime (finish d t)))))
       \/ (1 < RemainingTime cur
           /\ exists i p q pq',
               w_pqA w !! i = Some p /\ ArrivalTime p = t
               /\ insertion_sort less (tail (w_pq w) ++ [p; d]) = q :: pq'
               /\ w' = mkView q (q :: pq') (delete i (w_pqA w)) t (w_count w)
                         (w_schedule w) (w_totalWait w) (w_totalTurnaround w))
       \/ (1 < RemainingTime cur
           /\ w' = mkView d (w_pq w) (w_pqA w) t (w_count w) (w_schedule w)
                     (w_totalWait w) (w_totalTurnaround w)).
Proof.
  intros (Hr & HpqA & Htl & Hzero & Hnz & Hc0 & Hcount & HN) Hrun Ht0 Ht1 E.
  unfold running_l in Hrun. apply bool_decide_eq_true in Hrun.
  destruct (w_pq w) as [|hd tl] eqn:Epq; [simpl in Hrun; lia|]. simpl in Htl.
  assert (exists cur,
            decrement_l w = Ok (set_RemainingTime cur (RemainingTime cur - 1))
            /\ 1 <= RemainingTime cur < 2 ^ 63
            /\ ready_now w = cur :: tl)
    as (cur & Hd & Hcur & Hready).
  { unfold decrement_l, ready_now. rewrite Epq.
    destruct (RemainingTime (w_process w) =? 0) eqn:E0.
    - exists hd. apply Z.eqb_eq in E0. specialize (Hzero E0).
      apply Forall_cons in Hzero as [Hhd _]. unfold rem_ok in Hhd. simpl.
      unfold sub64. rewrite wrap64_id by (unfold int64_range; lia). done.
    - exists (w_process w). simpl. apply Z.eqb_neq in E0.
      unfold sub64. rewrite wrap64_id by (unfold int64_range; lia).
      split_and!; [done|lia|lia|done]. }
  exists cur. simpl. split; [done|]. split; [done|].
  unfold tick_l in E. rewrite Hd in E. simpl in E.
  assert (Ht : add64 (w_currentTime w) 1 = w_currentTime w + 1).
  { apply wrap64_id. unfold int64_range. lia. }
  rewrite Ht in E.
  destruct (RemainingTime cur - 1 =? 0) eqn:Ed.
  - left. split; [lia|].
    unfold complete_l in E. rewrite Epq in E. simpl in E.
    unfold store_row in E. rewrite bool_decide_true in E by (simpl in Hcount; lia).
    simpl in E. injection E as <-.
    assert (add64 (w_count w) 1 = w_count w + 1) as ->; [|done].
    apply wrap64_id. unfold int64_range. simpl in Hcount. lia.
  - right. destruct (arrival_l _ 0 (w_pqA w)) as [[i p]|] eqn:Ea.
    + left. split; [lia|].
      apply arrival_l_Some in Ea as (j & -> & Hj & Hp & _). simpl in E.
      unfold arrive_l in E. rewrite Epq in E. simpl in E.
      destruct (insertion_sort less (tl ++ [p; _])) as [|q pq'] eqn:Es;
        [simpl in E; done|].
      simpl in E. injection E as <-. by exists j, p, q, pq'.
    + right. split; [lia|]. rewrite ?Epq in E. by injection E as <-.
Qed.

Lemma zsum_app {A : Type} (f : A -> Z) l k : zsum f (l ++ k) = zsum f l + zsum f k.
Proof. induction l as [|x l IH]; simpl; [done|]. unfold zsum in *. simpl. lia. Qed.

Lemma zsum_perm {A : Type} (f : A -> Z) l k : l ≡ₚ k -> zsum f l = zsum f k.
Proof. induction 1; unfold zsum in *; simpl; lia. Qed.

Lemma ascending_snoc l y :
  ascending l -> Forall (fun x => x < y) l -> ascending (l ++ [y]).
Proof.
  intros Hl Hy i j a b Hij Hi Hj.
  pose proof (lookup_lt_Some _ _ _ Hj) as Hjl. rewrite length_app in Hjl. simpl in Hjl.
  rewrite lookup_app_l in Hi by lia.
  destruct (decide (j < length l)%nat) as [Hlt|Hge].
  - rewrite lookup_app_l in Hj by done. exact (Hl i j a b Hij Hi Hj).
  - rewrite lookup_app_r in Hj by lia.
    replace (j - length l)%nat with 0%nat in Hj by lia. injection Hj as <-.
    rewrite Forall_forall in Hy. apply Hy. apply list_elem_of_lookup. eauto.
Qed.

Lemma fsum_snoc total l z : fsum total (l ++ [z]) = f64_add (fsum total l) (f64_of_int z).
Proof. unfold fsum. by rewrite fold_left_app. Qed.

Lemma in_order_tail less x l : in_order less (x :: l) -> in_order less l.
Proof. intros H i j a b Hij Hi Hj. apply (H (S i) (S j)); [lia|done..]. Qed.

Lemma in_order_singleton less x : in_order less [x].
Proof.
  intros i j a b Hij Hi Hj. apply lookup_lt_Some in Hj. simpl in Hj. lia.
Qed.

(** Writing the row after the rows written so far. *)
Lemma table_store (done : list Row) (k : nat) r :
  (0 < k)%nat ->
  <[length done := Some r]> (map Some done ++ replicate k None)
  = map Some (done ++ [r]) ++ replicate (k - 1) None.
Proof.
  intros Hk.
  replace (length done) with (length (map Some done) + 0)%nat
    by (rewrite length_map; lia).
  rewrite insert_app_r. destruct k as [|k]; [lia|]. simpl.
  rewrite map_app, <- app_assoc. simpl. by rewrite Nat.sub_0_r.
Qed.

Lemma rows_done_table (done : list Row) (k : nat) :
  rows_done (map Some done ++ replicate k None) = done.
Proof.
  unfold rows_done. rewrite omap_app.
  assert (H1 : omap id (map Some done) = done).
  { induction done as [|r l IH]; [done|].
    change (omap id (map Some (r :: l))) with (r :: omap id (map Some l)).
    by rewrite IH. }
  assert (H2 : omap id (replicate k (@None Row)) = []).
  { induction k as [|k IH]; simpl; [done|]. exact IH. }
  by rewrite H1, H2, app_nil_r.
Qed.

Lemma set_RemainingTime_twice q a b :
  set_RemainingTime (set_RemainingTime q a) b = set_RemainingTime q b.
Proof. by destruct q. Qed.

Lemma set_RemainingTime_same q : set_RemainingTime q (RemainingTime q) = q.
Proof. by destruct q. Qed.

Lemma tick_l_running less w w' : sjf_ok w -> tick_l less w = Ok w' -> running_l w = true.
Proof.
  intros (_ & _ & _ & _ & Hnz & _) E. unfold running_l. apply bool_decide_eq_true.
  destruct (w_pq w) as [|hd tl] eqn:Epq; [|simpl; lia].
  unfold tick_l, decrement_l in E. rewrite Epq in E.
  destruct (RemainingTime (w_process w) =? 0) eqn:E0; [done|].
  apply Z.eqb_neq in E0. by specialize (Hnz E0).
Qed.

(** The clock of a running tick is below the total of the bursts. *)
Lemma books_clock T w done :
  sjf_ok w -> running_l w = true -> sjf_books T w done -> w_currentTime w + 1 <= T.
Proof.
  intros (Hr & HpqA & Htl & Hzero & Hnz & _) Hrun (_ & _ & _ & Hsum & _).
  unfold running_l in Hrun. apply bool_decide_eq_true in Hrun.
  destruct (w_pq w) as [|hd tl] eqn:Epq; [simpl in Hrun; lia|]. simpl in Htl.
  pose proof (remaining_nonneg _ Htl). pose proof (remaining_nonneg _ HpqA).
  unfold ready_now in Hsum. rewrite Epq in Hsum.
  destruct (RemainingTime (w_process w) =? 0) eqn:E0; simpl in Hsum.
  - apply Z.eqb_eq in E0. specialize (Hzero E0).
    apply Forall_cons in Hzero as [Hhd _]. unfold rem_ok in Hhd. lia.
  - apply Z.eqb_neq in E0. lia.
Qed.

Lemma tick_l_books T less w w' done :
  T < 2 ^ 63 -> sjf_ok w -> running_l w = true -> sjf_books T w done ->
  tick_l less w = Ok w' ->
  exists done', sjf_books T w' done'
                /\ (sjf_on_time w done -> sjf_on_time w' done').
Proof.
  intros HT Hok Hrun Hbooks E.
  pose proof (books_clock T w done Hok Hrun Hbooks) as Hclock.
  destruct (tick_l_step less w Hok Hrun) as (w1 & E1 & Hok' & _).
  rewrite E in E1. injection E1 as <-.
  destruct Hbooks as (Htab & Hcnt & Ht0 & Hsum & Hclk & Hle & Heq & Hcomp & Hasc
                      & Hlast & Hw & Hta).
  destruct (tick_l_cases less w w' Hok Hrun Ht0 ltac:(lia) E)
    as (cur & Hready & Hcur & Hcases).
  rewrite Hready in Hsum, Hclk, Hle. cbv zeta in Hcases.
  apply Forall_cons in Hle as [Hlecur Hletl].
  change (remaining (cur :: tail (w_pq w)))
    with (RemainingTime cur + remaining (tail (w_pq w))) in Hsum.
  change (zsum served (cur :: tail (w_pq w)))
    with (served cur + zsum served (tail (w_pq w))) in Hclk.
  destruct Hok as (_ & _ & _ & _ & _ & Hc0 & Hcount & HN).
  assert (Hpq : (0 < length (w_pq w))%nat).
  { unfold running_l in Hrun. by apply bool_decide_eq_true in Hrun. }
  destruct Hcases as [(H1 & ->)|[(H1 & i & p & q & pq' & Hi & Hp & Es & ->)|(H1 & ->)]].
  - (* the process completes *)
    set (d := set_RemainingTime cur (RemainingTime cur - 1)).
    set (t := w_currentTime w + 1).
    exists (done ++ [row_of (finish d t)]).
    assert (Hrn : ready_now (mkView (finish d t) (tail (w_pq w)) (w_pqA w) t (w_count w + 1)
                    (<[Z.to_nat (w_count w) := Some (row_of (finish d t))]> (w_schedule w))
                    (f64_add (w_totalWait w) (f64_of_int (WaitTime (finish d t))))
                    (f64_add (w_totalTurnaround w)
                       (f64_of_int (TurnAroundTime (finish d t)))))
                  = tail (w_pq w)).
    { unfold ready_now. simpl. by replace (RemainingTime cur - 1) with 0 by lia. }
    split.
    + unfold sjf_books. rewrite Hrn. simpl.
      split_and!.
      * rewrite length_insert, length_app. simpl.
        rewrite Htab at 1. replace (Z.to_nat (w_count w)) with (length done) by lia.
        rewrite table_store by lia. do 2 f_equal. lia.
      * rewrite length_app. simpl. lia.
      * lia.
      * lia.
      * rewrite zsum_app.
        change (zsum r_burst [row_of (finish d t)]) with (BurstDuration cur + 0).
        unfold served in *. unfold t. lia.
      * done.
      * done.
      * apply Forall_app. split.
        -- eapply Forall_impl; [exact Hcomp|]. simpl. intros; lia.
        -- constructor; [simpl; lia|constructor].
      * rewrite map_app. simpl. apply ascending_snoc; [done|].
        apply Forall_fmap. eapply Forall_impl; [exact Hcomp|]. simpl. intros; lia.
      * intros _. by rewrite last_snoc.
      * rewrite map_app.
        change (map r_wait [row_of (finish d t)]) with [r_wait (row_of (finish d t))].
        by rewrite fsum_snoc, Hw.
      * rewrite map_app.
        change (map r_turnaround [row_of (finish d t)])
          with [r_turnaround (row_of (finish d t))].
        by rewrite fsum_snoc, Hta.
    + intros (Hon & HonA & Hrows). unfold sjf_on_time. rewrite Hrn. simpl.
      rewrite Hready in Hon. apply Forall_cons in Hon as [(Ha0 & Hacur) Hontl].
      unfold served in Hacur.
      split_and!; [|done|].
      * eapply Forall_impl; [exact Hontl|]. simpl. intros; lia.
      * apply Forall_app. split; [done|]. constructor; [|constructor]. simpl.
        assert (E1 : sub64 t (ArrivalTime cur) = t - ArrivalTime cur).
        { apply wrap64_id. unfold int64_range. lia. }
        rewrite E1.
        assert (E2 : sub64 (t - ArrivalTime cur) (BurstDuration cur)
                     = t - ArrivalTime cur - BurstDuration cur).
        { apply wrap64_id. unfold int64_range. lia. }
        rewrite E2. lia.
  - (* a process arrives *)
    set (d := set_RemainingTime cur (RemainingTime cur - 1)) in *.
    set (t := w_currentTime w + 1) in *.
    exists done.
    pose proof (insertion_sort_perm less (tail (w_pq w) ++ [p; d])) as Hperm.
    rewrite Es in Hperm.
    assert (Hq0 : RemainingTime q <> 0).
    { destruct Hok' as (_ & _ & _ & Hz & _). simpl in Hz. intros H0.
      specialize (Hz H0). apply Forall_cons in Hz as [Hq _]. unfold rem_ok in Hq. lia. }
    assert (Hrn : ready_now (mkView q (q :: pq') (delete i (w_pqA w)) t (w_count w)
                    (w_schedule w) (w_totalWait w) (w_totalTurnaround w))
                  = q :: pq').
    { unfold ready_now. simpl. by rewrite (proj2 (Z.eqb_neq _ _) Hq0). }
    pose proof (Forall_lookup_1 _ _ _ _ Heq Hi) as Hpeq. simpl in Hpeq.
    split.
    + unfold sjf_books. rewrite Hrn. simpl.
      split_and!; try done.
      * lia.
      * change (RemainingTime q + remaining pq') with (remaining (q :: pq')).
        rewrite (remaining_perm _ _ Hperm), remaining_app.
        rewrite (remaining_delete _ _ _ Hi). simpl. unfold t. lia.
      * change (served q + zsum served pq') with (zsum served (q :: pq')).
        rewrite (zsum_perm _ _ _ Hperm), zsum_app.
        change (zsum served [p; d]) with (served p + (served d + 0)).
        unfold served in *. simpl. unfold t. lia.
      * rewrite Hperm. apply Forall_app. split; [done|].
        constructor; [lia|]. constructor; [simpl; lia|constructor].
      * by apply Forall_delete.
      * eapply Forall_impl; [exact Hcomp|]. simpl. intros; lia.
    + intros (Hon & HonA & Hrows). unfold sjf_on_time. rewrite Hrn. simpl.
      rewrite Hready in Hon. apply Forall_cons in Hon as [(Ha0 & Hacur) Hontl].
      pose proof (Forall_lookup_1 _ _ _ _ HonA Hi) as Hpa. simpl in Hpa.
      split_and!; [|by apply Forall_delete|done].
      rewrite Hperm. apply Forall_app. split.
      * eapply Forall_impl; [exact Hontl|]. simpl. intros; lia.
      * unfold served in *. constructor; [lia|].
        constructor; [simpl; lia|constructor].
  - (* the process runs on *)
    set (d := set_RemainingTime cur (RemainingTime cur - 1)) in *.
    set (t := w_currentTime w + 1) in *.
    exists done.
    assert (Hrn : ready_now (mkView d (w_pq w) (w_pqA w) t (w_count w) (w_schedule w)
                    (w_totalWait w) (w_totalTurnaround w))
                  = d :: tail (w_pq w)).
    { unfold ready_now. simpl.
      by rewrite (proj2 (Z.eqb_neq (RemainingTime cur - 1) 0) ltac:(lia)). }
    split.
    + unfold sjf_books. rewrite Hrn. simpl.
      split_and!; try done.
      * lia.
      * lia.
      * unfold zsum. simpl. unfold zsum, served in *. simpl in *. lia.
      * constructor; [simpl; lia|done].
      * eapply Forall_impl; [exact Hcomp|]. simpl. intros; lia.
      * intros H0. lia.
    + intros (Hon & HonA & Hrows). unfold sjf_on_time. rewrite Hrn. simpl.
      rewrite Hready in Hon. apply Forall_cons in Hon as [(Ha0 & Hacur) Hontl].
      split_and!; [|done|done].
      constructor.
      * unfold served in *. simpl. lia.
      * eapply Forall_impl; [exact Hontl|]. simpl. intros; lia.
Qed.

Lemma tick_l_policy less w w' :
  weak_order less -> sjf_ok w -> running_l w = true ->
  0 <= w_currentTime w -> w_currentTime w + 1 < 2 ^ 63 ->
  sjf_policy less w -> tick_l less w = Ok w' -> sjf_policy less w'.
Proof.
  intros Hless Hok Hrun Ht0 Ht1 [Hord Hhead] E.
  destruct (tick_l_cases less w w' Hok Hrun Ht0 Ht1 E) as (cur & Hready & Hcur & Hcases).
  cbv zeta in Hcases.
  destruct Hcases as [(H1 & ->)|[(H1 & i & p & q & pq' & Hi & Hp & Es & ->)|(H1 & ->)]].
  - split; simpl.
    + destruct (w_pq w) as [|hd tl]; [done|]. simpl. by eapply in_order_tail.
    + intros H. lia.
  - split; simpl.
    + rewrite <- Es. by apply insertion_sort_in_order.
    + intros _. exists q. split_and!; [done|apply set_RemainingTime_same|lia].
  - split; simpl; [done|]. intros _.
    unfold ready_now in Hready.
    destruct (RemainingTime (w_process w) =? 0) eqn:E0.
    + destruct (w_pq w) as [|hd tl]; [done|]. simpl in Hready.
      injection Hready as <-. exists hd. split_and!; [done|done|lia].
    + injection Hready as <-. apply Z.eqb_neq in E0.
      destruct (Hhead E0) as (q0 & Hq0 & Hset & Hle).
      exists q0. split_and!; [done| |lia].
      by rewrite <- Hset at 2; rewrite set_RemainingTime_twice.
Qed.

Lemma length_le_total_burst ps :
  bursts_positive ps -> Z.of_nat (length ps) <= total_burst ps.
Proof.
  induction 1 as [|p l Hp _ IH]; [done|].
  change (total_burst (p :: l)) with (BurstDuration p + total_burst l).
  rewrite length_cons. lia.
Qed.

(** The head of a list sorted by arrival arrives first. *)
Lemma sorted_head_arrives_first l p rest q :
  insertion_sort lessArrival l = p :: rest -> q ∈ l -> ArrivalTime p <= ArrivalTime q.
Proof.
  intros Es Hq.
  pose proof (insertion_sort_in_order lessArrival l lessArrival_weak_order) as Hord.
  rewrite Es in Hord.
  assert (Hq' : q ∈ p :: rest) by (by rewrite <- Es, insertion_sort_perm).
  apply list_elem_of_lookup in Hq' as [[|j] Hj].
  - injection Hj as ->. lia.
  - specialize (Hord 0%nat (S j) p q ltac:(lia) eq_refl Hj).
    unfold lessArrival in Hord. apply orb_false_iff in Hord as [H1 _].
    apply Z.ltb_ge in H1. lia.
Qed.

Lemma init_l_books less ps w :
  bursts_positive ps -> init_l ps = Ok w ->
  sjf_books (total_burst ps) w [] /\ sjf_policy less w
  /\ (starts_at_zero ps -> sjf_on_time w []).
Proof.
  intros Hb E. unfold init_l in E.
  pose proof (insertion_sort_perm lessArrival (loaded ps)) as Hperm.
  pose proof (remaining_perm _ _ Hperm) as Hrem. rewrite remaining_loaded in Hrem.
  assert (Hall : Forall (fun q => RemainingTime q = BurstDuration q
                                  /\ 1 <= BurstDuration q)
                        (insertion_sort lessArrival (loaded ps))).
  { rewrite Hperm. unfold loaded. apply Forall_fmap.
    eapply Forall_impl; [exact Hb|]. intros p Hp. simpl in *. lia. }
  destruct (insertion_sort lessArrival (loaded ps)) as [|process pqA] eqn:Es; [done|].
  injection E as <-.
  apply Forall_cons in Hall as [[Hp1 Hp2] HpqA].
  assert (Hrn : ready_now (mkView process [process] pqA 0 0 (make_table (length ps))
                             f64_zero f64_zero) = [process]).
  { unfold ready_now. simpl.
    by rewrite (proj2 (Z.eqb_neq (RemainingTime process) 0) ltac:(lia)). }
  split_and!.
  - unfold sjf_books. rewrite Hrn. simpl. unfold make_table.
    rewrite length_replicate, Nat.sub_0_r.
    change (remaining (process :: pqA)) with (RemainingTime process + remaining pqA) in Hrem.
    split_and!; try done.
    + lia.
    + unfold zsum, served. simpl. lia.
    + constructor; [lia|constructor].
    + eapply Forall_impl; [exact HpqA|]. simpl. tauto.
    + intros H. lia.
  - split; simpl; [apply in_order_singleton|].
    intros _. exists process. split_and!; [done|apply set_RemainingTime_same|lia].
  - intros [Hnn (p0 & Hp0 & Hz)]. unfold sjf_on_time. rewrite Hrn. simpl.
    assert (Harr : forall q, q ∈ process :: pqA -> 0 <= ArrivalTime q).
    { intros q Hq. rewrite Hperm in Hq. unfold loaded in Hq.
      apply list_elem_of_fmap in Hq as (q' & -> & Hq'). simpl.
      rewrite Forall_forall in Hnn. by apply Hnn. }
    assert (Hfirst : ArrivalTime process <= 0).
    { rewrite <- Hz.
      change (ArrivalTime p0)
        with (ArrivalTime (set_RemainingTime p0 (BurstDuration p0))).
      eapply sorted_head_arrives_first; [exact Es|].
      unfold loaded. apply list_elem_of_fmap. eauto. }
    split_and!; [|by apply Forall_forall; intros q Hq; apply Harr; right|constructor].
    constructor; [|constructor]. unfold served.
    specialize (Harr process ltac:(left)). lia.
Qed.

(** What the preemptive loop leaves when it ends. *)
Lemma preemptive_l_books less fuel title ps out :
  bursts_positive ps -> total_burst ps < 2 ^ 63 ->
  preemptive_l less fuel title ps = Ok out ->
  exists done,
    out = [outputTitle title;
           outputSchedule
             (map Some done ++ replicate (length ps - length done) None)
             (f64_div (fsum f64_zero (map r_wait done))
                      (f64_of_int (Z.of_nat (length ps))))
             (f64_div (fsum f64_zero (map r_turnaround done))
                      (f64_of_int (Z.of_nat (length ps))))
             (f64_div (f64_of_int (Z.of_nat (length ps)))
                      (f64_of_int (zsum r_burst done)))]
    /\ done <> [] /\ (length done <= length ps)%nat
    /\ ascending (map r_completion done)
    /\ last (map r_completion done) = Some (zsum r_burst done)
    /\ (starts_at_zero ps -> Forall row_plain done).
Proof.
  intros Hb HT E. unfold preemptive_l in E.
  pose proof (length_le_total_burst ps Hb) as Hlen.
  destruct (init_l ps) as [w0| |] eqn:E0; simpl in E; try done.
  assert (Hne : ps <> []) by (intros ->; done).
  destruct (init_l_ok ps Hne Hb ltac:(lia)) as (w0' & E0' & Hok0 & Hl0 & _).
  rewrite E0 in E0'. injection E0' as <-.
  destruct (init_l_books less ps w0 Hb E0) as (Hbooks0 & _ & Hon0).
  destruct (for_while running_l (tick_l less) fuel w0) as [w| |] eqn:Ew; simpl in E;
    try done.
  injection E as <-.
  set (I := fun w => sjf_ok w /\ length (w_schedule w) = length ps
                     /\ exists done, sjf_books (total_burst ps) w done
                                     /\ (starts_at_zero ps -> sjf_on_time w done)).
  assert (Hstep : forall s s', I s -> running_l s = true -> tick_l less s = Ok s' -> I s').
  { intros s s' (Hok & Hl & done & Hbooks & Hon) Hrun Es.
    destruct (tick_l_step less s Hok Hrun) as (s1 & E1 & Hok' & Hl' & _).
    rewrite Es in E1. injection E1 as <-.
    destruct (tick_l_books _ less s s' done HT Hok Hrun Hbooks Es) as (done' & Hb' & Hon').
    split_and!; [done|lia|]. exists done'. split; [done|]. auto. }
  destruct (for_while_exit I running_l (tick_l less) Hstep fuel w0 w) as [HI Hend];
    [|done|].
  { split_and!; [done..|]. exists []. auto. }
  destruct HI as (Hok & Hl & done & Hbooks & Hon).
  destruct Hok as (_ & _ & _ & _ & Hnz & _ & Hcount & _).
  unfold running_l in Hend. apply bool_decide_eq_false in Hend.
  assert (Hpq : w_pq w = []) by (destruct (w_pq w); [done|simpl in Hend; lia]).
  assert (Hr0 : RemainingTime (w_process w) = 0).
  { destruct (decide (RemainingTime (w_process w) = 0)) as [|Hn]; [done|].
    by specialize (Hnz Hn). }
  destruct Hbooks as (Htab & Hcnt & _ & _ & Hclk & _ & _ & _ & Hasc & Hlast & Hw & Hta).
  destruct (Hlast Hr0) as [Hlast1 Hlast2].
  assert (Hrn : ready_now w = []).
  { unfold ready_now. by rewrite Hr0, Hpq. }
  rewrite Hrn in Hclk. change (zsum served []) with 0 in Hclk.
  exists done. split_and!.
  - unfold report_l. rewrite Hw, Hta, Hlast2, Hclk, Z.add_0_r.
    rewrite Htab at 1. by rewrite Hl.
  - intros ->. done.
  - rewrite Hpq in Hcount. simpl in Hcount. lia.
  - done.
  - rewrite fmap_last, Hlast1. simpl. f_equal. lia.
  - intros Hz. destruct (Hon Hz) as (_ & _ & Hrows). exact Hrows.
Qed.

(** Time given to a process does not move it back in the order of either
    policy. *)
Lemma lessDeploy_given q0 r q' :
  r <= RemainingTime q0 -> lessDeploy q' q0 = false ->
  lessDeploy q' (set_RemainingTime q0 r) = false.
Proof.
  unfold lessDeploy. destruct q0, q'. simpl. intros Hr H.
  apply orb_false_iff in H as [H1 H2]. apply andb_false_iff in H2.
  apply orb_false_iff. split; [lia|]. apply andb_false_iff. lia.
Qed.

Lemma policy_runs_first less w :
  weak_order less ->
  (forall q0 r q', r <= RemainingTime q0 -> less q' q0 = false ->
                   less q' (set_RemainingTime q0 r) = false) ->
  sjf_policy less w -> RemainingTime (w_process w) <> 0 ->
  Forall (fun q' => less q' (w_process w) = false) (w_pq w).
Proof.
  intros [Hasym _] Hgiven [Hord Hhead] Hr.
  destruct (Hhead Hr) as (q0 & Hq0 & Hset & Hle).
  apply Forall_forall. intros q' Hq'. rewrite <- Hset. apply Hgiven; [done|].
  apply list_elem_of_lookup in Hq' as [j Hj].
  destruct (w_pq w) as [|hd tl]; [done|]. simpl in Hq0. injection Hq0 as ->.
  destruct j as [|j].
  - injection Hj as ->. destruct (less q' q') eqn:E; [|done].
    by rewrite (Hasym _ _ E) in E.
  - apply (Hord 0%nat (S j)); [lia|done..].
Qed.

(** The states of the loop on lists keep their books and the policy. *)
Lemma ticks_l_books less ps n w0 w :
  weak_order less -> bursts_positive ps -> total_burst ps < 2 ^ 63 ->
  init_l ps = Ok w0 -> ticks_l less n w0 = Ok w ->
  sjf_ok w /\ (exists done, sjf_books (total_burst ps) w done) /\ sjf_policy less w.
Proof.
  intros Hless Hb HT E0.
  pose proof (length_le_total_burst ps Hb) as Hlen.
  assert (Hne : ps <> []) by (intros ->; done).
  destruct (init_l_ok ps Hne Hb ltac:(lia)) as (w0' & E0' & Hok0 & _).
  rewrite E0 in E0'. injection E0' as <-.
  destruct (init_l_books less ps w0 Hb E0) as (Hbooks0 & Hpol0 & _).
  assert (H0 : sjf_ok w0 /\ (exists done, sjf_books (total_burst ps) w0 done)
               /\ sjf_policy less w0) by eauto.
  clear E0 Hok0 Hbooks0 Hpol0. revert w0 H0.
  induction n as [|n IH]; intros w0 H0; simpl.
  - by intros [= <-].
  - destruct (tick_l less w0) as [w1| |] eqn:E1; simpl; try done.
    apply IH. destruct H0 as (Hok & (done & Hbooks) & Hpol).
    pose proof (tick_l_running less w0 w1 Hok E1) as Hrun.
    destruct (tick_l_step less w0 Hok Hrun) as (w1' & E1' & Hok' & _).
    rewrite E1 in E1'. injection E1' as <-.
    destruct (tick_l_books _ less w0 w1 done HT Hok Hrun Hbooks E1) as (done' & Hb' & _).
    pose proof (books_clock _ w0 done Hok Hrun Hbooks) as Hclock.
    split_and!; [done|by exists done'|].
    destruct Hbooks as (_ & _ & Ht0 & _).
    apply (tick_l_policy less w0 w1 Hless Hok Hrun Ht0 ltac:(lia) Hpol E1).
Qed.

(** ** Round-robin, one round at a time *)

Lemma enqueue_arrived_l_moved st ps q ps' q' :
  enqueue_arrived_l st ps q = (ps', q') ->
  exists moved, ps = moved ++ ps' /\ q' = q ++ moved
    /\ Forall (fun p => ArrivalTime p <= st) moved
    /\ match ps' with p :: _ => st < ArrivalTime p | [] => True end.
Proof.
  revert q. induction ps as [|p ps IH]; intros q; simpl.
  - intros [= <- <-]. exists []. rewrite !app_nil_r. by split_and!.
  - destruct (ArrivalTime p <=? st) eqn:E.
    + intros H. destruct (IH _ H) as (moved & -> & -> & Hm & Hhd).
      exists (p :: moved). rewrite <- (assoc app). split_and!; [done..| |done].
      constructor; [lia|done].
    + intros [= <- <-]. exists []. rewrite !app_nil_r. split_and!; [done..|lia].
Qed.

Lemma non_overlapping_snoc g ts :
  non_overlapping g -> Forall (fun a => Stop a <= Start ts) g ->
  non_overlapping (g ++ [ts]).
Proof.
  intros Hg Hts i j a b Hij Hi Hj.
  pose proof (lookup_lt_Some _ _ _ Hj) as Hjl. rewrite length_app in Hjl. simpl in Hjl.
  rewrite lookup_app_l in Hi by lia.
  destruct (decide (j < length g)%nat) as [Hlt|Hge].
  - rewrite lookup_app_l in Hj by done. exact (Hg i j a b Hij Hi Hj).
  - rewrite lookup_app_r in Hj by lia.
    replace (j - length g)%nat with 0%nat in Hj by lia. injection Hj as <-.
    rewrite Forall_forall in Hts. apply Hts. apply list_elem_of_lookup. eauto.
Qed.

Lemma time_given_nonneg input g :
  Forall (fun ts => slice_ok input ts) g -> 0 <= time_given (fun _ => 1) g.
Proof.
  induction 1 as [|ts g [Hd _] _ IH]; [done|].
  change (time_given (fun _ => 1) (ts :: g))
    with (1 * dur ts + time_given (fun _ => 1) g). lia.
Qed.

Lemma burst_asked_total ps : burst_asked (fun _ => 1) ps = total_burst ps.
Proof.
  induction ps as [|p ps IH]; [done|].
  change (burst_asked (fun _ => 1) (p :: ps))
    with (1 * BurstDuration p + burst_asked (fun _ => 1) ps).
  change (total_burst (p :: ps)) with (BurstDuration p + total_burst ps). lia.
Qed.

Lemma burst_asked_nonneg ps :
  Forall (fun p => 1 <= BurstDuration p) ps -> 0 <= burst_asked (fun _ => 1) ps.
Proof.
  induction 1 as [|p ps Hp _ IH]; [done|].
  change (burst_asked (fun _ => 1) (p :: ps))
    with (1 * BurstDuration p + burst_asked (fun _ => 1) ps). lia.
Qed.

Lemma RR_body_l_books input A w w' :
  A + total_burst input < 2 ^ 63 ->
  rr_books input A w -> RR_body_l w = Ok w' -> rr_books input A w'.
Proof.
  intros HA (Hst & Hcons & Hb & Hps & Hq & Hg & Hno) E.
  unfold RR_body_l in E.
  destruct (enqueue_arrived_l _ _ _) as [ps' q'] eqn:Ee.
  apply enqueue_arrived_l_moved in Ee as (moved & Eps & -> & Hmoved & Hhd).
  assert (Hsame : (y_queue w ++ moved) ++ ps' = y_queue w ++ y_processes w).
  { by rewrite Eps, (assoc app). }
  rewrite Eps in Hps. apply Forall_app in Hps as [Hpm Hps'].
  assert (Hq' : Forall (fun q => (exists p, p ∈ input /\ ProcessID p = ProcessID q
                                            /\ ArrivalTime p <= ArrivalTime q)
                                 /\ 0 <= ArrivalTime q <= y_serviceTime w)
                       (y_queue w ++ moved)).
  { apply Forall_app. split; [done|].
    rewrite Forall_forall in Hpm, Hmoved. apply Forall_forall. intros p Hp.
    destruct (Hpm p Hp) as [Hin Ha]. specialize (Hmoved p Hp). simpl in Hmoved.
    split; [exists p; split_and!; [done|done|lia]|lia]. }
  pose proof (Hcons (fun _ => 1)) as Hall. rewrite (burst_asked_total input) in Hall.
  pose proof (time_given_nonneg input (y_gantt w)
                ltac:(eapply Forall_impl; [exact Hg|]; simpl; tauto)) as Hgn.
  rewrite <- Hsame in Hcons, Hb, Hall.
  case_bool_decide as Hlen.
  - (* a slice runs *)
    destruct (y_queue w ++ moved) as [|p rest] eqn:Eq; [simpl in Hlen; lia|].
    apply Forall_cons in Hq' as [((p0 & Hp0 & Hid & Harr) & Hpa) Hrest].
    change ((p :: rest) ++ ps') with (p :: (rest ++ ps')) in Hcons, Hb, Hall.
    apply Forall_cons in Hb as [Hbp Hbrest].
    change (burst_asked (fun _ => 1) (p :: rest ++ ps'))
      with (1 * BurstDuration p + burst_asked (fun _ => 1) (rest ++ ps')) in Hall.
    pose proof (burst_asked_nonneg _ Hbrest) as Hrn.
    unfold run_slice_l in E.
    destruct (store_row _ _ _) as [rows'| |] eqn:Es; simpl in E; try done.
    injection E as <-.
    set (d := minimum (BurstDuration p) quantum_time) in *.
    assert (Hd : 1 <= d <= 2 /\ d <= BurstDuration p
                 /\ ((d =? BurstDuration p) = false -> d = 2 /\ 3 <= BurstDuration p)
                 /\ ((d =? BurstDuration p) = true -> d = BurstDuration p)).
    { unfold d, minimum, quantum_time.
      destruct (BurstDuration p <? 2) eqn:E2; split_and!; try lia. }
    destruct Hd as (Hd1 & Hd2 & Hd3 & Hd4).
    assert (Est : add64 (y_serviceTime w) d = y_serviceTime w + d).
    { apply wrap64_id. unfold int64_range. lia. }
    rewrite Est.
    assert (Estart : sub64 (y_serviceTime w + d) d = y_serviceTime w).
    { unfold sub64. replace (y_serviceTime w + d - d) with (y_serviceTime w) by lia.
      apply wrap64_id. unfold int64_range. lia. }
    rewrite Estart.
    set (ts := mkTimeSlice (ProcessID p) (y_serviceTime w) (y_serviceTime w + d)).
    assert (Htg : forall f, time_given f (y_gantt w ++ [ts])
                            = time_given f (y_gantt w) + f (ProcessID p) * d).
    { intros f. unfold time_given. rewrite zsum_app.
      change (zsum (fun ts => f (PID ts) * dur ts) [ts])
        with (f (ProcessID p) * (y_serviceTime w + d - y_serviceTime w) + 0).
      replace (y_serviceTime w + d - y_serviceTime w) with d by lia. lia. }
    unfold rr_books. simpl.
    split_and!.
    + lia.
    + rewrite Htg. lia.
    + intros f. rewrite Htg. specialize (Hcons f).
      change (burst_asked f (p :: rest ++ ps'))
        with (f (ProcessID p) * BurstDuration p + burst_asked f (rest ++ ps')) in Hcons.
      destruct (d =? BurstDuration p) eqn:Ef.
      * rewrite (Hd4 eq_refl). lia.
      * destruct (Hd3 eq_refl) as [Hd5 Hd6].
        unfold burst_asked in *. rewrite !zsum_app in *.
        change (zsum (fun p => f (ProcessID p) * BurstDuration p)
                     [residual p (y_serviceTime w + d) d])
          with (f (ProcessID p) * sub64 (BurstDuration p) d + 0).
        unfold sub64. rewrite wrap64_id by (unfold int64_range; lia). lia.
    + destruct (d =? BurstDuration p) eqn:Ef; [done|].
      destruct (Hd3 eq_refl) as [Hd5 Hd6].
      apply Forall_app in Hbrest as [Hbr Hbp'].
      rewrite !Forall_app. split_and!; [done| |done].
      constructor; [|constructor]. simpl.
      unfold sub64. rewrite wrap64_id by (unfold int64_range; lia). lia.
    + done.
    + assert (Hrest' : Forall (fun q => (exists p1, p1 ∈ input
                                           /\ ProcessID p1 = ProcessID q
                                           /\ ArrivalTime p1 <= ArrivalTime q)
                                        /\ 0 <= ArrivalTime q <= y_serviceTime w + d) rest).
      { eapply Forall_impl; [exact Hrest|]. simpl. intros q [H1 H2]. split; [done|lia]. }
      destruct (d =? BurstDuration p); [done|].
      apply Forall_app. split; [done|]. constructor; [|constructor]. simpl.
      split; [|lia]. exists p0. split_and!; [done|done|lia].
    + apply Forall_app. split.
      * eapply Forall_impl; [exact Hg|]. simpl. intros a [H1 H2]. split; [done|lia].
      * constructor; [|constructor]. split; [|simpl; lia].
        unfold slice_ok, dur, quantum_time. simpl. split_and!; [lia..|].
        exists p0. split_and!; [done|done|lia].
    + apply non_overlapping_snoc; [done|].
      eapply Forall_impl; [exact Hg|]. simpl. intros a [_ H2]. done.
  - (* the clock moves to the next arrival *)
    assert (Hnil : y_queue w ++ moved = []).
    { destruct (y_queue w ++ moved); [done|simpl in Hlen; lia]. }
    rewrite Hnil in *.
    destruct ps' as [|p ps'']; simpl in E; [done|]. injection E as <-.
    apply Forall_cons in Hps' as [[Hpin Hpa] Hps''].
    unfold rr_books. simpl.
    split_and!; try done.
    + lia.
    + lia.
    + constructor; [|done]. done.
    + eapply Forall_impl; [exact Hg|]. simpl. intros a [H1 H2]. split; [done|lia].
Qed.

Lemma RR_init_l_books ps A :
  0 <= A -> bursts_positive ps -> Forall (fun p => 0 <= ArrivalTime p <= A) ps ->
  rr_books ps A (RR_init_l ps).
Proof.
  intros HA Hb Harr. unfold rr_books, RR_init_l. simpl.
  split_and!; try done.
  - unfold time_given. simpl. change (zsum _ []) with 0. lia.
  - eapply Forall_impl; [exact Hb|]. simpl. intros; lia.
  - apply Forall_forall. intros p Hp. rewrite Forall_forall in Harr.
    split; [done|by apply Harr].
Qed.

(** What round-robin leaves when it ends. *)
Lemma RR_l_books fuel title ps A out :
  0 <= A -> bursts_positive ps -> Forall (fun p => 0 <= ArrivalTime p <= A) ps ->
  A + total_burst ps < 2 ^ 63 ->
  RR_l fuel title ps = Ok out ->
  exists gantt rows wait turnaround throughput,
    out = [outputTitle title; outputGantt gantt;
           outputSchedule rows wait turnaround throughput]
    /\ Forall (slice_ok ps) gantt
    /\ non_overlapping gantt
    /\ forall f, time_given f gantt = burst_asked f ps.
Proof.
  intros HA Hb Harr HT E. unfold RR_l in E.
  destruct (for_while RR_cond_l RR_body_l fuel (RR_init_l ps)) as [w| |] eqn:Ew;
    simpl in E; try done.
  injection E as <-.
  assert (Hstep : forall s s', rr_books ps A s -> RR_cond_l s = true ->
                               RR_body_l s = Ok s' -> rr_books ps A s').
  { intros s s' Hs _ Es. by eapply RR_body_l_books. }
  destruct (for_while_exit (rr_books ps A) RR_cond_l RR_body_l Hstep fuel
              (RR_init_l ps) w (RR_init_l_books ps A HA Hb Harr) Ew)
    as [(Hst & Hcons & _ & _ & _ & Hg & Hno) Hend].
  unfold RR_cond_l in Hend. apply orb_false_iff in Hend as [H1 H2].
  apply bool_decide_eq_false in H1, H2.
  assert (Hq : y_queue w = []) by (destruct (y_queue w); [done|simpl in H1; lia]).
  assert (Hp : y_processes w = []) by (destruct (y_processes w); [done|simpl in H2; lia]).
  rewrite Hq, Hp in Hcons.
  unfold RR_report_l. eexists _, _, _, _, _. split; [done|].
  split_and!; [|done|].
  - eapply Forall_impl; [exact Hg|]. simpl. tauto.
  - intros f. specialize (Hcons f). change (burst_asked f ([] ++ [])) with 0 in Hcons. lia.
Qed.

(** The two things a round can do, with what each leaves. *)
Lemma RR_body_l_cases input A w w' :
  A + total_burst input < 2 ^ 63 ->
  rr_books input A w -> RR_body_l w = Ok w' ->
  (exists p rest,
     (forall q, q ∈ y_queue w -> q = p \/ q ∈ rest)
     /\ 0 <= ArrivalTime p <= y_serviceTime w /\ 1 <= BurstDuration p
     /\ let d := minimum (BurstDuration p) quantum_time in
        let st := y_serviceTime w + d in
        y_schedule w'
        = <[Z.to_nat (sub64 (ProcessID p) 1) :=
              Some (mkRow (ProcessID p) (Priority p) (BurstDuration p) (ArrivalTime p)
                          (y_serviceTime w - ArrivalTime p) (st - ArrivalTime p) st)]>
            (y_schedule w)
        /\ (Z.to_nat (sub64 (ProcessID p) 1) < length (y_schedule w))%nat
        /\ y_gantt w' = y_gantt w ++ [mkTimeSlice (ProcessID p) (y_serviceTime w) st]
        /\ y_queue w' = (if d =? BurstDuration p then rest
                         else rest ++ [residual p st d]))
  \/ (y_schedule w' = y_schedule w /\ y_gantt w' = y_gantt w
      /\ y_queue w' = [] /\ y_queue w = []).
Proof.
  intros HA (Hst & Hcons & Hb & Hps & Hq & Hg & Hno) E.
  unfold RR_body_l in E.
  destruct (enqueue_arrived_l _ _ _) as [ps' q'] eqn:Ee.
  apply enqueue_arrived_l_moved in Ee as (moved & Eps & -> & Hmoved & Hhd).
  assert (Hsame : (y_queue w ++ moved) ++ ps' = y_queue w ++ y_processes w).
  { by rewrite Eps, (assoc app). }
  rewrite Eps in Hps. apply Forall_app in Hps as [Hpm Hps'].
  assert (Hq' : Forall (fun q => 0 <= ArrivalTime q <= y_serviceTime w)
                       (y_queue w ++ moved)).
  { apply Forall_app. split.
    - eapply Forall_impl; [exact Hq|]. simpl. tauto.
    - rewrite Forall_forall in Hpm, Hmoved. apply Forall_forall. intros p Hp.
      destruct (Hpm p Hp) as [Hin Ha]. specialize (Hmoved p Hp). simpl in Hmoved. lia. }
  pose proof (Hcons (fun _ => 1)) as Hall. rewrite (burst_asked_total input) in Hall.
  pose proof (time_given_nonneg input (y_gantt w)
                ltac:(eapply Forall_impl; [exact Hg|]; simpl; tauto)) as Hgn.
  rewrite <- Hsame in Hb, Hall.
  case_bool_decide as Hlen.
  - left.
    destruct (y_queue w ++ moved) as [|p rest] eqn:Eq; [simpl in Hlen; lia|].
    apply Forall_cons in Hq' as [Hpa Hrest].
    change ((p :: rest) ++ ps') with (p :: (rest ++ ps')) in Hb, Hall.
    apply Forall_cons in Hb as [Hbp Hbrest].
    change (burst_asked (fun _ => 1) (p :: rest ++ ps'))
      with (1 * BurstDuration p + burst_asked (fun _ => 1) (rest ++ ps')) in Hall.
    pose proof (burst_asked_nonneg _ Hbrest) as Hrn.
    unfold run_slice_l in E.
    destruct (store_row _ _ _) as [rows'| |] eqn:Es; simpl in E; try done.
    injection E as <-.
    set (d := minimum (BurstDuration p) quantum_time) in *.
    assert (Hd : 1 <= d <= 2 /\ d <= BurstDuration p).
    { unfold d, minimum, quantum_time.
      destruct (BurstDuration p <? 2) eqn:E2; split_and!; try lia. }
    assert (Est : add64 (y_serviceTime w) d = y_serviceTime w + d).
    { apply wrap64_id. unfold int64_range. lia. }
    assert (Ew : sub64 (y_serviceTime w) (ArrivalTime p)
                 = y_serviceTime w - ArrivalTime p).
    { apply wrap64_id. unfold int64_range. lia. }
    assert (Et : sub64 (y_serviceTime w + d) (ArrivalTime p)
                 = y_serviceTime w + d - ArrivalTime p).
    { apply wrap64_id. unfold int64_range. lia. }
    assert (Estart : sub64 (y_serviceTime w + d) d = y_serviceTime w).
    { unfold sub64. replace (y_serviceTime w + d - d) with (y_serviceTime w) by lia.
      apply wrap64_id. unfold int64_range. lia. }
    rewrite Est, Ew, Et in Es.
    rewrite (proj2 (Z.ltb_ge (y_serviceTime w - ArrivalTime p) 0)) in Es by lia.
    unfold store_row in Es. case_bool_decide as Hix; [|done]. injection Es as <-.
    exists p, rest. simpl. rewrite Est, Estart.
    split_and!; try done; try lia.
    intros q Hq0.
    assert (Hin : q ∈ p :: rest) by (rewrite <- Eq; apply elem_of_app; by left).
    apply elem_of_cons in Hin. done.
  - right.
    assert (Hnil : y_queue w ++ moved = []).
    { destruct (y_queue w ++ moved); [done|simpl in Hlen; lia]. }
    rewrite Hnil in *.
    destruct ps' as [|p ps'']; simpl in E; [done|]. injection E as <-. simpl.
    split_and!; try done. by destruct (y_queue w).
Qed.

Lemma slices_of_snoc id g ts :
  slices_of id (g ++ [ts])
  = slices_of id g ++ (if decide (PID ts = id) then [ts] else []).
Proof.
  unfold slices_of. by rewrite filter_app.
Qed.

Lemma RR_body_l_rows input A w w' :
  A + total_burst input < 2 ^ 63 ->
  rr_books input A w -> rr_rows w -> RR_body_l w = Ok w' -> rr_rows w'.
Proof.
  intros HA Hbooks Hrows E.
  destruct (RR_body_l_cases input A w w' HA Hbooks E)
    as [(p & rest & Hq & Hpa & Hpb & Hs & Hix & Hg & Hq')|(Hs & Hg & Hq' & Hq)].
  - cbv zeta in Hs, Hg, Hq'.
    set (d := minimum (BurstDuration p) quantum_time) in *.
    assert (Hd : 1 <= d <= 2 /\ ((d =? BurstDuration p) = true -> BurstDuration p <= 2)).
    { unfold d, minimum, quantum_time.
      destruct (BurstDuration p <? 2) eqn:E2; split_and!; try lia. }
    destruct Hd as [Hd1 Hd2].
    intros i r Hi. rewrite Hs in Hi. rewrite Hg, Hq'.
    destruct (decide (i = Z.to_nat (sub64 (ProcessID p) 1))) as [->|Hne].
    + rewrite list_lookup_insert_eq in Hi by done. injection Hi as <-. simpl.
      split; [done|].
      exists (mkTimeSlice (ProcessID p) (y_serviceTime w) (y_serviceTime w + d)).
      rewrite slices_of_snoc. simpl. rewrite decide_True by done.
      rewrite last_snoc. unfold dur. simpl.
      split_and!; try done; try lia.
      destruct (d =? BurstDuration p) eqn:Ef; [left; by apply Hd2|].
      right. exists (residual p (y_serviceTime w + d) d).
      split; [|done]. apply elem_of_app. right. left.
    + rewrite list_lookup_insert_ne in Hi by done.
      destruct (Hrows i r Hi) as (Hidx & ts & Hlast & Hc & Hw & Hw0 & Ht & Hdur & Hfin).
      split; [done|]. exists ts.
      assert (Hid : ProcessID p <> r_id r) by (intros Heq; rewrite Heq in Hne; done).
      rewrite slices_of_snoc. simpl. rewrite decide_False by done.
      rewrite app_nil_r. split_and!; try done.
      destruct Hfin as [Hfin|(q & Hqin & Hqid)]; [by left|].
      right. exists q. split; [|done].
      destruct (Hq q Hqin) as [->|Hin]; [done|].
      destruct (d =? BurstDuration p); [done|]. apply elem_of_app. by left.
  - intros i r Hi. rewrite Hs in Hi. rewrite Hg, Hq'.
    destruct (Hrows i r Hi) as (Hidx & ts & Hlast & Hc & Hw & Hw0 & Ht & Hdur & Hfin).
    split; [done|]. exists ts. split_and!; try done.
    destruct Hfin as [Hfin|(q & Hqin & _)]; [by left|].
    rewrite Hq in Hqin. by apply elem_of_nil in Hqin.
Qed.

Lemma RR_l_rows fuel title ps A out :
  0 <= A -> bursts_positive ps -> Forall (fun p => 0 <= ArrivalTime p <= A) ps ->
  A + total_burst ps < 2 ^ 63 ->
  RR_l fuel title ps = Ok out ->
  exists gantt rows wait turnaround throughput,
    out = [outputTitle title; outputGantt gantt;
           outputSchedule rows wait turnaround throughput]
    /\ forall (i : nat) r,
         rows !! i = Some (Some r) ->
         exists ts,
           last (slices_of (r_id r) gantt) = Some ts
           /\ r_completion r = Stop ts
           /\ r_burst r = dur ts
           /\ r_wait r = Start ts - r_arrival r /\ 0 <= r_wait r
           /\ r_turnaround r = r_wait r + r_burst r.
Proof.
  intros HA Hb Harr HT E. unfold RR_l in E.
  destruct (for_while RR_cond_l RR_body_l fuel (RR_init_l ps)) as [w| |] eqn:Ew;
    simpl in E; try done.
  injection E as <-.
  set (I := fun w => rr_books ps A w /\ rr_rows w).
  assert (Hstep : forall s s', I s -> RR_cond_l s = true -> RR_body_l s = Ok s' -> I s').
  { intros s s' [Hs1 Hs2] _ Es. split.
    - by eapply RR_body_l_books.
    - by eapply RR_body_l_rows. }
  assert (H0 : I (RR_init_l ps)).
  { split; [by apply RR_init_l_books|].
    intros i r Hi. unfold RR_init_l, make_table in Hi. simpl in Hi.
    apply lookup_replicate in Hi as [Hi _]. done. }
  destruct (for_while_exit I RR_cond_l RR_body_l Hstep fuel (RR_init_l ps) w H0 Ew)
    as [[_ Hrows] Hend].
  unfold RR_cond_l in Hend. apply orb_false_iff in Hend as [H1 _].
  apply bool_decide_eq_false in H1.
  assert (Hq : y_queue w = []) by (destruct (y_queue w); [done|simpl in H1; lia]).
  unfold RR_report_l. eexists _, _, _, _, _. split; [done|].
  intros i r Hi.
  destruct (Hrows i r Hi) as (_ & ts & Hlast & Hc & Hw & Hw0 & Ht & Hdur & Hfin).
  exists ts.
  assert (Hb2 : r_burst r <= 2).
  { destruct Hfin as [|(q & Hqin & _)]; [done|].
    rewrite Hq in Hqin. by apply elem_of_nil in Hqin. }
  assert (Hmin : minimum (r_burst r) quantum_time = r_burst r).
  { unfold minimum, quantum_time. destruct (r_burst r <? 2) eqn:E2; lia. }
  unfold dur in *. split_and!; try done; lia.
Qed.

(** ** Numbers as text *)

Lemma byte_of_digit_char d : 0 <= d <= 9 -> byte_of (digit_char d) = 48 + d.
Proof.
  intros Hd. unfold byte_of, digit_char.
  rewrite Ascii.nat_ascii_embedding by lia. lia.
Qed.

Lemma parse_digits_digit d s n :
  0 <= d <= 9 ->
  parse_digits (String (digit_char d) s) n = parse_digits s (n * 10 + d).
Proof.
  intros Hd. cbn [parse_digits]. rewrite byte_of_digit_char by done.
  replace ((48 <=? 48 + d) && (48 + d <=? 57)) with true
    by (symmetry; apply andb_true_iff; lia).
  cbv zeta. f_equal. lia.
Qed.

(** Reading the digits that were printed gives the number back. *)
Lemma parse_digits_digits fuel n acc :
  0 <= n < 10 ^ Z.of_nat fuel ->
  parse_digits (digits fuel n acc) 0 = parse_digits acc n.
Proof.
  revert n acc. induction fuel as [|fuel IH]; intros n acc Hn.
  - simpl in *. by replace n with 0 by lia.
  - rewrite Nat2Z.inj_succ, Z.pow_succ_r in Hn by lia.
    pose proof (Z.mod_pos_bound n 10 ltac:(lia)) as Hm.
    pose proof (Z.div_mod n 10 ltac:(lia)) as Hdm.
    cbn [digits]. destruct (n / 10 =? 0) eqn:E.
    + rewrite parse_digits_digit by lia. f_equal. lia.
    + rewrite IH.
      * rewrite parse_digits_digit by lia. f_equal. lia.
      * split; [apply Z.div_pos; lia|].
        apply Z.div_lt_upper_bound; lia.
Qed.

Lemma digits_head fuel n acc :
  0 <= n ->
  exists c rest, digits (S fuel) n acc = String c rest /\ 48 <= byte_of c <= 57.
Proof.
  revert n acc. induction fuel as [|fuel IH]; intros n acc Hn.
  - pose proof (Z.mod_pos_bound n 10 ltac:(lia)) as Hm.
    cbn [digits]. exists (digit_char (n mod 10)), acc.
    rewrite byte_of_digit_char by lia.
    split; [by destruct (n / 10 =? 0)|lia].
  - pose proof (Z.mod_pos_bound n 10 ltac:(lia)) as Hm.
    change (digits (S (S fuel)) n acc)
      with (if n / 10 =? 0 then String (digit_char (n mod 10)) acc
            else digits (S fuel) (n / 10) (String (digit_char (n mod 10)) acc)).
    destruct (n / 10 =? 0).
    + exists (digit_char (n mod 10)), acc. rewrite byte_of_digit_char by lia.
      split; [done|lia].
    + apply IH. apply Z.div_pos; lia.
Qed.

Lemma ParseInt_Sprint z : int64_range z -> ParseInt (Sprint z) = Some z.
Proof.
  intros [Hlo Hhi]. unfold Sprint.
  assert (H20 : 2 ^ 63 < 10 ^ Z.of_nat 20) by (vm_compute; reflexivity).
  destruct (z <? 0) eqn:Ez.
  - apply Z.ltb_lt in Ez.
    destruct (digits_head 19 (- z) "" ltac:(lia)) as (c & rest & Ed & Hc).
    pose proof (parse_digits_digits 20 (- z) "" ltac:(lia)) as Hp.
    rewrite Ed in Hp |- *. cbn [ParseInt].
    change (byte_of (Ascii.ascii_of_nat 45)) with 45.
    change (45 =? 45) with true. rewrite orb_true_r.
    rewrite Hp. simpl.
    rewrite (proj2 (Z.leb_le (- z) (2 ^ 63))) by lia. f_equal. lia.
  - apply Z.ltb_ge in Ez.
    destruct (digits_head 19 z "" ltac:(lia)) as (c & rest & Ed & Hc).
    pose proof (parse_digits_digits 20 z "" ltac:(lia)) as Hp.
    rewrite Ed in Hp |- *. cbn [ParseInt].
    rewrite (proj2 (Z.eqb_neq (byte_of c) 45)) by lia.
    rewrite (proj2 (Z.eqb_neq (byte_of c) 43)) by lia.
    cbn [orb]. rewrite Hp. simpl.
    by rewrite (proj2 (Z.ltb_lt z (2 ^ 63))) by lia.
Qed.

Lemma parse_digits_nonneg s n z : 0 <= n -> parse_digits s n = Some z -> 0 <= z.
Proof.
  revert n. induction s as [|c s IH]; intros n Hn; simpl.
  - intros [= <-]. done.
  - destruct ((48 <=? byte_of c) && (byte_of c <=? 57)) eqn:E; [|done].
    apply andb_true_iff in E as [E1 E2]. apply IH. lia.
Qed.

Lemma ParseInt_range s z : ParseInt s = Some z -> int64_range z.
Proof.
  unfold ParseInt. destruct s as [|c s']; [done|].
  set (neg := byte_of c =? 45).
  set (body := if (byte_of c =? 43) || neg then s' else String c s').
  destruct body as [|c' b'] eqn:Eb; [done|].
  destruct (parse_digits (String c' b') 0) as [un|] eqn:Ep; [|done].
  pose proof (parse_digits_nonneg _ 0 _ ltac:(lia) Ep) as Hun.
  simpl. unfold int64_range. destruct neg.
  - destruct (un <=? 2 ^ 63) eqn:E; [|done]. intros [= <-]. lia.
  - destruct (un <? 2 ^ 63) eqn:E; [|done]. intros [= <-]. lia.
Qed.

(** The number of digits. *)
Lemma digits_length_acc fuel n acc :
  (String.length acc <= String.length (digits fuel n acc))%nat.
Proof.
  revert n acc. induction fuel as [|fuel IH]; intros n acc; cbn [digits]; [done|].
  destruct (n / 10 =? 0); [simpl; lia|].
  etrans; [|apply IH]. simpl. lia.
Qed.

Lemma digits_length_le fuel n acc (k : nat) :
  0 <= n < 10 ^ Z.of_nat k -> (1 <= k)%nat ->
  (String.length (digits fuel n acc) <= k + String.length acc)%nat.
Proof.
  revert n acc k. induction fuel as [|fuel IH]; intros n acc k Hn Hk; cbn [digits];
    [lia|].
  destruct (n / 10 =? 0) eqn:E; [simpl; lia|].
  apply Z.eqb_neq in E.
  destruct k as [|[|k]]; [lia| |].
  - change (10 ^ Z.of_nat 1) with 10 in Hn.
    rewrite Z.div_small in E by lia. done.
  - etrans; [apply (IH _ _ (S k))|simpl; lia]; [|lia].
    rewrite (Nat2Z.inj_succ (S k)), Z.pow_succ_r in Hn by lia.
    split; [apply Z.div_pos; lia|apply Z.div_lt_upper_bound; lia].
Qed.

Lemma digits_length_ge fuel n acc (k : nat) :
  10 ^ (Z.of_nat k - 1) <= n -> (1 <= k <= fuel)%nat ->
  (k + String.length acc <= String.length (digits fuel n acc))%nat.
Proof.
  revert n acc k. induction fuel as [|fuel IH]; intros n acc k Hn Hk; cbn [digits];
    [lia|].
  assert (Hpos : 0 < 10 ^ (Z.of_nat k - 1)) by (apply Z.pow_pos_nonneg; lia).
  destruct (n / 10 =? 0) eqn:E.
  - apply Z.eqb_eq in E.
    assert (n < 10).
    { destruct (decide (n < 10)); [done|].
      assert (1 <= n / 10) by (apply Z.div_le_lower_bound; lia). lia. }
    destruct k as [|[|k]]; [lia|simpl; lia|].
    replace (Z.of_nat (S (S k)) - 1) with (Z.succ (Z.of_nat k)) in Hn by lia.
    rewrite Z.pow_succ_r in Hn by lia.
    assert (0 < 10 ^ Z.of_nat k) by (apply Z.pow_pos_nonneg; lia). lia.
  - destruct k as [|[|k]]; [lia| |].
    + etrans; [|apply digits_length_acc]. simpl. lia.
    + etrans; [|apply (IH _ _ (S k))]; [simpl; lia| |lia].
      replace (Z.of_nat (S (S k)) - 1) with (Z.succ (Z.of_nat (S k) - 1)) in Hn by lia.
      rewrite Z.pow_succ_r in Hn by lia.
      apply Z.div_le_lower_bound; lia.
Qed.

(** An [int64] prints in ten bytes or more exactly from a thousand million
    up and from minus a hundred million down. *)
Lemma Sprint_long z :
  int64_range z -> (10 <= len (Sprint z) <-> z <= - 10 ^ 8 \/ 10 ^ 9 <= z).
Proof.
  intros [Hlo Hhi]. unfold len, Sprint.
  destruct (z <? 0) eqn:Ez.
  - apply Z.ltb_lt in Ez. cbn [String.length].
    pose proof (digits_length_le 20 (- z) "" 8) as H1.
    pose proof (digits_length_ge 20 (- z) "" 9) as H2.
    change (Z.of_nat 8) with 8 in H1. change (Z.of_nat 9 - 1) with 8 in H2.
    change (String.length "") with 0%nat in H1, H2.
    split.
    + intros Hl. left.
      destruct (decide (z <= - 10 ^ 8)) as [|Hn]; [done|].
      specialize (H1 ltac:(lia) ltac:(lia)). lia.
    + intros [Hz|Hz]; [|lia].
      specialize (H2 ltac:(lia) ltac:(lia)). lia.
  - apply Z.ltb_ge in Ez.
    pose proof (digits_length_le 20 z "" 9) as H1.
    pose proof (digits_length_ge 20 z "" 10) as H2.
    change (Z.of_nat 9) with 9 in H1. change (Z.of_nat 10 - 1) with 9 in H2.
    change (String.length "") with 0%nat in H1, H2.
    split.
    + intros Hl. right.
      destruct (decide (10 ^ 9 <= z)) as [|Hn]; [done|].
      specialize (H1 ltac:(lia) ltac:(lia)). lia.
    + intros [Hz|Hz]; [lia|].
      specialize (H2 ltac:(lia) ltac:(lia)). lia.
Qed.

(** ** What the output helpers write *)

Lemma program_bind_Done {A B : Type} (m : program A) (k : A -> program B) w w' x :
  m w = (w', Done x) -> (m ≫= k) w = k x w'.
Proof. intros E. unfold mbind, program_bind. by rewrite E. Qed.

Lemma program_bind_Stopped {A B : Type} (m : program A) (k : A -> program B) w w' e :
  m w = (w', Stopped e) -> (m ≫= k) w = (w', Stopped e).
Proof. intros E. unfold mbind, program_bind. by rewrite E. Qed.

Lemma Repeat_Done s count w :
  0 <= count -> Repeat s count w = (w, Done (repeat_string s (Z.to_nat count))).
Proof. intros H. unfold Repeat. by rewrite (proj2 (Z.ltb_ge count 0)) by done. Qed.

Lemma Repeat_Stopped s count w :
  count < 0 -> Repeat s count w = (w, Stopped NegativeRepeat).
Proof. intros H. unfold Repeat. by rewrite (proj2 (Z.ltb_lt count 0)) by done. Qed.

Lemma padding_negative n : (8 - n) ÷ 2 < 0 <-> 10 <= n.
Proof. Z.to_euclidean_division_equations. lia. Qed.

(** The ids that [outputGantt] finds room for. *)
Lemma gantt_cells_spec gantt w :
  (Forall (fun ts => len (Sprint (PID ts)) < 10) gantt ->
   exists w', gantt_cells gantt w = (w', Done tt))
  /\ (~ Forall (fun ts => len (Sprint (PID ts)) < 10) gantt ->
      exists w', gantt_cells gantt w = (w', Stopped NegativeRepeat)).
Proof.
  revert w. induction gantt as [|ts rest IH]; intros w.
  - split; [by exists w|]. intros H. destruct H. constructor.
  - cbn [gantt_cells].
    destruct (padding_negative (len (Sprint (PID ts)))) as [Hp1 Hp2].
    destruct (decide (len (Sprint (PID ts)) < 10)) as [Hts|Hts].
    + assert (Hc : 0 <= (8 - len (Sprint (PID ts))) ÷ 2) by lia.
      rewrite (program_bind_Done _ _ _ _ _ (Repeat_Done " " _ w Hc)).
      erewrite program_bind_Done by reflexivity.
      destruct (IH (w ++ [Text (repeat_string " "
                                  (Z.to_nat ((8 - len (Sprint (PID ts))) ÷ 2))
                                +:+ Sprint (PID ts)
                                +:+ repeat_string " "
                                  (Z.to_nat ((8 - len (Sprint (PID ts))) ÷ 2))
                                +:+ "|")])) as [IH1 IH2].
      split.
      * intros H. apply Forall_cons in H as [_ H]. by apply IH1.
      * intros H. apply IH2. intros H'. apply H. by constructor.
    + assert (Hc : (8 - len (Sprint (PID ts))) ÷ 2 < 0) by lia.
      rewrite (program_bind_Stopped _ _ _ _ _ (Repeat_Stopped " " _ w Hc)).
      split.
      * intros H. apply Forall_cons in H as [H _]. done.
      * intros _. by exists w.
Qed.

Lemma gantt_times_Done gantt w : exists w', gantt_times gantt w = (w', Done tt).
Proof.
  revert w. induction gantt as [|ts rest IH]; intros w; [by exists w|].
  cbn [gantt_times].
  erewrite program_bind_Done by reflexivity.
  case_bool_decide.
  - erewrite program_bind_Done by reflexivity. apply IH.
  - erewrite program_bind_Done by reflexivity. apply IH.
Qed.

Lemma outputGantt_to_spec gantt w :
  (Forall (fun ts => len (Sprint (PID ts)) < 10) gantt ->
   exists w', outputGantt_to gantt w = (w', Done tt))
  /\ (~ Forall (fun ts => len (Sprint (PID ts)) < 10) gantt ->
      exists w', outputGantt_to gantt w = (w', Stopped NegativeRepeat)).
Proof.
  unfold outputGantt_to.
  erewrite program_bind_Done by reflexivity.
  erewrite program_bind_Done by reflexivity.
  destruct (gantt_cells_spec gantt
              ((w ++ [Text ("Gantt schedule" +:+ nl)]) ++ [Text "|"])) as [H1 H2].
  split; intros H.
  - destruct (H1 H) as (w1 & E1).
    erewrite program_bind_Done by exact E1.
    erewrite program_bind_Done by reflexivity.
    destruct (gantt_times_Done gantt (w1 ++ [Text nl])) as (w2 & E2).
    erewrite program_bind_Done by exact E2.
    by eexists.
  - destruct (H2 H) as (w1 & E1).
    erewrite program_bind_Stopped by exact E1. by eexists.
Qed.

Lemma outputTitle_to_Done title w :
  len title < 2 ^ 62 -> exists w', outputTitle_to title w = (w', Done tt).
Proof.
  intros Hl. unfold outputTitle_to.
  assert (H0 : 0 <= len title) by (unfold len; lia).
  assert (Hr : 0 <= wrap64 (len title * 2)).
  { rewrite wrap64_id by (unfold int64_range; lia). lia. }
  assert (Hq : 0 <= len title ÷ 2) by (apply Z.quot_pos; lia).
  erewrite program_bind_Done by (by apply Repeat_Done).
  erewrite program_bind_Done by reflexivity.
  erewrite program_bind_Done by (by apply Repeat_Done).
  erewrite program_bind_Done by reflexivity.
  erewrite program_bind_Done by (by apply Repeat_Done).
  by eexists.
Qed.

Lemma emit_all_app a b w :
  emit_all (a ++ b) w
  = match emit_all a w with
    | (w', Done _) => emit_all b w'
    | (w', Stopped e) => (w', Stopped e)
    end.
Proof.
  revert w. induction a as [|o a IH]; intros w; [done|].
  cbn [app emit_all]. unfold mbind, program_bind.
  destruct (emit o w) as [w1 [[]|e]]; [apply IH|done].
Qed.

Lemma emit_Done o w : printable o -> exists w', emit o w = (w', Done tt).
Proof.
  destruct o as [title|gantt|rows a b c]; simpl; intros H.
  - by apply outputTitle_to_Done.
  - by apply outputGantt_to_spec.
  - unfold outputSchedule_to. erewrite program_bind_Done by reflexivity. by eexists.
Qed.

Lemma emit_all_Done outs w :
  Forall printable outs -> exists w', emit_all outs w = (w', Done tt).
Proof.
  intros H. revert w. induction H as [|o outs Ho _ IH]; intros w; [by exists w|].
  cbn [emit_all]. destruct (emit_Done o w Ho) as (w1 & E1).
  erewrite program_bind_Done by exact E1. apply IH.
Qed.

(** ** Loading *)

Lemma load_row_reads row p : load_row row = Done p <-> reads row p.
Proof.
  unfold load_row, reads, field, mustStrToInt. split.
  - destruct row as [|s0 [|s1 [|s2 rest]]]; simpl; try done.
    + destruct (ParseInt s0); simpl; done.
    + destruct (ParseInt s0); simpl; [|done]. destruct (ParseInt s1); simpl; done.
    + destruct (ParseInt s0) as [id|] eqn:E0; simpl; [|done].
      destruct (ParseInt s1) as [b|] eqn:E1; simpl; [|done].
      destruct (ParseInt s2) as [a|] eqn:E2; simpl; [|done].
      case_bool_decide as Hlen.
      * destruct rest as [|s3 [|? ?]]; simpl in Hlen; try lia. simpl.
        destruct (ParseInt s3) as [pr|] eqn:E3; simpl; [|done].
        intros [= <-]. exists s0, s1, s2, [s3]. by split_and!.
      * simpl. intros [= <-]. exists s0, s1, s2, rest. split_and!; try done.
        destruct rest as [|s3 [|? ?]]; simpl in *; try done.
  - intros (s0 & s1 & s2 & rest & -> & E0 & E1 & E2 & Hpr & Hr & Hc & Ht & Hw).
    simpl. rewrite E0, E1, E2. simpl.
    destruct p as [id a b pr r c t wt]. simpl in *. subst r c t wt.
    case_bool_decide as Hlen.
    + destruct rest as [|s3 [|? ?]]; simpl in Hlen; try lia. simpl.
      by rewrite Hpr.
    + destruct rest as [|s3 [|? ?]]; simpl in *; try lia; by subst pr.
Qed.

Lemma load_rows_reads rows ps : load_rows rows = Done ps <-> Forall2 reads rows ps.
Proof.
  revert ps. induction rows as [|row rows IH]; intros ps; simpl.
  - split; [intros [= <-]; constructor|by intros ->%Forall2_nil_inv_l].
  - split.
    + destruct (load_row row) as [p|e] eqn:Er; simpl; [|done].
      destruct (load_rows rows) as [ps'|e] eqn:Ers; simpl; [|done].
      intros [= <-]. constructor; [by apply load_row_reads|by apply IH].
    + intros H. apply Forall2_cons_inv_l in H as (p & ps' & Hp & Hps & ->).
      apply load_row_reads in Hp. apply IH in Hps. by rewrite Hp, Hps.
Qed.

Lemma load_row_Stopped row e :
  load_row row = Stopped e ->
  (e = Panicked IndexOutOfRange /\ (length row < 3)%nat)
  \/ (e = Exited 1 /\ exists s, s ∈ row /\ ParseInt s = None).
Proof.
  unfold load_row, field, mustStrToInt.
  destruct row as [|s0 [|s1 [|s2 rest]]]; simpl.
  - intros [= <-]. left. split; [done|lia].
  - destruct (ParseInt s0) eqn:E0; simpl.
    + intros [= <-]. left. split; [done|lia].
    + intros [= <-]. right. split; [done|]. exists s0. split; [left|done].
  - destruct (ParseInt s0) eqn:E0; simpl.
    + destruct (ParseInt s1) eqn:E1; simpl.
      * intros [= <-]. left. split; [done|lia].
      * intros [= <-]. right. split; [done|]. exists s1. split; [right; left|done].
    + intros [= <-]. right. split; [done|]. exists s0. split; [left|done].
  - destruct (ParseInt s0) eqn:E0; simpl;
      [|intros [= <-]; right; split; [done|]; exists s0; split; [left|done]].
    destruct (ParseInt s1) eqn:E1; simpl;
      [|intros [= <-]; right; split; [done|]; exists s1; split; [right; left|done]].
    destruct (ParseInt s2) eqn:E2; simpl;
      [|intros [= <-]; right; split; [done|]; exists s2; split;
        [right; right; left|done]].
    case_bool_decide as Hlen; [|done].
    destruct rest as [|s3 [|? ?]]; simpl in Hlen; try lia. simpl.
    destruct (ParseInt s3) eqn:E3; simpl; [done|].
    intros [= <-]. right. split; [done|]. exists s3.
    split; [right; right; right; left|done].
Qed.

Lemma load_rows_Stopped rows e :
  load_rows rows = Stopped e ->
  (e = Panicked IndexOutOfRange /\ exists row, row ∈ rows /\ (length row < 3)%nat)
  \/ (e = Exited 1 /\ exists row s, row ∈ rows /\ s ∈ row /\ ParseInt s = None).
Proof.
  induction rows as [|row rows IH]; simpl; [done|].
  destruct (load_row row) as [p|e'] eqn:Er; simpl.
  - destruct (load_rows rows) as [ps|e'] eqn:Ers; simpl; [done|].
    intros [= <-]. destruct (IH eq_refl) as [(-> & r & Hr & Hl)|(-> & r & s & Hr & Hs & Hp)].
    + left. split; [done|]. exists r. split; [by right|done].
    + right. split; [done|]. exists r, s. split_and!; [by right|done..].
  - intros [= <-]. destruct (load_row_Stopped _ _ Er) as [(-> & Hl)|(-> & s & Hs & Hp)].
    + left. split; [done|]. exists row. split; [left|done].
    + right. split; [done|]. exists row, s. split_and!; [left|done..].
Qed.

(** ** [main] *)

Lemma wf_load ps : wf (load ps) (slice_of 0 ps).
Proof. unfold wf, load, slice_of, backing. simpl. lia. Qed.

Lemma elems_load ps : elems (load ps) (slice_of 0 ps) = ps.
Proof. unfold elems, load, slice_of, backing. simpl. by rewrite take_ge. Qed.

Lemma short_id_prints_short z : short_id z -> len (Sprint z) < 10.
Proof.
  intros [H1 H2].
  destruct (Sprint_long z ltac:(unfold int64_range; lia)) as [H _].
  destruct (decide (len (Sprint z) < 10)) as [|Hn]; [done|].
  destruct (H ltac:(lia)); lia.
Qed.

Lemma FCFS_report_printable ps :
  Forall (fun p => short_id (ProcessID p)) ps ->
  Forall printable (FCFS_report "First-come, first-serve" ps).
Proof.
  intros Hid. unfold FCFS_report.
  constructor; [vm_compute; reflexivity|].
  constructor; [|constructor; [done|constructor]].
  simpl. apply Forall_fmap. apply Forall_forall. intros x Hx.
  apply list_elem_of_lookup in Hx as [i Hi].
  pose proof (FCFS_spec_rows 0 0 ps ltac:(unfold int64_range; lia)) as H2.
  destruct (Forall2_lookup_r _ _ _ _ _ H2 Hi) as (p & Hp & _ & _ & Hpid).
  simpl. rewrite Hpid. apply short_id_prints_short.
  rewrite Forall_forall in Hid. apply Hid. apply list_elem_of_lookup. eauto.
Qed.

Lemma call_Ok h outs w w' :
  emit_all outs w = (w', Done tt) -> call (Ok (h, outs)) w = (w', Done h).
Proof. intros E. unfold call. by erewrite program_bind_Done by exact E. Qed.

(** * Further properties of the code *)

(** ** The queues *)

(** X1.  [AddProcess] puts the process at the end of the queue and changes
    nothing else that a slice can see: the header the queue had before the
    call still shows the old elements, and so does every slice of another
    array. *)
Theorem AddProcess_extends (h : heap) (pq : slice) (p : Process) (h' : heap)
    (pq' t : slice) :
  wf h pq -> wf h t -> apart t pq ->
  AddProcess h pq p = (h', pq') ->
  wf h' pq' /\ elems h' pq' = elems h pq ++ [p]
  /\ elems h' pq = elems h pq
  /\ wf h' t /\ elems h' t = elems h t.
Proof.
  intros Hwf Ht Hap E. unfold AddProcess, append in E.
  destruct (append_list_spec _ _ _ _ _ Hwf E) as (Hm & Hwf' & He & _).
  split_and!; [done|done| |by eapply modifies_wf|by eapply modifies_elems].
  by eapply append_list_old.
Qed.

(** An instance: a fifth process added to the full array of the textbook
    input. *)
Lemma AddProcess_extends_witness :
  exists h' pq',
    AddProcess (load textbook ++ load single) (slice_of 0 textbook) (proc 5 4 2 0)
    = (h', pq')
    /\ elems h' pq' = textbook ++ [proc 5 4 2 0]
    /\ elems h' (slice_of 0 textbook) = textbook
    /\ elems h' (slice_of 1 single) = single.
Proof.
  destruct (AddProcess (load textbook ++ load single) (slice_of 0 textbook)
              (proc 5 4 2 0)) as [h' pq'] eqn:E.
  exists h', pq'. split; [reflexivity|].
  destruct (AddProcess_extends (load textbook ++ load single) (slice_of 0 textbook)
              (proc 5 4 2 0) h' pq' (slice_of 1 single)) as (_ & H1 & H2 & _ & H3).
  - unfold wf. simpl. lia.
  - unfold wf. simpl. lia.
  - unfold apart. simpl. right; right. lia.
  - exact E.
  - split_and!; [exact H1|exact H2|exact H3].
Defined.

(** X2.  On an index of the queue [RemoveProcess] returns, and the queue
    then holds the other elements in their order.  It works in place: no
    array is made, the queue keeps its array, its offset and its capacity,
    and the cell that held the last element is not cleared, so that the
    header from before the call shows that element twice. *)
Theorem RemoveProcess_in_place (h : heap) (pq : slice) (index : Z) :
  wf h pq -> 0 <= index < Z.of_nat (s_len pq) ->
  exists h',
    RemoveProcess h pq index
    = Ok (h', mkSlice (s_arr pq) (s_off pq) (s_len pq - 1) (s_cap pq))
    /\ length h' = length h
    /\ elems h' (mkSlice (s_arr pq) (s_off pq) (s_len pq - 1) (s_cap pq))
       = delete (Z.to_nat index) (elems h pq)
    /\ elems h' pq
       = delete (Z.to_nat index) (elems h pq) ++ drop (s_len pq - 1) (elems h pq).
Proof.
  intros Hwf Hi.
  destruct (RemoveProcess_spec h pq index Hwf Hi) as (h' & s' & E & _ & _ & He & _).
  destruct (RemoveProcess_header _ _ _ _ _ Hwf Hi E) as [-> Hlen].
  exists h'. split_and!; [done..|].
  by eapply RemoveProcess_array.
Qed.

(** An instance: the second of the four textbook processes is removed. *)
Lemma RemoveProcess_in_place_witness :
  exists h',
    RemoveProcess (load textbook) (slice_of 0 textbook) 1
    = Ok (h', mkSlice 0 0 3 4)
    /\ length h' = 1%nat
    /\ elems h' (mkSlice 0 0 3 4) = [proc 1 0 8 0; proc 3 2 9 0; proc 4 3 5 0]
    /\ elems h' (slice_of 0 textbook)
       = [proc 1 0 8 0; proc 3 2 9 0; proc 4 3 5 0; proc 4 3 5 0].
Proof.
  apply (RemoveProcess_in_place (load textbook) (slice_of 0 textbook) 1).
  - unfold wf. simpl. lia.
  - simpl. lia.
Defined.

(** X3.  [RemoveProcess] returns exactly on the indices of the queue.  On
    any other index, and so on every index when the queue is empty, it
    panics with a slice-bounds error. *)
Theorem RemoveProcess_out_of_range (h : heap) (pq : slice) (index : Z) :
  wf h pq ->
  ((exists r, RemoveProcess h pq index = Ok r) <-> 0 <= index < Z.of_nat (s_len pq))
  /\ (~ (0 <= index < Z.of_nat (s_len pq)) ->
      RemoveProcess h pq index = Panic SliceBoundsOutOfRange).
Proof.
  intros Hwf.
  assert (Hout : ~ (0 <= index < Z.of_nat (s_len pq)) ->
                 RemoveProcess h pq index = Panic SliceBoundsOutOfRange).
  { apply RemoveProcess_Panic. by destruct Hwf. }
  split; [|done]. split.
  - intros [r E].
    destruct (decide (0 <= index < Z.of_nat (s_len pq))) as [|Hn]; [done|].
    rewrite (Hout Hn) in E. done.
  - intros Hi.
    destruct (RemoveProcess_spec h pq index Hwf Hi) as (h' & s' & E & _).
    by exists (h', s').
Qed.

(** An instance: the queue of a [var pq ProcessQueue] that nothing was added
    to. *)
Lemma RemoveProcess_out_of_range_witness :
  ((exists r, RemoveProcess [] nil_slice 0 = Ok r)
   <-> 0 <= 0 < Z.of_nat (s_len nil_slice))
  /\ (~ (0 <= 0 < Z.of_nat (s_len nil_slice)) ->
      RemoveProcess [] nil_slice 0 = Panic SliceBoundsOutOfRange).
Proof.
  apply (RemoveProcess_out_of_range [] nil_slice 0).
  unfold wf. simpl. lia.
Defined.

(** X4.  [AddProcess] after [RemoveProcess] allocates nothing: the process
    goes into the cell that the removal left behind, and the queue is again
    the slice it was before the removal, now showing the other elements
    followed by the new one. *)
Theorem AddProcess_after_RemoveProcess (h : heap) (pq : slice) (index : Z)
    (p : Process) (h1 : heap) (pq1 : slice) (h2 : heap) (pq2 : slice) :
  wf h pq -> 0 <= index < Z.of_nat (s_len pq) ->
  RemoveProcess h pq index = Ok (h1, pq1) ->
  AddProcess h1 pq1 p = (h2, pq2) ->
  pq2 = pq /\ length h2 = length h
  /\ elems h2 pq = delete (Z.to_nat index) (elems h pq) ++ [p].
Proof.
  intros Hwf Hi E1 E2.
  destruct (RemoveProcess_spec h pq index Hwf Hi) as (h' & s' & E & _ & Hwf1 & He & _).
  rewrite E1 in E. injection E as <- <-.
  destruct (RemoveProcess_header _ _ _ _ _ Hwf Hi E1) as [Hs Hlen].
  unfold AddProcess, append in E2.
  destruct (append_list_spec _ _ _ _ _ Hwf1 E2) as (_ & _ & He2 & _).
  assert (Hpq : pq2 = pq).
  { unfold append_list in E2. subst pq1. simpl in E2.
    destruct Hwf as [Hl _].
    rewrite decide_True in E2 by lia. injection E2 as _ <-.
    destruct pq as [a o n c]. simpl in *. f_equal. lia. }
  assert (Hh : length h2 = length h1).
  { unfold append_list in E2. subst pq1. simpl in E2.
    destruct Hwf as [Hl _].
    rewrite decide_True in E2 by lia. injection E2 as <- _.
    by rewrite length_insert. }
  split_and!; [done|lia|]. rewrite <- Hpq at 1. by rewrite He2, He.
Qed.

(** An instance: process 2 leaves the textbook queue and process 5 enters
    it. *)
Lemma AddProcess_after_RemoveProcess_witness :
  exists h1 pq1 h2 pq2,
    RemoveProcess (load textbook) (slice_of 0 textbook) 1 = Ok (h1, pq1)
    /\ AddProcess h1 pq1 (proc 5 4 2 0) = (h2, pq2)
    /\ pq2 = slice_of 0 textbook /\ length h2 = 1%nat
    /\ elems h2 (slice_of 0 textbook)
       = [proc 1 0 8 0; proc 3 2 9 0; proc 4 3 5 0; proc 5 4 2 0].
Proof.
  eexists _, _, _, _.
  split; [vm_compute; reflexivity|].
  split; [vm_compute; reflexivity|].
  eapply (AddProcess_after_RemoveProcess (load textbook) (slice_of 0 textbook) 1
            (proc 5 4 2 0)).
  - unfold wf. simpl. lia.
  - simpl. lia.
  - vm_compute; reflexivity.
  - vm_compute; reflexivity.
Defined.

(** ** The sort *)

(** X5.  Each of the three sorts leaves its slice in order: no element
    stands before one that its comparator puts first.  The slice keeps its
    length, and slices of other arrays are not touched. *)
Theorem sorted_queues_in_order (h : heap) (s t : slice) :
  wf h s -> wf h t -> apart t s ->
  (in_order lessArrival (elems (sortArrivalQueue h s) s)
   /\ in_order lessDeploy (elems (sortDeployQueue h s) s)
   /\ in_order lessPriority (elems (sortPriorityQueue h s) s))
  /\ (length (elems (sortArrivalQueue h s) s) = s_len s
      /\ length (elems (sortDeployQueue h s) s) = s_len s
      /\ length (elems (sortPriorityQueue h s) s) = s_len s)
  /\ (elems (sortArrivalQueue h s) t = elems h t
      /\ elems (sortDeployQueue h s) t = elems h t
      /\ elems (sortPriorityQueue h s) t = elems h t).
Proof.
  intros Hwf Ht Hap.
  unfold sortArrivalQueue, sortDeployQueue, sortPriorityQueue.
  destruct (sort_Slice_spec lessArrival h s Hwf) as (Hm1 & Hw1 & He1).
  destruct (sort_Slice_spec lessDeploy h s Hwf) as (Hm2 & Hw2 & He2).
  destruct (sort_Slice_spec lessPriority h s Hwf) as (Hm3 & Hw3 & He3).
  split_and!.
  - rewrite He1. apply insertion_sort_in_order, lessArrival_weak_order.
  - rewrite He2. apply insertion_sort_in_order, lessDeploy_weak_order.
  - rewrite He3. apply insertion_sort_in_order, lessPriority_weak_order.
  - by apply elems_length.
  - by apply elems_length.
  - by apply elems_length.
  - by eapply modifies_elems.
  - by eapply modifies_elems.
  - by eapply modifies_elems.
Qed.

(** An instance: the array of [tied] sorted by arrival, beside the array of
    [single]. *)
Lemma sorted_queues_in_order_witness :
  in_order lessArrival
           (elems (sortArrivalQueue (load tied ++ load single) (slice_of 0 tied))
                  (slice_of 0 tied))
  /\ elems (sortArrivalQueue (load tied ++ load single) (slice_of 0 tied))
           (slice_of 1 single) = single.
Proof.
  pose proof (sorted_queues_in_order (load tied ++ load single) (slice_of 0 tied)
                (slice_of 1 single)) as H.
  destruct H as ((H1 & _) & _ & (H2 & _)).
  - unfold wf. simpl. lia.
  - unfold wf. simpl. lia.
  - unfold apart. simpl. right; right. lia.
  - split; [exact H1|exact H2].
Defined.

(** ** First-come, first-serve *)

(** X6.  When no arrival time is negative and only the first process may
    arrive at 0, the timeline of [FCFSSchedule] has no pause and no overlap:
    the first interval starts at 0 and every other one where the interval
    before it stops, each lasting the burst of its process, whatever the
    arrival times are. *)
Theorem FCFS_timeline_back_to_back (title : string) (h : heap) (processes : slice) :
  wf h processes -> arrivals_positive (elems h processes) ->
  exists rows wait turnaround throughput,
    FCFSSchedule title h processes
    = Ok (h, [outputTitle title;
              outputGantt (back_to_back 0 (elems h processes));
              outputSchedule rows wait turnaround throughput]).
Proof.
  intros Hwf Hpos. rewrite FCFSSchedule_spec by done. unfold FCFS_report.
  assert (G : map snd (FCFS_spec 0 0 (elems h processes))
              = back_to_back 0 (elems h processes)).
  { destruct (elems h processes) as [|p rest]; [done|].
    destruct Hpos as [Hp Hrest]. simpl.
    assert (Hst : int64_range (add64 0 (BurstDuration p))) by apply wrap64_range.
    destruct (0 <? ArrivalTime p) eqn:E.
    - rewrite add64_sub64_cancel by (unfold int64_range; lia).
      by rewrite FCFS_spec_back_to_back.
    - assert (ArrivalTime p = 0) as -> by (apply Z.ltb_ge in E; lia).
      by rewrite FCFS_spec_back_to_back. }
  rewrite G. by eexists _, _, _, _.
Qed.

(** An instance: on [late], whose only process arrives at 5, the interval is
    from 0 to 3. *)
Lemma FCFS_timeline_back_to_back_witness :
  exists rows wait turnaround throughput,
    FCFSSchedule "First-come, first-serve" (load late) (slice_of 0 late)
    = Ok (load late, [outputTitle "First-come, first-serve";
                      outputGantt [mkTimeSlice 1 0 3];
                      outputSchedule rows wait turnaround throughput]).
Proof.
  apply (FCFS_timeline_back_to_back "First-come, first-serve" (load late)
           (slice_of 0 late)).
  - unfold wf. simpl. lia.
  - simpl. split; [lia|constructor].
Defined.

(** X7.  On such arrival times, and when no sum leaves [int64], the table of
    [FCFSSchedule] is the one of a processor that runs the processes in
    input order without a pause: the process at index [i] starts when the
    bursts before it are done, its wait is that start less its arrival, its
    turnaround the wait plus its burst, its completion the start plus its
    burst.  The wait is negative exactly when the process is started before
    it has arrived. *)
Theorem FCFS_rows_without_pause (title : string) (h : heap) (processes : slice)
    (i : nat) (p : Process) :
  wf h processes -> arrivals_positive (elems h processes) ->
  FCFS_bounded (elems h processes) ->
  elems h processes !! i = Some p ->
  exists timeline rows wait turnaround throughput r,
    FCFSSchedule title h processes
    = Ok (h, [outputTitle title; outputGantt timeline;
              outputSchedule rows wait turnaround throughput])
    /\ rows !! i = Some (Some r)
    /\ let start := total_burst (take i (elems h processes)) in
       timeline !! i = Some (mkTimeSlice (ProcessID p) start (start + BurstDuration p))
       /\ r_wait r = start - ArrivalTime p
       /\ r_turnaround r = r_wait r + BurstDuration p
       /\ r_completion r = start + BurstDuration p
       /\ (r_wait r < 0 <-> start < ArrivalTime p).
Proof.
  intros Hwf Hpos [Hb Hsum] Hp. rewrite FCFSSchedule_spec by done. unfold FCFS_report.
  pose proof (FCFS_spec_length 0 0 (elems h processes)) as Hlen.
  destruct (lookup_lt_is_Some_2 (FCFS_spec 0 0 (elems h processes)) i) as [x Hx].
  { rewrite Hlen. by eapply lookup_lt_Some. }
  eexists _, _, _, _, _, x.1. split; [reflexivity|].
  split; [by rewrite !list_lookup_fmap, Hx|].
  rewrite list_lookup_fmap, Hx. simpl.
  revert Hpos Hb Hsum Hp Hx. generalize (elems h processes). clear.
  intros l Hpos Hb Hsum Hp Hx.
  assert (G : r_wait x.1 = total_burst (take i l) - ArrivalTime p
              /\ r_turnaround x.1 = total_burst (take i l) + BurstDuration p - ArrivalTime p
              /\ r_completion x.1 = total_burst (take i l) + BurstDuration p
              /\ x.2 = mkTimeSlice (ProcessID p) (total_burst (take i l))
                                   (total_burst (take i l) + BurstDuration p)).
  { destruct l as [|q rest]; [done|]. destruct Hpos as [Hq Hrest].
    apply Forall_cons in Hb as [(Hbq & Haq) Hb].
    assert (Hall : Forall (fun p => 0 <= BurstDuration p /\ 0 < ArrivalTime p < 2 ^ 63) rest).
    { rewrite Forall_forall in Hb, Hrest. apply Forall_forall. intros y Hy.
      specialize (Hb y Hy). specialize (Hrest y Hy). simpl in *. lia. }
    assert (Hnn : 0 <= total_burst rest).
    { apply total_burst_nonneg. eapply Forall_impl; [exact Hall|]. simpl. tauto. }
    change (total_burst (q :: rest)) with (BurstDuration q + total_burst rest) in Hsum.
    destruct (decide (0 < ArrivalTime q)) as [Hpq|Hpq].
    - pose proof (FCFS_spec_plain 0 0 (q :: rest) i p x) as H. simpl in H.
      rewrite !Z.add_0_l in H. apply H; [lia| | |done..].
      + change (total_burst (q :: rest)) with (BurstDuration q + total_burst rest). lia.
      + constructor; [lia|done].
    - assert (Ha0 : ArrivalTime q = 0) by lia.
      simpl in Hx. rewrite Ha0 in Hx. simpl in Hx.
      assert (Hs : add64 0 (BurstDuration q) = BurstDuration q).
      { apply wrap64_id. unfold int64_range. lia. }
      destruct i as [|i]; simpl in Hp, Hx.
      + injection Hp as <-. injection Hx as <-. simpl.
        change (total_burst []) with 0. rewrite Ha0. unfold add64.
        rewrite !Z.add_0_r, !Z.add_0_l.
        rewrite (wrap64_id (BurstDuration q)) by (unfold int64_range; lia).
        rewrite (wrap64_id (BurstDuration q)) by (unfold int64_range; lia).
        change (wrap64 0) with 0.
        split_and!; [lia..|done].
      + rewrite Hs in Hx.
        destruct (FCFS_spec_plain 0 (BurstDuration q) rest i p x
                    ltac:(lia) ltac:(lia) Hall Hp Hx) as (H1 & H2 & H3 & H4).
        change (total_burst (take (S i) (q :: rest)))
          with (BurstDuration q + total_burst (take i rest)).
        rewrite H1, H2, H3, H4. split_and!; [lia..|f_equal; lia]. }
  destruct G as (G1 & G2 & G3 & G4). rewrite G4.
  split_and!; [done|lia..].
Qed.

(** An instance: the third process of the textbook input starts at 12,
    having arrived at 2. *)
Lemma FCFS_rows_without_pause_witness :
  exists timeline rows wait turnaround throughput r,
    FCFSSchedule "First-come, first-serve" (load textbook) (slice_of 0 textbook)
    = Ok (load textbook, [outputTitle "First-come, first-serve"; outputGantt timeline;
                          outputSchedule rows wait turnaround throughput])
    /\ rows !! 2%nat = Some (Some r)
    /\ timeline !! 2%nat = Some (mkTimeSlice 3 12 21)
    /\ r_wait r = 10
    /\ r_turnaround r = r_wait r + 9
    /\ r_completion r = 21
    /\ (r_wait r < 0 <-> 12 < 2).
Proof.
  apply (FCFS_rows_without_pause "First-come, first-serve" (load textbook)
           (slice_of 0 textbook) 2 (proc 3 2 9 0)).
  - unfold wf. simpl. lia.
  - simpl. split; [lia|]. repeat constructor.
  - split; [|vm_compute; reflexivity].
    repeat constructor; simpl; lia.
  - reflexivity.
Defined.

(** ** The preemptive schedulers *)

(** X8.  When every burst is positive and the bursts add up to an [int64],
    the table that [SJFSchedule] or [SJFPrioritySchedule] hands on is filled
    from the top, in the order in which the processes completed: at least one
    row, the completion time of each row later than that of the row before
    it, and the rows of the processes that were never run left empty at the
    bottom. *)
Theorem preemptive_rows_in_completion_order (fuel : nat) (title : string) (h : heap)
    (processes : slice) (h' : heap) (out : list output) :
  wf h processes -> bursts_positive (elems h processes) ->
  total_burst (elems h processes) < 2 ^ 63 ->
  SJFSchedule fuel title h processes = Ok (h', out)
  \/ SJFPrioritySchedule fuel title h processes = Ok (h', out) ->
  exists done wait turnaround throughput,
    out = [outputTitle title;
           outputSchedule
             (map Some done ++ replicate (s_len processes - length done) None)
             wait turnaround throughput]
    /\ done <> [] /\ (length done <= s_len processes)%nat
    /\ ascending (map r_completion done).
Proof.
  intros Hwf Hb HT E.
  assert (exists less, preemptive_l less fuel title (elems h processes) = Ok out)
    as [less El].
  { destruct E as [E|E]; [exists lessDeploy|exists lessPriority];
      by destruct (preemptive_schedule_Ok _ fuel title h processes h' out Hwf E). }
  destruct (preemptive_l_books less fuel title _ out Hb HT El)
    as (done & -> & Hne & Hle & Hasc & _).
  rewrite (elems_length h processes Hwf) in Hle |- *.
  by eexists done, _, _, _.
Qed.

(** An instance: the textbook input under [SJFSchedule]. *)
Lemma preemptive_rows_in_completion_order_witness :
  exists h' out,
    SJFSchedule 27 "Shortest-job-first" (load textbook) (slice_of 0 textbook)
    = Ok (h', out)
    /\ exists done wait turnaround throughput,
         out = [outputTitle "Shortest-job-first";
                outputSchedule
                  (map Some done
                   ++ replicate (s_len (slice_of 0 textbook) - length done) None)
                  wait turnaround throughput]
         /\ done <> [] /\ (length done <= s_len (slice_of 0 textbook))%nat
         /\ ascending (map r_completion done).
Proof.
  eexists _, _. split; [vm_compute; reflexivity|].
  eapply (preemptive_rows_in_completion_order 27 "Shortest-job-first" (load textbook)
            (slice_of 0 textbook)).
  - unfold wf. simpl. lia.
  - repeat constructor; simpl; lia.
  - vm_compute. reflexivity.
  - left. vm_compute. reflexivity.
Defined.

(** X9.  On such an input the processor of the preemptive schedulers is
    never idle and no tick is lost: the completion time of the last row is
    the sum of the bursts of the rows written.  The throughput is the number
    of processes of the input over that sum, and the two averages are the
    totals of the rows written over the number of processes of the input,
    whether or not all of them were run. *)
Theorem preemptive_clock_is_work_done (fuel : nat) (title : string) (h : heap)
    (processes : slice) (h' : heap) (out : list output) :
  wf h processes -> bursts_positive (elems h processes) ->
  total_burst (elems h processes) < 2 ^ 63 ->
  SJFSchedule fuel title h processes = Ok (h', out)
  \/ SJFPrioritySchedule fuel title h processes = Ok (h', out) ->
  exists rows,
    let total := f64_of_int (Z.of_nat (s_len processes)) in
    out = [outputTitle title;
           outputSchedule rows
             (f64_div (fsum f64_zero (map r_wait (rows_done rows))) total)
             (f64_div (fsum f64_zero (map r_turnaround (rows_done rows))) total)
             (f64_div total (f64_of_int (zsum r_burst (rows_done rows))))]
    /\ last (map r_completion (rows_done rows)) = Some (zsum r_burst (rows_done rows)).
Proof.
  intros Hwf Hb HT E.
  assert (exists less, preemptive_l less fuel title (elems h processes) = Ok out)
    as [less El].
  { destruct E as [E|E]; [exists lessDeploy|exists lessPriority];
      by destruct (preemptive_schedule_Ok _ fuel title h processes h' out Hwf E). }
  destruct (preemptive_l_books less fuel title _ out Hb HT El)
    as (done & -> & _ & _ & _ & Hlast & _).
  rewrite (elems_length h processes Hwf).
  eexists. cbv zeta. by rewrite rows_done_table.
Qed.

(** An instance: the textbook input under [SJFPrioritySchedule]. *)
Lemma preemptive_clock_is_work_done_witness :
  exists h' out,
    SJFPrioritySchedule 27 "Priority" (load textbook) (slice_of 0 textbook)
    = Ok (h', out)
    /\ exists rows,
         let total := f64_of_int (Z.of_nat (s_len (slice_of 0 textbook))) in
         out = [outputTitle "Priority";
                outputSchedule rows
                  (f64_div (fsum f64_zero (map r_wait (rows_done rows))) total)
                  (f64_div (fsum f64_zero (map r_turnaround (rows_done rows))) total)
                  (f64_div total (f64_of_int (zsum r_burst (rows_done rows))))]
         /\ last (map r_completion (rows_done rows))
            = Some (zsum r_burst (rows_done rows)).
Proof.
  eexists _, _. split; [vm_compute; reflexivity|].
  eapply (preemptive_clock_is_work_done 27 "Priority" (load textbook)
            (slice_of 0 textbook)).
  - unfold wf. simpl. lia.
  - repeat constructor; simpl; lia.
  - vm_compute. reflexivity.
  - right. vm_compute. reflexivity.
Defined.

(** X10.  When moreover no arrival time is negative and some process
    arrives at 0, no process is given time before it has arrived, and every
    row written is a row in plain integers: the wait is not negative, the
    turnaround is the wait plus the burst, and the completion time is the
    arrival time plus the turnaround. *)
Theorem preemptive_rows_on_time (fuel : nat) (title : string) (h : heap)
    (processes : slice) (h' : heap) (out : list output) :
  wf h processes -> bursts_positive (elems h processes) ->
  total_burst (elems h processes) < 2 ^ 63 ->
  starts_at_zero (elems h processes) ->
  SJFSchedule fuel title h processes = Ok (h', out)
  \/ SJFPrioritySchedule fuel title h processes = Ok (h', out) ->
  exists rows wait turnaround throughput,
    out = [outputTitle title; outputSchedule rows wait turnaround throughput]
    /\ Forall row_plain (rows_done rows).
Proof.
  intros Hwf Hb HT Hz E.
  assert (exists less, preemptive_l less fuel title (elems h processes) = Ok out)
    as [less El].
  { destruct E as [E|E]; [exists lessDeploy|exists lessPriority];
      by destruct (preemptive_schedule_Ok _ fuel title h processes h' out Hwf E). }
  destruct (preemptive_l_books less fuel title _ out Hb HT El)
    as (done & -> & _ & _ & _ & _ & Hrows).
  eexists _, _, _, _. split; [done|]. rewrite rows_done_table. auto.
Qed.

(** An instance: the textbook input under [SJFSchedule]. *)
Lemma preemptive_rows_on_time_witness :
  exists h' out,
    SJFSchedule 27 "Shortest-job-first" (load textbook) (slice_of 0 textbook)
    = Ok (h', out)
    /\ exists rows wait turnaround throughput,
         out = [outputTitle "Shortest-job-first";
                outputSchedule rows wait turnaround throughput]
         /\ Forall row_plain (rows_done rows).
Proof.
  eexists _, _. split; [vm_compute; reflexivity|].
  eapply (preemptive_rows_on_time 27 "Shortest-job-first" (load textbook)
            (slice_of 0 textbook)).
  - unfold wf. simpl. lia.
  - repeat constructor; simpl; lia.
  - vm_compute. reflexivity.
  - split; [repeat constructor; simpl; lia|].
    exists (proc 1 0 8 0). split; [left|reflexivity].
  - left. vm_compute. reflexivity.
Defined.

(** X11.  In every state of the loop of a preemptive scheduler the ready
    queue is in the order of its policy, and the process that runs, while it
    has time left, is the head of that queue less the ticks it was given
    since the queue was sorted; so no ready process is one that the policy
    puts before the running one.  [SJFSchedule] orders by remaining time,
    then arrival; [SJFPrioritySchedule] by priority, burst, arrival. *)
Theorem preemptive_runs_policy_first (sortQueue : heap -> slice -> heap)
    (less : Process -> Process -> bool) (h : heap) (processes : slice)
    (v0 : sjf_vars) (k : nat) (v : sjf_vars) :
  wf h processes -> bursts_positive (elems h processes) ->
  total_burst (elems h processes) < 2 ^ 63 ->
  (sortQueue = sortDeployQueue /\ less = lessDeploy)
  \/ (sortQueue = sortPriorityQueue /\ less = lessPriority) ->
  preemptive_init h processes = Ok v0 ->
  ticks sortQueue k v0 = Ok v ->
  in_order less (ready v)
  /\ (RemainingTime (j_process v) <> 0 ->
      (exists q, head (ready v) = Some q
                 /\ set_RemainingTime q (RemainingTime (j_process v)) = j_process v)
      /\ Forall (fun q => less q (j_process v) = false) (ready v)).
Proof.
  intros Hwf Hb HT Hsort E0 Ek.
  assert (sortQueue = sort_Slice less
          /\ weak_order less
          /\ forall q0 r q', r <= RemainingTime q0 -> less q' q0 = false ->
                             less q' (set_RemainingTime q0 r) = false)
    as (-> & Hless & Hgiven).
  { destruct Hsort as [[-> ->]|[-> ->]]; split_and!; try done.
    - apply lessDeploy_weak_order.
    - apply lessDeploy_given.
    - apply lessPriority_weak_order. }
  pose proof (init_sim h processes Hwf) as H0. rewrite E0 in H0.
  apply refines_Ok_l in H0 as (w0 & El0 & Hinv0 & <-).
  destruct (ticks_view less h k v0 v Hinv0 Ek) as [_ Elk].
  destruct (ticks_l_books less _ k _ _ Hless Hb HT El0 Elk) as (_ & _ & Hpol).
  split; [exact (proj1 Hpol)|].
  intros Hr. split.
  - destruct (proj2 Hpol Hr) as (q & Hq & Hset & _). by exists q.
  - by apply (policy_runs_first less (view v)).
Qed.

(** An instance: the state of [SJFSchedule] after the first tick on the
    textbook input, in which process 2, with 4 ticks to go, has taken the
    processor from process 1, with 7. *)
Lemma preemptive_runs_policy_first_witness :
  exists v0 v,
    preemptive_init (load textbook) (slice_of 0 textbook) = Ok v0
    /\ ticks sortDeployQueue 1 v0 = Ok v
    /\ map ProcessID (ready v) = [2; 1]
    /\ in_order lessDeploy (ready v)
    /\ (RemainingTime (j_process v) <> 0 ->
        (exists q, head (ready v) = Some q
                   /\ set_RemainingTime q (RemainingTime (j_process v)) = j_process v)
        /\ Forall (fun q => lessDeploy q (j_process v) = false) (ready v)).
Proof.
  eexists _, _.
  split; [vm_compute; reflexivity|].
  split; [vm_compute; reflexivity|].
  split; [reflexivity|].
  eapply (preemptive_runs_policy_first sortDeployQueue lessDeploy (load textbook)
            (slice_of 0 textbook) _ 1).
  - unfold wf. simpl. lia.
  - repeat constructor; simpl; lia.
  - vm_compute. reflexivity.
  - left. split; reflexivity.
  - vm_compute. reflexivity.
  - vm_compute. reflexivity.
Defined.

(** ** Round-robin *)

(** X12.  When every burst is positive, no arrival time is negative and the
    latest arrival plus all the bursts is an [int64], the timeline of
    [RRSchedule] is made of slices of one or two ticks, none starting before
    0 nor before the process it is given to has arrived, and none before an
    earlier slice has ended. *)
Theorem RR_timeline_slices (fuel : nat) (title : string) (h : heap)
    (processes : slice) (A : Z) (h' : heap) (out : list output) :
  wf h processes -> 0 <= A -> bursts_positive (elems h processes) ->
  Forall (fun p => 0 <= ArrivalTime p <= A) (elems h processes) ->
  A + total_burst (elems h processes) < 2 ^ 63 ->
  RRSchedule fuel title h processes = Ok (h', out) ->
  exists gantt rows wait turnaround throughput,
    out = [outputTitle title; outputGantt gantt;
           outputSchedule rows wait turnaround throughput]
    /\ Forall (slice_ok (elems h processes)) gantt
    /\ non_overlapping gantt.
Proof.
  intros Hwf HA Hb Harr HT E.
  destruct (RRSchedule_Ok fuel title h processes h' out Hwf E) as [_ El].
  destruct (RR_l_books fuel title _ A out HA Hb Harr HT El)
    as (gantt & rows & a & b & c & -> & Hg & Hno & _).
  by exists gantt, rows, a, b, c.
Qed.

(** An instance: the textbook input. *)
Lemma RR_timeline_slices_witness :
  exists h' out,
    RRSchedule 40 "Round-robin" (load textbook) (slice_of 0 textbook) = Ok (h', out)
    /\ exists gantt rows wait turnaround throughput,
         out = [outputTitle "Round-robin"; outputGantt gantt;
                outputSchedule rows wait turnaround throughput]
         /\ Forall (slice_ok (elems (load textbook) (slice_of 0 textbook))) gantt
         /\ non_overlapping gantt.
Proof.
  eexists _, _. split; [vm_compute; reflexivity|].
  eapply (RR_timeline_slices 40 "Round-robin" (load textbook) (slice_of 0 textbook) 3).
  - unfold wf. simpl. lia.
  - lia.
  - repeat constructor; simpl; lia.
  - repeat constructor; simpl; lia.
  - vm_compute. reflexivity.
  - vm_compute. reflexivity.
Defined.

(** X13.  On such an input [RRSchedule] gives every process the time it
    asked for, no more and no less: however the process ids are weighted,
    the lengths of the slices of the timeline add up to the bursts of the
    input.  With the weight 1 for one id and 0 for the others this is the
    burst of that process; with the weight 1 for all, the total. *)
Theorem RR_gives_every_burst (fuel : nat) (title : string) (h : heap)
    (processes : slice) (A : Z) (h' : heap) (out : list output) :
  wf h processes -> 0 <= A -> bursts_positive (elems h processes) ->
  Forall (fun p => 0 <= ArrivalTime p <= A) (elems h processes) ->
  A + total_burst (elems h processes) < 2 ^ 63 ->
  RRSchedule fuel title h processes = Ok (h', out) ->
  exists gantt rows wait turnaround throughput,
    out = [outputTitle title; outputGantt gantt;
           outputSchedule rows wait turnaround throughput]
    /\ (forall f, time_given f gantt = burst_asked f (elems h processes))
    /\ zsum dur gantt = total_burst (elems h processes).
Proof.
  intros Hwf HA Hb Harr HT E.
  destruct (RRSchedule_Ok fuel title h processes h' out Hwf E) as [_ El].
  destruct (RR_l_books fuel title _ A out HA Hb Harr HT El)
    as (gantt & rows & a & b & c & -> & _ & _ & Hcons).
  exists gantt, rows, a, b, c. split_and!; [done|done|].
  rewrite <- burst_asked_total, <- Hcons. unfold time_given.
  clear. induction gantt as [|ts g IH]; [done|].
  change (zsum dur (ts :: g)) with (dur ts + zsum dur g).
  change (zsum (fun ts => 1 * dur ts) (ts :: g))
    with (1 * dur ts + zsum (fun ts => 1 * dur ts) g).
  rewrite IH. lia.
Qed.

(** An instance: on the textbook input process 3, of burst 9, gets 9 ticks
    in all. *)
Lemma RR_gives_every_burst_witness :
  exists h' out,
    RRSchedule 40 "Round-robin" (load textbook) (slice_of 0 textbook) = Ok (h', out)
    /\ exists gantt rows wait turnaround throughput,
         out = [outputTitle "Round-robin"; outputGantt gantt;
                outputSchedule rows wait turnaround throughput]
         /\ (forall f, time_given f gantt
                       = burst_asked f (elems (load textbook) (slice_of 0 textbook)))
         /\ zsum dur gantt = total_burst (elems (load textbook) (slice_of 0 textbook)).
Proof.
  eexists _, _. split; [vm_compute; reflexivity|].
  eapply (RR_gives_every_burst 40 "Round-robin" (load textbook) (slice_of 0 textbook) 3).
  - unfold wf. simpl. lia.
  - lia.
  - repeat constructor; simpl; lia.
  - repeat constructor; simpl; lia.
  - vm_compute. reflexivity.
  - vm_compute. reflexivity.
Defined.

(** X14.  On such an input a row of the table of [RRSchedule] shows only the
    last slice given to its process: the completion time is the end of that
    slice, but the burst is the length of the slice, one or two ticks, not
    the burst of the process; the wait is the time from the last return to
    the queue to the start of the slice, and the turnaround is that wait
    plus the length of the slice. *)
Theorem RR_rows_show_last_slice (fuel : nat) (title : string) (h : heap)
    (processes : slice) (A : Z) (h' : heap) (out : list output) :
  wf h processes -> 0 <= A -> bursts_positive (elems h processes) ->
  Forall (fun p => 0 <= ArrivalTime p <= A) (elems h processes) ->
  A + total_burst (elems h processes) < 2 ^ 63 ->
  RRSchedule fuel title h processes = Ok (h', out) ->
  exists gantt rows wait turnaround throughput,
    out = [outputTitle title; outputGantt gantt;
           outputSchedule rows wait turnaround throughput]
    /\ forall (i : nat) r,
         rows !! i = Some (Some r) ->
         exists ts,
           last (slices_of (r_id r) gantt) = Some ts
           /\ r_completion r = Stop ts
           /\ r_burst r = dur ts
           /\ r_wait r = Start ts - r_arrival r /\ 0 <= r_wait r
           /\ r_turnaround r = r_wait r + r_burst r.
Proof.
  intros Hwf HA Hb Harr HT E.
  destruct (RRSchedule_Ok fuel title h processes h' out Hwf E) as [_ El].
  exact (RR_l_rows fuel title _ A out HA Hb Harr HT El).
Qed.

(** An instance: the textbook input, whose process 3 has the burst 9. *)
Lemma RR_rows_show_last_slice_witness :
  exists h' out,
    RRSchedule 40 "Round-robin" (load textbook) (slice_of 0 textbook) = Ok (h', out)
    /\ exists gantt rows wait turnaround throughput,
         out = [outputTitle "Round-robin"; outputGantt gantt;
                outputSchedule rows wait turnaround throughput]
         /\ forall (i : nat) r,
              rows !! i = Some (Some r) ->
              exists ts,
                last (slices_of (r_id r) gantt) = Some ts
                /\ r_completion r = Stop ts
                /\ r_burst r = dur ts
                /\ r_wait r = Start ts - r_arrival r /\ 0 <= r_wait r
                /\ r_turnaround r = r_wait r + r_burst r.
Proof.
  eexists _, _. split; [vm_compute; reflexivity|].
  eapply (RR_rows_show_last_slice 40 "Round-robin" (load textbook)
            (slice_of 0 textbook) 3).
  - unfold wf. simpl. lia.
  - lia.
  - repeat constructor; simpl; lia.
  - repeat constructor; simpl; lia.
  - vm_compute. reflexivity.
  - vm_compute. reflexivity.
Defined.

(** ** Loading *)

(** X15.  [mustStrToInt] reads back every [int64] from the text that
    [fmt.Sprint] prints for it, and what it returns is always an [int64]:
    text that stands for a number outside the range ends the program. *)
Theorem mustStrToInt_reads_Sprint (z : Z) (s : string) :
  (int64_range z -> mustStrToInt (Sprint z) = Done z)
  /\ (mustStrToInt s = Done z -> int64_range z).
Proof.
  unfold mustStrToInt. split.
  - intros Hz. by rewrite ParseInt_Sprint.
  - destruct (ParseInt s) as [i|] eqn:E; [|done].
    intros [= <-]. by eapply ParseInt_range.
Qed.

(** X16.  [loadProcesses] returns the processes exactly when every record
    has at least three fields, its first three fields read as the id, the
    burst and the arrival time, in this order, and, when it has four fields,
    the fourth as the priority.  A record of three fields, or of five or
    more, gets the priority 0; the other fields of a process are 0. *)
Theorem loadProcesses_reads_records (rows : list (list string)) (ps : list Process) :
  loadProcesses (Some rows) = Done (Some ps) <-> Forall2 reads rows ps.
Proof.
  unfold loadProcesses. rewrite <- load_rows_reads.
  destruct (load_rows rows) as [ps'|e]; simpl; split; congruence.
Qed.

(** X17.  When [loadProcesses] does not return it has found a record of
    fewer than three fields, and panics on the index, or a field that is not
    the text of an [int64], and exits with status 1. *)
Theorem loadProcesses_stops (rows : list (list string)) (e : stop) :
  loadProcesses (Some rows) = Stopped e ->
  (e = Panicked IndexOutOfRange /\ exists row, row ∈ rows /\ (length row < 3)%nat)
  \/ (e = Exited 1 /\ exists row s, row ∈ rows /\ s ∈ row /\ ParseInt s = None).
Proof.
  unfold loadProcesses.
  destruct (load_rows rows) as [ps|e'] eqn:E; simpl; [done|].
  intros [= <-]. by apply load_rows_Stopped.
Qed.

(** An instance: a record of two fields. *)
Lemma loadProcesses_stops_witness :
  (Panicked IndexOutOfRange = Panicked IndexOutOfRange
   /\ exists row, row ∈ [["1"; "5"]] /\ (length row < 3)%nat)
  \/ (Panicked IndexOutOfRange = Exited 1
      /\ exists row s, row ∈ [["1"; "5"]] /\ s ∈ row /\ ParseInt s = None).
Proof.
  apply (loadProcesses_stops [["1"; "5"]] (Panicked IndexOutOfRange)).
  vm_compute. reflexivity.
Defined.

(** ** The chart *)

(** X18.  [outputGantt] has room for the process ids between -99999999 and
    999999999.  On a timeline with any other id it panics in
    [strings.Repeat], whose count is then negative, after it has begun the
    chart. *)
Theorem outputGantt_room_for_ids (gantt : list TimeSlice) (w : list chunk) :
  Forall (fun ts => int64_range (PID ts)) gantt ->
  (Forall (fun ts => short_id (PID ts)) gantt ->
   exists w', outputGantt_to gantt w = (w', Done tt))
  /\ (~ Forall (fun ts => short_id (PID ts)) gantt ->
      exists w', outputGantt_to gantt w = (w', Stopped NegativeRepeat)
                 /\ w' <> w).
Proof.
  intros Hr.
  assert (Hiff : Forall (fun ts => short_id (PID ts)) gantt
                 <-> Forall (fun ts => len (Sprint (PID ts)) < 10) gantt).
  { rewrite !Forall_forall. split; intros H ts Hts.
    - apply short_id_prints_short. by apply H.
    - rewrite Forall_forall in Hr.
      destruct (Sprint_long (PID ts) (Hr ts Hts)) as [_ H2].
      specialize (H ts Hts). simpl in H. unfold short_id.
      destruct (decide (PID ts <= - 10 ^ 8)) as [H3|H3]; [specialize (H2 (or_introl H3)); lia|].
      destruct (decide (10 ^ 9 <= PID ts)) as [H4|H4]; [specialize (H2 (or_intror H4)); lia|].
      lia. }
  destruct (outputGantt_to_spec gantt w) as [H1 H2].
  split.
  - intros H. apply H1. by apply Hiff.
  - intros H. destruct (H2 ltac:(by rewrite <- Hiff)) as (w' & E).
    exists w'. split; [done|].
    unfold outputGantt_to in E.
    erewrite program_bind_Done in E by reflexivity.
    erewrite program_bind_Done in E by reflexivity.
    destruct (gantt_cells_spec gantt
                ((w ++ [Text ("Gantt schedule" +:+ nl)]) ++ [Text "|"])) as [_ G2].
    destruct (G2 ltac:(by rewrite <- Hiff)) as (w1 & E1).
    erewrite program_bind_Stopped in E by exact E1.
    injection E as <-.
    assert (Hlen : forall g v v', gantt_cells g v = (v', Stopped NegativeRepeat) ->
                                  (length v <= length v')%nat).
    { clear. induction g as [|ts rest IH]; intros v v'; [done|].
      cbn [gantt_cells]. unfold Repeat.
      destruct ((8 - len (Sprint (PID ts))) ÷ 2 <? 0).
      - unfold mbind, program_bind, halt. by intros [= <-].
      - erewrite program_bind_Done by reflexivity.
        erewrite program_bind_Done by reflexivity.
        intros H. apply IH in H. rewrite length_app in H. simpl in H. lia. }
    apply Hlen in E1. rewrite !length_app in E1. simpl in E1.
    intros ->. lia.
Qed.

(** An instance: the id 1000000000. *)
Lemma outputGantt_room_for_ids_witness :
  (Forall (fun ts => short_id (PID ts)) [mkTimeSlice 1000000000 0 1] ->
   exists w', outputGantt_to [mkTimeSlice 1000000000 0 1] [] = (w', Done tt))
  /\ (~ Forall (fun ts => short_id (PID ts)) [mkTimeSlice 1000000000 0 1] ->
      exists w', outputGantt_to [mkTimeSlice 1000000000 0 1] []
                 = (w', Stopped NegativeRepeat)
                 /\ w' <> []).
Proof.
  apply (outputGantt_room_for_ids [mkTimeSlice 1000000000 0 1] []).
  repeat constructor; simpl; lia.
Defined.

(** ** The program *)

(** X19.  On a file that loads into at least one process, with positive
    bursts that add up to an [int64] and ids that the chart has room for,
    [main] returns, having written the report of [FCFSSchedule], then that
    of [SJFSchedule], then that of [SJFPrioritySchedule], and nothing of
    round-robin.  Each report is the one its scheduler writes on the
    processes as loaded: no scheduler sees what another did to them. *)
Theorem main_writes_three_reports (args : list string) (Open : string -> option file)
    (f : file) (ps : list Process) :
  openProcessingFile Open args = Some f ->
  loadProcesses f = Done (Some ps) ->
  ps <> [] -> bursts_positive ps -> total_burst ps < 2 ^ 63 ->
  Forall (fun p => short_id (ProcessID p)) ps ->
  let fuel := S (Z.to_nat (total_burst ps)) in
  exists h2 h3 o1 o2 o3 w',
    FCFSSchedule "First-come, first-serve" (load ps) (slice_of 0 ps) = Ok (load ps, o1)
    /\ SJFSchedule fuel "Shortest-job-first" (load ps) (slice_of 0 ps) = Ok (h2, o2)
    /\ SJFPrioritySchedule fuel "Priority" (load ps) (slice_of 0 ps) = Ok (h3, o3)
    /\ emit_all (o1 ++ o2 ++ o3) [] = (w', Done tt)
    /\ main fuel args Open [] = (w', Done tt).
Proof.
  intros Hopen Hload Hne Hb HT Hid fuel.
  pose proof (wf_load ps) as Hwf. pose proof (elems_load ps) as Hel.
  pose proof (length_le_total_burst ps Hb) as Hlen.
  pose proof (FCFSSchedule_spec "First-come, first-serve" _ _ Hwf) as E1.
  rewrite Hel in E1.
  destruct (preemptive_l_terminates lessDeploy "Shortest-job-first" ps Hne Hb
              ltac:(lia)) as (r2 & a2 & b2 & c2 & El2 & _).
  destruct (preemptive_l_terminates lessPriority "Priority" ps Hne Hb
              ltac:(lia)) as (r3 & a3 & b3 & c3 & El3 & _).
  fold fuel in El2, El3.
  destruct (preemptive_schedule_of_l lessDeploy fuel "Shortest-job-first"
              (load ps) (slice_of 0 ps) _ Hwf ltac:(by rewrite Hel)) as (h2 & E2).
  destruct (preemptive_schedule_of_l lessPriority fuel "Priority"
              (load ps) (slice_of 0 ps) _ Hwf ltac:(by rewrite Hel)) as (h3 & E3).
  destruct (preemptive_schedule_Ok _ _ _ _ _ _ _ Hwf E2) as [Hkept _].
  destruct (kept_wf_elems _ _ _ Hkept Hwf) as [Hwf2 Hel2].
  destruct (preemptive_schedule_of_l lessPriority fuel "Priority"
              h2 (slice_of 0 ps) _ Hwf2 ltac:(by rewrite Hel2, Hel)) as (h3' & E3').
  set (o1 := FCFS_report "First-come, first-serve" ps) in *.
  set (o2 := [outputTitle "Shortest-job-first"; outputSchedule r2 a2 b2 c2]) in *.
  set (o3 := [outputTitle "Priority"; outputSchedule r3 a3 b3 c3]) in *.
  destruct (emit_all_Done o1 [] (FCFS_report_printable ps Hid)) as (w1 & W1).
  destruct (emit_all_Done o2 w1) as (w2 & W2).
  { constructor; [vm_compute; reflexivity|]. constructor; [done|constructor]. }
  destruct (emit_all_Done o3 w2) as (w3 & W3).
  { constructor; [vm_compute; reflexivity|]. constructor; [done|constructor]. }
  exists h2, h3, o1, o2, o3, w3.
  split_and!; [done|exact E2|exact E3| |].
  - by rewrite emit_all_app, W1, emit_all_app, W2.
  - unfold main. rewrite Hopen.
    erewrite program_bind_Done by (unfold lift; by rewrite Hload).
    cbv beta iota zeta. rewrite E1.
    erewrite program_bind_Done by (apply call_Ok; exact W1).
    change (SJFSchedule fuel "Shortest-job-first" (load ps) (slice_of 0 ps))
      with (preemptive_schedule (sort_Slice lessDeploy) fuel "Shortest-job-first"
              (load ps) (slice_of 0 ps)).
    rewrite E2.
    erewrite program_bind_Done by (apply call_Ok; exact W2).
    change (SJFPrioritySchedule fuel "Priority" h2 (slice_of 0 ps))
      with (preemptive_schedule (sort_Slice lessPriority) fuel "Priority"
              h2 (slice_of 0 ps)).
    rewrite E3'.
    erewrite program_bind_Done by (apply call_Ok; exact W3).
    done.
Qed.

(** An instance: a file with the records of [meeting]. *)
Lemma main_writes_three_reports_witness :
  exists h2 h3 o1 o2 o3 w',
    FCFSSchedule "First-come, first-serve" (load meeting) (slice_of 0 meeting)
    = Ok (load meeting, o1)
    /\ SJFSchedule (S (Z.to_nat (total_burst meeting))) "Shortest-job-first"
         (load meeting) (slice_of 0 meeting) = Ok (h2, o2)
    /\ SJFPrioritySchedule (S (Z.to_nat (total_burst meeting))) "Priority"
         (load meeting) (slice_of 0 meeting) = Ok (h3, o3)
    /\ emit_all (o1 ++ o2 ++ o3) [] = (w', Done tt)
    /\ main (S (Z.to_nat (total_burst meeting))) ["scheduler"; "processes.csv"]
            (fun _ => Some (Some [["1"; "2"; "0"]; ["2"; "3"; "2"]])) []
       = (w', Done tt).
Proof.
  apply (main_writes_three_reports ["scheduler"; "processes.csv"]
           (fun _ => Some (Some [["1"; "2"; "0"]; ["2"; "3"; "2"]]))
           (Some [["1"; "2"; "0"]; ["2"; "3"; "2"]]) meeting).
  - reflexivity.
  - vm_compute. reflexivity.
  - discriminate.
  - repeat constructor; simpl; lia.
  - vm_compute. reflexivity.
  - repeat constructor; simpl; lia.
Defined.

(** X20.  On a file without records [main] writes the report of
    [FCFSSchedule], an empty chart and an empty table with averages that are
    not numbers, and then panics in [SJFSchedule] on the index 0 of an empty
    queue, whatever the arguments were. *)
Theorem main_empty_file (fuel : nat) (args : list string)
    (Open : string -> option file) (w : list chunk) :
  openProcessingFile Open args = Some (Some []) ->
  exists w',
    emit_all [outputTitle "First-come, first-serve"; outputGantt [];
              outputSchedule [] S754_nan S754_nan S754_nan] w = (w', Done tt)
    /\ main fuel args Open w = (w', Stopped (Panicked IndexOutOfRange)).
Proof.
  intros Hopen.
  destruct (emit_all_Done [outputTitle "First-come, first-serve"; outputGantt [];
                           outputSchedule [] S754_nan S754_nan S754_nan] w)
    as (w' & W).
  { constructor; [vm_compute; reflexivity|].
    constructor; [constructor|]. constructor; [done|constructor]. }
  exists w'. split; [done|].
  unfold main. rewrite Hopen.
  erewrite program_bind_Done by reflexivity.
  cbv beta iota zeta.
  rewrite (FCFSSchedule_spec "First-come, first-serve" _ _ (wf_load [])).
  rewrite elems_load.
  erewrite program_bind_Done by (apply call_Ok; exact W).
  done.
Qed.

(** An instance: the empty file given as the only argument. *)
Lemma main_empty_file_witness :
  exists w',
    emit_all [outputTitle "First-come, first-serve"; outputGantt [];
              outputSchedule [] S754_nan S754_nan S754_nan] [] = (w', Done tt)
    /\ main 1 ["scheduler"; "empty.csv"] (fun _ => Some (Some [])) []
       = (w', Stopped (Panicked IndexOutOfRange)).
Proof.
  apply (main_empty_file 1 ["scheduler"; "empty.csv"] (fun _ => Some (Some [])) []).
  reflexivity.
Defined.

(** X21.  [main] writes nothing unless the whole file loads: without
    exactly one argument after the program name, on a file that does not
    open or is not CSV, and on a record that [loadProcesses] stops at, it
    ends with status 1 or with the panic of the index, and standard output
    is as it was. *)
Theorem main_writes_nothing_on_bad_input (fuel : nat) (args : list string)
    (Open : string -> option file) (w : list chunk) :
  (forall f ps, openProcessingFile Open args = Some f ->
                loadProcesses f <> Done (Some ps)) ->
  exists e, main fuel args Open w = (w, Stopped e)
            /\ (e = Exited 1 \/ e = Panicked IndexOutOfRange)
            /\ (length args <> 2%nat -> e = Exited 1).
Proof.
  intros Hbad. unfold main.
  destruct (openProcessingFile Open args) as [f|] eqn:Eo.
  - assert (Hargs : length args = 2%nat).
    { unfold openProcessingFile in Eo.
      destruct (decide (length args = 2%nat)) as [|Hn]; [done|].
      by rewrite bool_decide_true in Eo. }
    specialize (Hbad f). destruct (loadProcesses f) as [[ps|]|e] eqn:El.
    + by destruct (Hbad ps).
    + exists (Exited 1). by split_and!; [|left|].
    + exists e. split_and!; [done| |lia].
      destruct f as [rows|]; [|done]. unfold loadProcesses in El.
      destruct (load_rows rows) as [ps|e'] eqn:Er; [done|].
      simpl in El. injection El as ->.
      destruct (load_rows_Stopped rows e Er) as [[-> _]|[-> _]]; auto.
  - exists (Exited 1). by split_and!; [|left|].
Qed.

(** An instance: no file is named. *)
Lemma main_writes_nothing_on_bad_input_witness :
  exists e, main 1 ["scheduler"] (fun _ => None) [] = ([], Stopped e)
            /\ (e = Exited 1 \/ e = Panicked IndexOutOfRange)
            /\ (length ["scheduler"] <> 2%nat -> e = Exited 1).
Proof.
  apply (main_writes_nothing_on_bad_input 1 ["scheduler"] (fun _ => None) []).
  intros f ps H. discriminate H.
Defined.
